(** * The rich-text editor component (CKEditor), shallow embedding.

    The repository holds two copies of the component:
      - [src/client/components/CKEditor.tsx]   (module [Client] below)
      - [src/unnamed/part_000]                  (module [Part0] below)
    Both drive one browser [contentEditable] element through the DOM, the
    Selection/Range API and React state.  The DOM tree is embedded as a rose
    tree, nodes are addressed by child-index paths from the editor element,
    and the DOM Standard's range algorithms used by the component
    (extract, delete, insert, surround) are written out as functions. *)

From Stdlib Require Import List String Ascii Bool Arith Lia DecimalString.
Import ListNotations.
Open Scope string_scope.
Open Scope list_scope.

(* ------------------------------------------------------------------ *)
(** ** Strings (each character stands for one UTF-16 code unit) *)
(* ------------------------------------------------------------------ *)

Definition str_take (n : nat) (s : string) : string := substring 0 n s.
Definition str_drop (n : nat) (s : string) : string := substring n (String.length s - n) s.

(** JS [String.prototype.trim] strips white space and line terminators
    from both ends (code units 9-13, 32 and 160 in the Latin-1 range). *)
Definition is_space (c : ascii) : bool :=
  let n := nat_of_ascii c in
  (Nat.leb 9 n && Nat.leb n 13) || Nat.eqb n 32 || Nat.eqb n 160.

Fixpoint trimStart (s : string) : string :=
  match s with
  | String c s' => if is_space c then trimStart s' else s
  | EmptyString => EmptyString
  end.

(** [trimEnd]: a character is kept when it is not a space or when
    something non-blank follows it. *)
Fixpoint trimEnd (s : string) : string :=
  match s with
  | EmptyString => EmptyString
  | String c s' =>
      match trimEnd s' with
      | EmptyString => if is_space c then EmptyString else String c EmptyString
      | t => String c t
      end
  end.

Definition trim (s : string) : string := trimEnd (trimStart s).

(** JS truthiness of a string: non-empty. *)
Definition truthy (s : string) : bool :=
  match s with EmptyString => false | _ => true end.

(** [a || b] on strings. *)
Definition str_or (a b : string) : string := if truthy a then a else b.

Fixpoint starts_with (p s : string) : bool :=
  match p, s with
  | EmptyString, _ => true
  | String a p', String b s' => Ascii.eqb a b && starts_with p' s'
  | String _ _, EmptyString => false
  end.

(** [s.includes(p)] *)
Fixpoint includes (p s : string) : bool :=
  starts_with p s ||
  match s with
  | EmptyString => false
  | String _ s' => includes p s'
  end.

(* ------------------------------------------------------------------ *)
(** ** DOM nodes *)
(* ------------------------------------------------------------------ *)

(** An inline declaration block ([element.style]): property name and
    value, in declaration order. *)
Definition css := list (string * string).

Unset Elimination Schemes.
Inductive node : Type :=
| Text (data : string)
| Elem (tagName : string) (attrs : list (string * string)) (style : css)
       (childNodes : list node).
Set Elimination Schemes.

Section node_ind.
Variable P : node -> Prop.
Hypothesis P_Text : forall d, P (Text d).
Hypothesis P_Elem : forall t a s cs, Forall P cs -> P (Elem t a s cs).

Fixpoint node_ind (n : node) : P n :=
  match n with
  | Text d => P_Text d
  | Elem t a s cs =>
      P_Elem t a s cs
        ((fix go (l : list node) : Forall P l :=
            match l with
            | [] => Forall_nil P
            | c :: l' => Forall_cons c (node_ind c) (go l')
            end) cs)
  end.
End node_ind.

Definition children (n : node) : list node :=
  match n with
  | Text _ => []
  | Elem _ _ _ cs => cs
  end.

Definition set_children (cs : list node) (n : node) : node :=
  match n with
  | Text d => Text d
  | Elem t a s _ => Elem t a s cs
  end.

Definition is_text (n : node) : bool :=
  match n with Text _ => true | Elem _ _ _ _ => false end.

Definition tag_of (n : node) : option string :=
  match n with Text _ => None | Elem t _ _ _ => Some t end.

Definition style_of (n : node) : css :=
  match n with Text _ => [] | Elem _ _ s _ => s end.

Definition attrs_of (n : node) : list (string * string) :=
  match n with Text _ => [] | Elem _ a _ _ => a end.

(** [document.createElement(tag)] *)
Definition createElement (tag : string) : node := Elem tag [] [] [].

(** [node.textContent] *)
Fixpoint textContent (n : node) : string :=
  match n with
  | Text d => d
  | Elem _ _ _ cs =>
      fold_right (fun c acc => String.append (textContent c) acc) EmptyString cs
  end.

Definition textContents (l : list node) : string :=
  fold_right (fun c acc => String.append (textContent c) acc) EmptyString l.

(** [el.textContent = s]: a single text child, or none for the empty string. *)
Definition set_textContent (s : string) (n : node) : node :=
  match s with
  | EmptyString => set_children [] n
  | _ => set_children [Text s] n
  end.

(* ---- attributes and inline style ---- *)

Fixpoint assoc_get (k : string) (l : list (string * string)) : option string :=
  match l with
  | [] => None
  | (k', v) :: l' => if String.eqb k k' then Some v else assoc_get k l'
  end.

(** Setting keeps the position of an existing key and appends a new one. *)
Fixpoint assoc_set (k v : string) (l : list (string * string)) : list (string * string) :=
  match l with
  | [] => [(k, v)]
  | (k', v') :: l' =>
      if String.eqb k k' then (k, v) :: l' else (k', v') :: assoc_set k v l'
  end.

Definition setAttribute (k v : string) (n : node) : node :=
  match n with
  | Text d => Text d
  | Elem t a s cs => Elem t (assoc_set k v a) s cs
  end.

(** [el.style.<prop> = v] *)
Definition set_style (prop v : string) (n : node) : node :=
  match n with
  | Text d => Text d
  | Elem t a s cs => Elem t a (assoc_set prop v s) cs
  end.

Definition get_style (prop : string) (n : node) : option string :=
  assoc_get prop (style_of n).

(** Serialization of a declaration block, the text of the [style]
    content attribute: [prop: value;] joined by single spaces. *)
Fixpoint style_text (s : css) : string :=
  match s with
  | [] => EmptyString
  | [(p, v)] => String.append p (String.append ": " (String.append v ";"))
  | (p, v) :: s' =>
      String.append p (String.append ": " (String.append v (String.append "; " (style_text s'))))
  end.

Inductive alignment := AlignLeft | AlignCenter | AlignRight.

Definition align_str (a : alignment) : string :=
  match a with
  | AlignLeft => "left"
  | AlignCenter => "center"
  | AlignRight => "right"
  end.

(* ---- selectors ---- *)

Definition tag_in (tags : list string) (n : node) : bool :=
  match n with
  | Text _ => false
  | Elem t _ _ _ => existsb (String.eqb t) tags
  end.

(** The selector ['p, div, h1, h2, h3, h4, h5, h6, li'] and the tag test of
    the ancestor walk in [setAlignment] (tag names are upper case). *)
Definition block_tags : list string :=
  ["P"; "DIV"; "H1"; "H2"; "H3"; "H4"; "H5"; "H6"; "LI"].
Definition is_block (n : node) : bool := tag_in block_tags n.

(** The selector ['script, style, iframe, object, embed'] of [handlePaste]. *)
Definition unsafe_tags : list string :=
  ["SCRIPT"; "STYLE"; "IFRAME"; "OBJECT"; "EMBED"].
Definition is_unsafe (n : node) : bool := tag_in unsafe_tags n.

(** The selector ['[style*="text-align"]']. *)
Definition has_text_align_style (n : node) : bool :=
  match n with
  | Text _ => false
  | Elem _ _ s _ => includes "text-align" (style_text s)
  end.

(** Does some descendant (not the node itself) satisfy [f]:
    [el.querySelectorAll(sel).length > 0]. *)
Fixpoint some_descendant (f : node -> bool) (n : node) : bool :=
  match n with
  | Text _ => false
  | Elem _ _ _ cs => existsb (fun c => f c || some_descendant f c) cs
  end.

(** Apply [g] to every descendant that satisfies [f]:
    [el.querySelectorAll(sel).forEach(g)] for a [g] that keeps tag and children. *)
Fixpoint map_matching (f : node -> bool) (g : node -> node) (n : node) : node :=
  match n with
  | Text d => Text d
  | Elem t a s cs =>
      Elem t a s
        (map (fun c => let c' := map_matching f g c in if f c then g c' else c') cs)
  end.

(** Remove every descendant that satisfies [f]:
    [el.querySelectorAll(sel).forEach(x => x.remove())]. *)
Fixpoint remove_matching (f : node -> bool) (n : node) : node :=
  match n with
  | Text d => Text d
  | Elem t a s cs =>
      Elem t a s
        (flat_map (fun c => if f c then [] else [remove_matching f c]) cs)
  end.

(* ---- paths ---- *)

(** A node is addressed by the child indices leading to it from the
    editor element; [[]] is the editor element itself. *)
Definition path := list nat.

Fixpoint get (n : node) (p : path) : option node :=
  match p with
  | [] => Some n
  | i :: p' =>
      match nth_error (children n) i with
      | Some c => get c p'
      | None => None
      end
  end.

Definition replace_nth (i : nat) (c : node) (l : list node) : list node :=
  firstn i l ++ c :: skipn (S i) l.

Fixpoint update_at (p : path) (f : node -> node) (n : node) : node :=
  match p with
  | [] => f n
  | i :: p' =>
      match nth_error (children n) i with
      | Some c => set_children (replace_nth i (update_at p' f c) (children n)) n
      | None => n
      end
  end.

(** Text nodes below [n] in tree order, with their paths
    (a [TreeWalker] with [NodeFilter.SHOW_TEXT]). *)
Fixpoint flat_mapi {A B : Type} (f : nat -> A -> list B) (i : nat) (l : list A) : list B :=
  match l with
  | [] => []
  | x :: l' => f i x ++ flat_mapi f (S i) l'
  end.

Fixpoint text_leaves_from (here : path) (n : node) : list (path * string) :=
  match n with
  | Text d => [(here, d)]
  | Elem _ _ _ cs => flat_mapi (fun i c => text_leaves_from (here ++ [i]) c) 0 cs
  end.

Definition text_leaves (root : node) : list (path * string) :=
  match root with
  | Text _ => []
  | Elem _ _ _ _ => text_leaves_from [] root
  end.

(* ------------------------------------------------------------------ *)
(** ** Boundary points and ranges (DOM Standard, section "Ranges") *)
(* ------------------------------------------------------------------ *)

Record point := Point { container : path; offset : nat }.
Record Range := MkRange { startPoint : point; endPoint : point }.

(** A collapsed range at [pt]. *)
Definition caret (pt : point) : Range := MkRange pt pt.

Definition path_eqb (p q : path) : bool :=
  if list_eq_dec Nat.eq_dec p q then true else false.

Definition point_eqb (a b : point) : bool :=
  path_eqb (container a) (container b) && Nat.eqb (offset a) (offset b).

Definition collapsed (r : Range) : bool := point_eqb (startPoint r) (endPoint r).

(** The length of a node: code units of a text node, children of an element. *)
Definition node_length (n : node) : nat :=
  match n with
  | Text d => String.length d
  | Elem _ _ _ cs => List.length cs
  end.

Definition valid_point (root : node) (pt : point) : bool :=
  match get root (container pt) with
  | Some n => Nat.leb (offset pt) (node_length n)
  | None => false
  end.

(** Tree order of boundary points: is [(ps, so)] before or equal to [(pe, eo)]. *)
Fixpoint point_leb (ps : path) (so : nat) (pe : path) (eo : nat) : bool :=
  match ps, pe with
  | [], [] => Nat.leb so eo
  | [], j :: _ => Nat.leb so j
  | i :: _, [] => Nat.ltb i eo
  | i :: ps', j :: pe' =>
      if Nat.eqb i j then point_leb ps' so pe' eo else Nat.ltb i j
  end.

Definition valid_range (root : node) (r : Range) : bool :=
  valid_point root (startPoint r) && valid_point root (endPoint r) &&
  point_leb (container (startPoint r)) (offset (startPoint r))
            (container (endPoint r)) (offset (endPoint r)).

(** [range.commonAncestorContainer] *)
Fixpoint common_prefix (p q : path) : path :=
  match p, q with
  | i :: p', j :: q' => if Nat.eqb i j then i :: common_prefix p' q' else []
  | _, _ => []
  end.

Definition commonAncestorContainer (r : Range) : path :=
  common_prefix (container (startPoint r)) (container (endPoint r)).

(** Cut a node at a boundary point inside it: the part before the point
    and the part after it (a partially contained node and its clone). *)
Fixpoint split_at (p : path) (off : nat) (n : node) : node * node :=
  match p with
  | [] =>
      match n with
      | Text d => (Text (str_take off d), Text (str_drop off d))
      | Elem t a s cs => (Elem t a s (firstn off cs), Elem t a s (skipn off cs))
      end
  | i :: p' =>
      match n with
      | Text d => (Text d, Text EmptyString)
      | Elem t a s cs =>
          match nth_error cs i with
          | Some c =>
              let '(l, r) := split_at p' off c in
              (Elem t a s (firstn i cs ++ [l]), Elem t a s (r :: skipn (S i) cs))
          | None => (Elem t a s cs, Elem t a s [])
          end
      end
  end.

(** "Extract" a range from the tree below [n] (paths relative to [n]):
    the tree left behind, the extracted fragment, and the point the range
    collapses to.  The caller has ruled out the collapsed range. *)
Fixpoint extract (ps : path) (so : nat) (pe : path) (eo : nat) (n : node)
  : node * list node * point :=
  match n with
  | Text d =>
      match ps, pe with
      | [], [] =>
          (Text (String.append (str_take so d) (str_drop eo d)),
           [Text (substring so (eo - so) d)], Point [] so)
      | _, _ => (Text d, [], Point [] so)
      end
  | Elem t a s cs =>
      match ps, pe with
      | [], [] =>
          (Elem t a s (firstn so cs ++ skipn eo cs),
           firstn (eo - so) (skipn so cs), Point [] so)
      | [], j :: pe' =>
          match nth_error cs j with
          | Some cj =>
              let '(y, k) := split_at pe' eo cj in
              (Elem t a s (firstn so cs ++ k :: skipn (S j) cs),
               firstn (j - so) (skipn so cs) ++ [y], Point [] so)
          | None => (Elem t a s cs, [], Point [] so)
          end
      | i :: ps', [] =>
          match nth_error cs i with
          | Some ci =>
              let '(k, x) := split_at ps' so ci in
              (Elem t a s (firstn i cs ++ k :: skipn eo cs),
               x :: firstn (eo - S i) (skipn (S i) cs), Point [] (S i))
          | None => (Elem t a s cs, [], Point [] (S i))
          end
      | i :: ps', j :: pe' =>
          if Nat.eqb i j then
            match nth_error cs i with
            | Some c =>
                let '(c', frag, pt) := extract ps' so pe' eo c in
                (Elem t a s (replace_nth i c' cs), frag,
                 Point (i :: container pt) (offset pt))
            | None => (Elem t a s cs, [], Point (i :: ps') so)
            end
          else
            match nth_error cs i, nth_error cs j with
            | Some ci, Some cj =>
                let '(k, x) := split_at ps' so ci in
                let '(y, k') := split_at pe' eo cj in
                (Elem t a s (firstn i cs ++ k :: k' :: skipn (S j) cs),
                 x :: firstn (j - S i) (skipn (S i) cs) ++ [y], Point [] (S i))
            | _, _ => (Elem t a s cs, [], Point [] (S i))
            end
      end
  end.

(** [range.extractContents()]: tree, fragment, collapsed range position. *)
Definition extractContents (r : Range) (root : node) : node * list node * point :=
  if collapsed r then (root, [], startPoint r)
  else extract (container (startPoint r)) (offset (startPoint r))
               (container (endPoint r)) (offset (endPoint r)) root.

(** [range.deleteContents()] leaves the same tree and position behind. *)
Definition deleteContents (r : Range) (root : node) : node * point :=
  let '(root', _, pt) := extractContents r root in (root', pt).

(** [range.toString()]: the text of the range's contents. *)
Definition Range_toString (r : Range) (root : node) : string :=
  let '(_, frag, _) := extractContents r root in textContents frag.

(** Text from the start of [n] up to the boundary point [(p, off)]:
    the string of the range [selectNodeContents(n); setEnd(p, off)]. *)
Fixpoint text_before (p : path) (off : nat) (n : node) : string :=
  match p with
  | [] =>
      match n with
      | Text d => str_take off d
      | Elem _ _ _ cs => textContents (firstn off cs)
      end
  | i :: p' =>
      match nth_error (children n) i with
      | Some c => String.append (textContents (firstn i (children n))) (text_before p' off c)
      | None => textContent n
      end
  end.

(** Is a non-text node partially contained in the range
    ([surroundContents] then throws InvalidStateError). *)
Fixpoint partially_contains_element (ps pe : path) (n : node) : bool :=
  let child_is_element i :=
    match nth_error (children n) i with
    | Some c => negb (is_text c)
    | None => false
    end in
  match ps, pe with
  | [], [] => false
  | [], j :: _ => child_is_element j
  | i :: _, [] => child_is_element i
  | i :: ps', j :: pe' =>
      if Nat.eqb i j then
        match nth_error (children n) i with
        | Some c => partially_contains_element ps' pe' c
        | None => false
        end
      else child_is_element i || child_is_element j
  end.

(** "Insert a node into a range" at a collapsed position: [new] is the
    inserted node (or the children of an inserted fragment).  A text
    container is split at the offset and [new] goes between the halves.
    Returns the tree, the parent path and the index of the first inserted
    node (the offset itself for an element container with a valid offset). *)
Fixpoint insert_at (p : path) (off : nat) (new : list node) (n : node)
  : node * (path * nat) :=
  match p with
  | [] =>
      match n with
      | Text d => (Text d, ([], 0))
      | Elem t a s cs =>
          (Elem t a s (firstn off cs ++ new ++ skipn off cs),
           ([], List.length (firstn off cs)))
      end
  | i :: p' =>
      match n with
      | Text d => (Text d, ([], 0))
      | Elem t a s cs =>
          match nth_error cs i with
          | Some (Text d) =>
              (Elem t a s
                 (firstn i cs ++ Text (str_take off d) :: new
                    ++ Text (str_drop off d) :: skipn (S i) cs),
               ([], S i))
          | Some c =>
              let '(c', (q, k)) := insert_at p' off new c in
              (Elem t a s (replace_nth i c' cs), (i :: q, k))
          | None => (Elem t a s cs, ([], 0))
          end
      end
  end.

Definition insertNode (pt : point) (new : list node) (root : node) : node * (path * nat) :=
  insert_at (container pt) (offset pt) new root.

(** Prefixes of a path, longest first, without the empty one: the chain
    [node, node.parentNode, ...] up to, not including, the editor element. *)
Definition ancestors_or_self (p : path) : list path :=
  map (fun k => firstn k p) (rev (seq 1 (List.length p))).

(** The ancestor walks of [setAlignment]: the nearest inclusive ancestor
    of the container, below the editor element, that satisfies [f]. *)
Definition find_ancestor (f : node -> bool) (root : node) (p : path) : option path :=
  find (fun q => match get root q with
                 | Some n => f n
                 | None => false
                 end) (ancestors_or_self p).

Definition find_block (root : node) (p : path) : option path :=
  find_ancestor is_block root p.

(* ------------------------------------------------------------------ *)
(** ** Component state, observable effects and the browser interface *)
(* ------------------------------------------------------------------ *)

Record File := MkFile { file_name : string; file_type : string; file_size : nat }.

(** A thrown value: an [Error] object with its message, or something else. *)
Inductive thrown :=
| ErrorObject (message : string)
| NonError.

(** What the component does to the outside, in order of occurrence. *)
Inductive Effect :=
| OnChange (html : string)       (* props.onChange(html) *)
| Alert (msg : string)           (* alert(msg) *)
| ConsoleError (what : string)   (* console.error(what, ...) *)
| FetchUpload (file : File)      (* fetch(`${API_BASE_URL_WITH_API}/upload-image`, POST) *)
| Uncaught (name : string).      (* an exception leaves the event handler *)

(** [editorRef.current], focus and selection of the page, and the React
    state of the component.  [window.getSelection()] is taken to return
    the Selection object always; [selection] is its range, if any
    ([rangeCount] is 0 or 1), with boundary points inside the editor. *)
Record State := MkState {
  editorRef : option node;
  hasFocus : bool;               (* document.activeElement === editorRef.current *)
  selection : option Range;
  showImageDialog : bool;
  showLinkDialog : bool;
  imageUrl : string;             (* React state of CKEditor.tsx only *)
  imageFile : option File;
  imagePreview : string;
  uploadingImage : bool;
  linkUrl : string;
  linkText : string;
  effects : list Effect
}.

Definition set_editor (root : node) (st : State) : State :=
  MkState (Some root) (hasFocus st) (selection st) (showImageDialog st)
    (showLinkDialog st) (imageUrl st) (imageFile st) (imagePreview st)
    (uploadingImage st) (linkUrl st) (linkText st) (effects st).

Definition set_hasFocus (b : bool) (st : State) : State :=
  MkState (editorRef st) b (selection st) (showImageDialog st)
    (showLinkDialog st) (imageUrl st) (imageFile st) (imagePreview st)
    (uploadingImage st) (linkUrl st) (linkText st) (effects st).

Definition set_selection (s : option Range) (st : State) : State :=
  MkState (editorRef st) (hasFocus st) s (showImageDialog st)
    (showLinkDialog st) (imageUrl st) (imageFile st) (imagePreview st)
    (uploadingImage st) (linkUrl st) (linkText st) (effects st).

Definition setShowImageDialog (b : bool) (st : State) : State :=
  MkState (editorRef st) (hasFocus st) (selection st) b
    (showLinkDialog st) (imageUrl st) (imageFile st) (imagePreview st)
    (uploadingImage st) (linkUrl st) (linkText st) (effects st).

Definition setShowLinkDialog (b : bool) (st : State) : State :=
  MkState (editorRef st) (hasFocus st) (selection st) (showImageDialog st)
    b (imageUrl st) (imageFile st) (imagePreview st)
    (uploadingImage st) (linkUrl st) (linkText st) (effects st).

Definition setImageUrl (s : string) (st : State) : State :=
  MkState (editorRef st) (hasFocus st) (selection st) (showImageDialog st)
    (showLinkDialog st) s (imageFile st) (imagePreview st)
    (uploadingImage st) (linkUrl st) (linkText st) (effects st).

Definition setImageFile (f : option File) (st : State) : State :=
  MkState (editorRef st) (hasFocus st) (selection st) (showImageDialog st)
    (showLinkDialog st) (imageUrl st) f (imagePreview st)
    (uploadingImage st) (linkUrl st) (linkText st) (effects st).

Definition setImagePreview (s : string) (st : State) : State :=
  MkState (editorRef st) (hasFocus st) (selection st) (showImageDialog st)
    (showLinkDialog st) (imageUrl st) (imageFile st) s
    (uploadingImage st) (linkUrl st) (linkText st) (effects st).

Definition setUploadingImage (b : bool) (st : State) : State :=
  MkState (editorRef st) (hasFocus st) (selection st) (showImageDialog st)
    (showLinkDialog st) (imageUrl st) (imageFile st) (imagePreview st)
    b (linkUrl st) (linkText st) (effects st).

Definition setLinkUrl (s : string) (st : State) : State :=
  MkState (editorRef st) (hasFocus st) (selection st) (showImageDialog st)
    (showLinkDialog st) (imageUrl st) (imageFile st) (imagePreview st)
    (uploadingImage st) s (linkText st) (effects st).

Definition setLinkText (s : string) (st : State) : State :=
  MkState (editorRef st) (hasFocus st) (selection st) (showImageDialog st)
    (showLinkDialog st) (imageUrl st) (imageFile st) (imagePreview st)
    (uploadingImage st) (linkUrl st) s (effects st).

(** Record one more effect (the newest is last). *)
Definition emit (e : Effect) (st : State) : State :=
  MkState (editorRef st) (hasFocus st) (selection st) (showImageDialog st)
    (showLinkDialog st) (imageUrl st) (imageFile st) (imagePreview st)
    (uploadingImage st) (linkUrl st) (linkText st) (effects st ++ [e]).

(** What the component takes from the browser and does not define:
    the HTML fragment parser behind [el.innerHTML = s], the serializer
    behind reading [el.innerHTML], and [document.execCommand], which
    returns its success flag, the tree and the selection it leaves, or
    throws ([None]).  [firesInput] tells whether that run of the command
    dispatches an [input] event on the editor before it returns, as a
    command that changes the document does.  [focusCaret] is the caret
    the browser itself places in an editable element that takes the
    focus while the selection is not inside it (browsers put it at the
    start of the content), if it places one. *)
Class Host := {
  parseHTML : string -> list node;
  serializeHTML : list node -> string;
  nativeExecCommand :
    string -> string -> node -> option Range -> option (bool * node * option Range);
  firesInput : string -> string -> node -> option Range -> bool;
  focusCaret : node -> option point
}.

(** The element a literal ['<br>'] parses to. *)
Definition BR : node := createElement "BR".

Section Component.
Context {host : Host}.

(** Reading [el.innerHTML]. *)
Definition innerHTML (el : node) : string := serializeHTML (children el).

(** [editorRef.current.innerHTML = s]: all children are replaced, and a
    live range of the selection collapses to the start of the editor. *)
Definition set_innerHTML (s : string) (st : State) : State :=
  match editorRef st with
  | None => st
  | Some root =>
      set_selection
        (match selection st with
         | Some _ => Some (caret (Point [] 0))
         | None => None
         end)
        (set_editor (set_children (parseHTML s) root) st)
  end.

(** [handleFocus], the editor's [onFocus] handler. *)
Definition handleFocus (st : State) : State :=
  match editorRef st with
  | None => st
  | Some root =>
      let root' :=
        set_style "text-align" "left"
          (set_style "direction" "ltr" (setAttribute "dir" "ltr" root)) in
      let st1 := set_editor root' st in
      if negb (truthy (textContent root')) || String.eqb (trim (textContent root')) ""
      then set_selection (Some (caret (Point [] 0))) st1
      else st1
  end.

(** [editorRef.current.focus()]: when the editor is not the active
    element it becomes so and its focus event runs [handleFocus]; when
    the selection is then still not inside the editor, the browser
    places its own caret there. *)
Definition focus (st : State) : State :=
  if hasFocus st then st
  else
    let st1 := handleFocus (set_hasFocus true st) in
    match editorRef st1, selection st1 with
    | Some root, None =>
        match focusCaret root with
        | Some pt => set_selection (Some (caret pt)) st1
        | None => st1
        end
    | _, _ => st1
    end.

(** What [handleInput] does to the editor element before it calls [onChange]. *)
Definition bookkeeping (root : node) : node :=
  let root1 := set_style "direction" "ltr" (setAttribute "dir" "ltr" root) in
  let hasAlignedChildren := some_descendant has_text_align_style root1 in
  if negb hasAlignedChildren then set_style "text-align" "left" root1 else root1.

(** [handleInput]: the emission; also the [onInput] and [onBlur] handler. *)
Definition handleInput (st : State) : State :=
  match editorRef st with
  | None => st
  | Some root =>
      let root' := bookkeeping root in
      emit (OnChange (innerHTML root')) (set_editor root' st)
  end.

(** The [while ((node = walker.nextNode()))] loop of the value effect. *)
Fixpoint restore_walk (leaves : list (path * string)) (cursorPosition charCount : nat)
  : option point :=
  match leaves with
  | [] => None
  | (p, d) :: rest =>
      let nodeLength := String.length d in
      if Nat.leb cursorPosition (charCount + nodeLength)
      then Some (Point p (cursorPosition - charCount))
      else restore_walk rest cursorPosition (charCount + nodeLength)
  end.

(** The saved [cursorPosition] of the value effect. *)
Definition saved_cursorPosition (st : State) : nat :=
  match editorRef st, selection st with
  | Some root, Some range =>
      if hasFocus st
      then String.length
             (text_before (container (endPoint range)) (offset (endPoint range)) root)
      else 0
  | _, _ => 0
  end.

(** [useEffect(() => {...}, [value])]: the reconciliation with the
    external value. *)
Definition reconcile (value : string) (st : State) : State :=
  match editorRef st with
  | None => st
  | Some root =>
      if String.eqb value (innerHTML root) then st
      else
        let wasFocused := hasFocus st in
        let cursorPosition := saved_cursorPosition st in
        let st1 := set_innerHTML (str_or value "") st in
        if wasFocused && Nat.ltb 0 cursorPosition then
          match editorRef st1 with
          | None => st1
          | Some root1 =>
              match restore_walk (text_leaves root1) cursorPosition 0 with
              | Some pt => focus (set_selection (Some (caret pt)) st1)
              | None => st1
              end
          end
        else st1
  end.

(** The [a] element both copies of [insertLink] build. *)
Definition make_link (st : State) : node :=
  set_textContent (str_or (trim (linkText st)) (linkUrl st))
    (Elem "A"
       [("href", linkUrl st); ("target", "_blank"); ("rel", "noopener noreferrer")]
       [("color", "#92400e"); ("text-decoration", "underline")] []).

(** [range.surroundContents(newParent)]: [None] when it throws.
    The contents of the range are moved into [newParent], whose own
    children are dropped, and [newParent] is inserted where the range
    started.  Returns the tree and the place of [newParent]. *)
Definition surroundContents (r : Range) (newParent : node) (root : node)
  : option (node * (path * nat)) :=
  if partially_contains_element (container (startPoint r)) (container (endPoint r)) root
  then None
  else
    let '(root1, fragment, pt) := extractContents r root in
    let '(root2, (par, idx)) := insertNode pt [set_children [] newParent] root1 in
    Some (update_at (par ++ [idx]) (set_children fragment) root2, (par, idx)).

(** [insertLink]; the two copies agree on a mounted editor. *)
Definition insertLink (st : State) : State :=
  match editorRef st with
  | None => st
  | Some root =>
      if negb (truthy (trim (linkUrl st))) then st
      else
        let link := make_link st in
        let st1 :=
          match selection st with
          | Some range =>
              if negb (collapsed range) then
                let '(root', (par, idx)) :=
                  match surroundContents range link root with
                  | Some res => res
                  | None =>
                      let '(root1, pt) := deleteContents range root in
                      insertNode pt [link] root1
                  end in
                set_selection (Some (caret (Point par (S idx)))) (set_editor root' st)
              else
                let '(root1, pt) := deleteContents range root in
                let '(root', (par, idx)) := insertNode pt [link] root1 in
                set_selection (Some (caret (Point par (S idx)))) (set_editor root' st)
          | None =>
              let pt := Point [] (List.length (children root)) in
              let '(root', (par, idx)) := insertNode pt [link] root in
              set_selection (Some (caret (Point par (S idx)))) (set_editor root' st)
          end in
        setShowLinkDialog false (setLinkText "" (setLinkUrl "" (handleInput st1)))
  end.

(** [10 * 1024 * 1024], the size limit of [handleImageFileSelect]. *)
Definition MAX_IMAGE_SIZE : nat := 10 * 1024 * 1024.

(** [handleImageFileSelect], the [onChange] handler of the file input of
    the image dialog (the same in both copies); [files] is
    [e.target.files].  An accepted file is also handed to a
    [FileReader], which reports later through [reader_onloadend]. *)
Definition handleImageFileSelect (files : list File) (st : State) : State :=
  match files with
  | [] => st
  | file :: _ =>
      if negb (starts_with "image/" (file_type file)) then
        emit (Alert "Please select an image file") st
      else if Nat.ltb MAX_IMAGE_SIZE (file_size file) then
        emit (Alert "Image size must be less than 10MB") st
      else setImageFile (Some file) st
  end.

(** [reader.onloadend]: the preview is the data URL the reader produced. *)
Definition reader_onloadend (result : string) (st : State) : State :=
  setImagePreview result st.

End Component.

(* ------------------------------------------------------------------ *)
(** ** Clipboard and upload inputs *)
(* ------------------------------------------------------------------ *)

(** [e.clipboardData]: [getData] gives the empty string for a missing flavour. *)
Record Clipboard := MkClipboard { text_html : string; text_plain : string }.

(** The JSON body of the upload response: an object whose [url] and
    [error] members, when present, are strings. *)
Record Body := MkBody { body_url : option string; body_error : option string }.

Definition member (m : option string) : string :=
  match m with Some s => s | None => EmptyString end.

Inductive JsonResult :=
| JsonRejects (t : thrown)       (* response.json() rejects *)
| JsonResolves (b : Body).

Inductive FetchResult :=
| FetchRejects (t : thrown)                                 (* the request rejects *)
| FetchResolves (ok : bool) (status : nat) (json : JsonResult).

(** [error instanceof Error ? error.message : 'Failed to upload image. Please try again.'] *)
Definition alert_text (t : thrown) : string :=
  match t with
  | ErrorObject m => m
  | NonError => "Failed to upload image. Please try again."
  end.

Definition status_text (n : nat) : string := NilZero.string_of_uint (Nat.to_uint n).

(** The [catch] block of [uploadAndInsertImage], the same in both copies. *)
Definition caught (t : thrown) (st : State) : State :=
  emit (Alert (alert_text t)) (emit (ConsoleError "Image upload error:") st).

(* ------------------------------------------------------------------ *)
(** ** src/unnamed/part_000 *)
(* ------------------------------------------------------------------ *)

Module Part0.
Section Part0.
Context {host : Host}.

(** A new [p] with [style.textAlign = alignment] and the given children. *)
Definition aligned_paragraph (alignment : alignment) (cs : list node) : node :=
  Elem "P" [] [("text-align", align_str alignment)] cs.

Definition setAlignment (alignment : alignment) (st0 : State) : State :=
  match editorRef st0 with
  | None => st0
  | Some _ =>
      let st := focus st0 in
      match editorRef st with
      | None => st
      | Some root =>
          match selection st with
          | None =>
              if some_descendant is_block root then
                handleInput
                  (set_editor
                     (map_matching is_block (set_style "text-align" (align_str alignment)) root)
                     st)
              else
                let p := aligned_paragraph alignment [BR] in
                handleInput
                  (set_selection
                     (Some (caret (Point [List.length (children root)] 0)))
                     (set_editor (set_children (children root ++ [p]) root) st))
          | Some range =>
              match find_block root (commonAncestorContainer range) with
              | Some blockElement =>
                  handleInput
                    (set_editor
                       (update_at blockElement
                          (set_style "text-align" (align_str alignment)) root)
                       st)
              | None =>
                  let selectedText := Range_toString range root in
                  if truthy (trim selectedText) then
                    let '(root1, contents, pt) := extractContents range root in
                    let p := aligned_paragraph alignment contents in
                    let '(root2, (par, idx)) := insertNode pt [p] root1 in
                    handleInput
                      (set_selection (Some (caret (Point par (S idx))))
                         (set_editor root2 st))
                  else
                    let p := aligned_paragraph alignment [BR] in
                    let '(root2, (par, idx)) := insertNode (startPoint range) [p] root in
                    handleInput
                      (set_selection (Some (caret (Point (par ++ [idx]) 0)))
                         (set_editor root2 st))
              end
          end
      end
  end.

(** [tempDiv.innerHTML = html], the unsafe elements removed, the rest
    moved into a fragment. *)
Definition sanitized_fragment (html : string) : list node :=
  children (remove_matching is_unsafe (Elem "DIV" [] [] (parseHTML html))).

(** [handlePaste].  In the markup branch [range.insertNode(fragment)]
    empties the fragment, so [fragment.lastChild || fragment] is the
    parentless fragment and [range.setStartAfter] throws
    InvalidNodeTypeError: the handler ends there. *)
Definition handlePaste (e : Clipboard) (st : State) : State :=
  match editorRef st, selection st with
  | Some root, Some range =>
      let '(root1, pt) := deleteContents range root in
      let html := text_html e in
      let text := text_plain e in
      if truthy html && truthy (trim html) then
        let fragment := sanitized_fragment html in
        let '(root2, (par, idx)) := insertNode pt fragment root1 in
        emit (Uncaught "InvalidNodeTypeError")
          (set_selection
             (Some (MkRange pt (Point par (idx + List.length fragment))))
             (set_editor root2 st))
      else if truthy text then
        let '(root2, (par, idx)) := insertNode pt [Text text] root1 in
        handleInput
          (set_selection (Some (caret (Point par (S idx)))) (set_editor root2 st))
      else
        handleInput (set_selection (Some (caret pt)) (set_editor root1 st))
  | _, _ => st
  end.

Definition make_img (url : string) : node :=
  Elem "IMG" [("src", url); ("alt", "Uploaded image")]
    [("max-width", "100%"); ("height", "auto"); ("display", "block");
     ("margin", "10px auto"); ("border-radius", "4px")] [].

Definition appendChild (c : node) (n : node) : node :=
  set_children (children n ++ [c]) n.

Definition insertImageFromUrl (url : string) (st : State) : State :=
  match editorRef st with
  | None => st
  | Some root =>
      if negb (truthy (trim url)) then st
      else
        let img := make_img url in
        let p := appendChild img (Elem "P" [] [("text-align", "center")] []) in
        let st1 :=
          match selection st with
          | Some range =>
              let '(root1, pt) := deleteContents range root in
              let '(root2, (par, idx)) := insertNode pt [p] root1 in
              let root3 := update_at (par ++ [idx]) (appendChild BR) root2 in
              set_selection (Some (caret (Point par (S idx)))) (set_editor root3 st)
          | None =>
              let p' := appendChild BR p in
              set_selection
                (Some (caret (Point [] (S (List.length (children root))))))
                (set_editor (appendChild p' root) st)
          end in
        handleInput (focus st1)
  end.

(** [uploadAndInsertImage] up to its first [await]. *)
Definition uploadAndInsertImage_start (st : State) : State :=
  match imageFile st with
  | None => st
  | Some file => emit (FetchUpload file) (setUploadingImage true st)
  end.

(** The [try] block after the request has settled: the state it leaves,
    or the value it throws. *)
Definition upload_try (res : FetchResult) (st : State) : State + thrown :=
  match res with
  | FetchRejects t => inr t
  | FetchResolves ok status json =>
      if negb ok then
        let errorData :=
          match json with
          | JsonResolves b => b
          | JsonRejects _ => MkBody None None
          end in
        inr (ErrorObject
               (str_or (member (body_error errorData))
                  (String.append "Failed to upload image: " (status_text status))))
      else
        match json with
        | JsonRejects t => inr t
        | JsonResolves uploadData =>
            match editorRef st with
            | Some _ =>
                if truthy (member (body_url uploadData))
                then inl (insertImageFromUrl (member (body_url uploadData)) st)
                else inr (ErrorObject "No image URL returned from server")
            | None => inr (ErrorObject "No image URL returned from server")
            end
        end
  end.

(** [uploadAndInsertImage] from the settled request on: [try], [catch], [finally]. *)
Definition uploadAndInsertImage_settled (res : FetchResult) (st : State) : State :=
  let st1 :=
    match upload_try res st with
    | inl st' => st'
    | inr t => caught t st
    end in
  setShowImageDialog false
    (setImagePreview "" (setImageFile None (setUploadingImage false st1))).

Definition insertImage (st : State) : State :=
  match imageFile st with
  | Some _ => uploadAndInsertImage_start st
  | None => st
  end.

(** [useEffect(() => {...}, [])], run once on mount with the [value] prop. *)
Definition mount (value : string) (st : State) : State :=
  match editorRef st with
  | None => st
  | Some root =>
      let root1 :=
        set_style "text-align" "left"
          (set_style "direction" "ltr" (setAttribute "dir" "ltr" root)) in
      if truthy value then set_innerHTML value (set_editor root1 st)
      else set_innerHTML "" (set_editor root1 st)
  end.

(** An argument of a JS call: the callers of [execCommand] pass strings
    and, for the heading buttons, the boolean [false]. *)
Inductive JsArg :=
| ArgString (s : string)
| ArgBool (b : bool).

(** The [value] parameter as [document.execCommand(command, false, value)]
    receives it: converted to a string, the empty string when missing. *)
Definition value_string (value : option JsArg) : string :=
  match value with
  | Some (ArgString s) => s
  | Some (ArgBool true) => "true"
  | Some (ArgBool false) => "false"
  | None => EmptyString
  end.

(** [execCommand(command, value?)]: [rest] holds the arguments of the
    call after [command]; the function binds the first of them to
    [value] and ignores the others.  When the native command dispatches
    an [input] event, the editor's [onInput] handler, [handleInput],
    runs inside [document.execCommand], before the function's own call
    of [handleInput]. *)
Definition execCommand (command : string) (rest : list JsArg) (st0 : State) : State :=
  match editorRef st0 with
  | None => st0
  | Some _ =>
      let st := focus st0 in
      match editorRef st with
      | None => st
      | Some root =>
          let st1 :=
            match selection st with
            | Some _ => st
            | None =>
                if Nat.ltb 0 (List.length (children root))
                then set_selection
                       (Some (caret (Point [] (List.length (children root))))) st
                else set_selection (Some (caret (Point [] 0))) st
            end in
          match nativeExecCommand command (value_string (hd_error rest)) root
                  (selection st1) with
          | Some (_, root', sel') =>
              let st2 := set_selection sel' (set_editor root' st1) in
              handleInput
                (if firesInput command (value_string (hd_error rest)) root
                      (selection st1)
                 then handleInput st2 else st2)
          | None =>
              emit (ConsoleError
                      (String.append "Error executing command "
                         (String.append command ":"))) st1
          end
      end
  end.

(** The toolbar buttons that go through [execCommand], as their
    [onClick] handlers call it. *)
Definition bold_button : State -> State := execCommand "bold" [].
Definition italic_button : State -> State := execCommand "italic" [].
Definition underline_button : State -> State := execCommand "underline" [].
Definition bullet_list_button : State -> State := execCommand "insertUnorderedList" [].
Definition numbered_list_button : State -> State := execCommand "insertOrderedList" [].

(** [execCommand('formatBlock', false, '<h1>')] and its siblings for
    ['<h2>'], ['<h3>'] and ['<p>']. *)
Definition format_button (tag : string) : State -> State :=
  execCommand "formatBlock" [ArgBool false; ArgString tag].

(** The insert button of the image dialog, with its [disabled] attribute
    [uploadingImage || !imageFile]. *)
Definition insert_button_disabled (st : State) : bool :=
  uploadingImage st || match imageFile st with Some _ => false | None => true end.

Definition click_insert_button (st : State) : State :=
  if insert_button_disabled st then st else insertImage st.

End Part0.
End Part0.

(* ------------------------------------------------------------------ *)
(** ** src/client/components/CKEditor.tsx *)
(* ------------------------------------------------------------------ *)

Module Client.
Section Client.
Context {host : Host}.

Definition aligned_paragraph (alignment : alignment) (cs : list node) : node :=
  Elem "P" [] [("text-align", align_str alignment)] cs.

(** The [try] block of [setAlignment] for a selection outside every
    block: the state it leaves ([inl]) or the state at the point where
    it throws ([inr]).  After [execCommand] the range object is taken to
    be the selection's range when there is one.  When the native
    command dispatches an [input] event, the editor's [onInput] handler,
    [handleInput], runs inside [document.execCommand]. *)
Definition align_try (alignment : alignment) (range : Range) (root : node) (st : State)
  : State + State :=
  let selectedText := Range_toString range root in
  if truthy (trim selectedText) then
    let '(root1, contents, pt) := extractContents range root in
    let p := aligned_paragraph alignment contents in
    let '(root2, (par, idx)) := insertNode pt [p] root1 in
    inl (handleInput
           (set_selection (Some (caret (Point par (S idx)))) (set_editor root2 st)))
  else
    match nativeExecCommand "formatBlock" "<p>" root (Some range) with
    | None => inr st
    | Some (success, rootN, selE) =>
        let fired := firesInput "formatBlock" "<p>" root (Some range) in
        let rootE := if fired then bookkeeping rootN else rootN in
        let stE :=
          if fired then handleInput (set_selection selE (set_editor rootN st))
          else set_selection selE (set_editor rootN st) in
        let manual :=
          let range' := match selE with Some r => r | None => range end in
          let p := aligned_paragraph alignment [BR] in
          let '(root2, (par, idx)) := insertNode (startPoint range') [p] rootE in
          inl (handleInput
                 (set_selection (Some (caret (Point (par ++ [idx]) 0)))
                    (set_editor root2 stE))) in
        if success then
          match selE with
          | None => inr stE       (* getRangeAt(0) throws IndexSizeError *)
          | Some newRange =>
              match find_ancestor (tag_in ["P"]) rootE (commonAncestorContainer newRange) with
              | Some el =>
                  inl (handleInput
                         (set_editor
                            (update_at el (set_style "text-align" (align_str alignment)) rootE)
                            stE))
              | None => manual
              end
          end
        else manual
    end.

Definition setAlignment (alignment : alignment) (st0 : State) : State :=
  match editorRef st0 with
  | None => st0
  | Some _ =>
      let st := focus st0 in
      match editorRef st with
      | None => st
      | Some root =>
          match selection st with
          | None =>
              if some_descendant is_block root then
                handleInput
                  (set_editor
                     (map_matching is_block (set_style "text-align" (align_str alignment)) root)
                     st)
              else
                let content := innerHTML root in
                if truthy (trim content) then
                  let p := aligned_paragraph alignment (parseHTML content) in
                  handleInput (set_editor (set_children [p] root) st)
                else
                  let p := aligned_paragraph alignment [BR] in
                  handleInput
                    (set_selection
                       (Some (caret (Point [List.length (children root)] 0)))
                       (set_editor (set_children (children root ++ [p]) root) st))
          | Some range =>
              match find_block root (commonAncestorContainer range) with
              | Some blockElement =>
                  handleInput
                    (set_editor
                       (update_at blockElement
                          (set_style "text-align" (align_str alignment)) root)
                       st)
              | None =>
                  match align_try alignment range root st with
                  | inl st' => st'
                  | inr st' =>
                      match editorRef st' with
                      | None => st'
                      | Some root' =>
                          handleInput
                            (set_editor
                               (set_style "text-align" (align_str alignment) root')
                               (emit (ConsoleError "Error setting alignment:") st'))
                      end
                  end
              end
          end
      end
  end.

(** [handlePaste]: only the plain-text flavour of the clipboard is read. *)
Definition handlePaste (e : Clipboard) (st : State) : State :=
  let text := text_plain e in
  match selection st with
  | Some range =>
      match editorRef st with
      | None => st
      | Some root =>
          let '(root1, pt) := deleteContents range root in
          let '(root2, (par, idx)) := insertNode pt [Text text] root1 in
          handleInput
            (set_selection (Some (caret (Point par (S idx)))) (set_editor root2 st))
      end
  | None =>
      match editorRef st with
      | None => st
      | Some root =>
          let root1 := set_children (children root ++ [Text text]) root in
          handleInput
            (set_selection (Some (caret (Point [] (List.length (children root1)))))
               (set_editor root1 st))
      end
  end.

Definition make_img (url : string) : node :=
  Elem "IMG" [("src", url)]
    [("max-width", "100%"); ("height", "auto"); ("display", "block");
     ("margin", "10px 0")] [].

Definition insertImageFromUrl (url : string) (st : State) : State :=
  match editorRef st with
  | None => st
  | Some root =>
      if negb (truthy (trim url)) then st
      else
        let img := make_img url in
        let st1 :=
          match selection st with
          | Some range =>
              let '(root1, pt) := deleteContents range root in
              let '(root2, (par, idx)) := insertNode pt [img] root1 in
              set_selection (Some (caret (Point par (S idx)))) (set_editor root2 st)
          | None =>
              set_editor (set_children (children root ++ [img]) root) st
          end in
        handleInput (focus st1)
  end.

(** [uploadAndInsertImage] up to its first [await]. *)
Definition uploadAndInsertImage_start (st : State) : State :=
  match imageFile st with
  | None =>
      match editorRef st with
      | Some _ => if truthy (trim (imageUrl st)) then insertImageFromUrl (imageUrl st) st else st
      | None => st
      end
  | Some file => emit (FetchUpload file) (setUploadingImage true st)
  end.

(** The [try] block after the request has settled. *)
Definition upload_try (res : FetchResult) (st : State) : State + thrown :=
  match res with
  | FetchRejects t => inr t
  | FetchResolves ok status json =>
      match json with
      | JsonRejects t => inr t
      | JsonResolves data =>
          if negb ok then
            inr (ErrorObject (str_or (member (body_error data)) "Failed to upload image"))
          else
            match editorRef st with
            | Some _ =>
                if truthy (member (body_url data))
                then inl (insertImageFromUrl (member (body_url data)) st)
                else inl st
            | None => inl st
            end
      end
  end.

(** [uploadAndInsertImage] from the settled request on: [try], [catch], [finally]. *)
Definition uploadAndInsertImage_settled (res : FetchResult) (st : State) : State :=
  let st1 :=
    match upload_try res st with
    | inl st' => st'
    | inr t => caught t st
    end in
  setShowImageDialog false
    (setImageUrl "" (setImagePreview "" (setImageFile None (setUploadingImage false st1)))).

Definition insertImage (st : State) : State :=
  match imageFile st with
  | Some _ => uploadAndInsertImage_start st
  | None =>
      if truthy (trim (imageUrl st))
      then setShowImageDialog false (setImageUrl "" (insertImageFromUrl (imageUrl st) st))
      else st
  end.

(** [useEffect(() => {...}, [])], run once on mount with the [value]
    prop: as in part_000, and the caret is put at the start of the first
    child, or of the editor when it has none. *)
Definition mount (value : string) (st : State) : State :=
  match editorRef st with
  | None => st
  | Some root =>
      let root1 :=
        set_style "text-align" "left"
          (set_style "direction" "ltr" (setAttribute "dir" "ltr" root)) in
      let st1 :=
        if truthy value then set_innerHTML value (set_editor root1 st)
        else set_innerHTML "" (set_editor root1 st) in
      match editorRef st1 with
      | None => st1
      | Some root2 =>
          match children root2 with
          | _ :: _ => set_selection (Some (caret (Point [0] 0))) st1
          | [] => set_selection (Some (caret (Point [] 0))) st1
          end
      end
  end.

(** The insert button of the image dialog, with its [disabled] attribute
    [uploadingImage || (!imageFile && !imageUrl.trim())]. *)
Definition insert_button_disabled (st : State) : bool :=
  uploadingImage st
  || (match imageFile st with Some _ => false | None => true end
      && negb (truthy (trim (imageUrl st)))).

Definition click_insert_button (st : State) : State :=
  if insert_button_disabled st then st else insertImage st.

End Client.
End Client.

(* ------------------------------------------------------------------ *)
(** ** src/unnamed/part_001: the API configuration helpers *)
(* ------------------------------------------------------------------ *)

Module ApiConfig.

(** A headers object: its own properties in insertion order. *)
Definition Headers := list (string * string).

Definition getBaseHeaders : Headers :=
  [("Accept", "application/json"); ("ngrok-skip-browser-warning", "true")].

(** [`Bearer ${token}`] for what [localStorage.getItem("token")] gave:
    a string, or [null], which the template prints as ["null"]. *)
Definition bearer (token : option string) : string :=
  String.append "Bearer "
    (match token with Some t => t | None => "null" end).

(** [getAuthHeaders(includeContentType = false)]; [token] is the stored
    token, if any. *)
Definition getAuthHeaders (token : option string) (includeContentType : bool) : Headers :=
  let headers := assoc_set "Authorization" (bearer token) getBaseHeaders in
  if includeContentType
  then assoc_set "Content-Type" "application/json" headers
  else headers.

(** [getAuthHeadersWithNgrok], the alias kept for old callers. *)
Definition getAuthHeadersWithNgrok := getAuthHeaders.

End ApiConfig.

(* ------------------------------------------------------------------ *)
(** ** src/unnamed/part_003: MongoDB error handling for the routes *)
(* ------------------------------------------------------------------ *)

Module MongoErrors.

(** The members of an error that the handler reads; a status code of 0
    stands for every falsy value. *)
Record Err := MkErr {
  err_name : option string;
  err_message : option string;
  err_statusCode : option nat
}.

Definition name_is (s : string) (e : Err) : bool :=
  match err_name e with Some n => String.eqb n s | None => false end.

(** [err.message?.includes(s)] *)
Definition message_includes (s : string) (e : Err) : bool :=
  match err_message e with Some m => includes s m | None => false end.

Definition isConnectionError (e : Err) : bool :=
  name_is "MongoNetworkError" e
  || name_is "MongoServerSelectionError" e
  || name_is "MongoTimeoutError" e
  || message_includes "ETIMEDOUT" e
  || message_includes "ECONNREFUSED" e
  || message_includes "connection" e
  || message_includes "timed out" e
  || message_includes "timeout" e.

(** [err.message || err.name], as the log lines print it; [None] is
    [undefined]. *)
Definition message_or_name (e : Err) : option string :=
  match err_message e with
  | Some m => if truthy m then Some m else err_name e
  | None => err_name e
  end.

(** A line written to the console: the context and what is printed
    after the fixed text. *)
Inductive LogLine :=
| WarnConnectionIssue (context : string) (detail : option string)
| ErrorWithObject (context : string) (e : Err)
| ErrorWithText (context : string) (detail : option string).

Record ErrorInfo := MkInfo {
  info_isConnectionError : bool;
  info_message : string;
  info_statusCode : nat
}.

Definition truthy_nat (n : option nat) : bool :=
  match n with Some (S _) => true | _ => false end.

(** [handleMongoError(err, context)]; [isDevelopment] is
    [process.env.NODE_ENV === 'development'].  Returns the lines logged
    and the result object. *)
Definition handleMongoError (isDevelopment : bool) (e : Err) (context : string)
  : list LogLine * ErrorInfo :=
  if isConnectionError e then
    ([WarnConnectionIssue context (message_or_name e)],
     MkInfo true "Database connection temporarily unavailable. Please try again." 503)
  else
    ([if isDevelopment then ErrorWithObject context e
      else ErrorWithText context (message_or_name e)],
     MkInfo false
       (str_or (member (err_message e)) "An error occurred")
       (if truthy_nat (err_statusCode e)
        then match err_statusCode e with Some n => n | None => 500 end
        else 500)).

(** What calling the wrapped route handler [fn(req, res, next)] does:
    it returns (a value or a promise that fulfils), returns a promise
    that rejects, or throws before returning. *)
Inductive FnOutcome :=
| Fulfils
| RejectsWith (e : Err)
| ThrowsSync (e : Err).

(** What the wrapper does on top of the handler. *)
Inductive WrapperEffect :=
| Log (l : LogLine)
| Respond (status : nat) (success : bool) (error : string)
                                   (* res.status(status).json({success, error}) *)
| Escapes (e : Err).               (* the exception leaves the wrapper *)

(** [asyncHandler(fn)(req, res, next)]: [fn(req, res, next)] is
    evaluated before [Promise.resolve], so only a rejection reaches
    [catch]. *)
Definition asyncHandler (isDevelopment : bool) (method path : string) (fn : FnOutcome)
  : list WrapperEffect :=
  match fn with
  | Fulfils => []
  | RejectsWith e =>
      let '(logs, errorInfo) :=
        handleMongoError isDevelopment e
          (String.append method (String.append " " path)) in
      map Log logs
        ++ [Respond (info_statusCode errorInfo) false (info_message errorInfo)]
  | ThrowsSync e => [Escapes e]
  end.

End MongoErrors.

(* ------------------------------------------------------------------ *)
(** ** src/unnamed/part_002: the database connection *)
(* ------------------------------------------------------------------ *)

Module Database.

Inductive Hint :=
| AuthenticationError
| IPWhitelistError
| ConnectionRefused
| ReplicaSetError
| ConnectionTimeout.

(** The [if / else if] chain over [error.message.includes(...)]. *)
Definition hint_for (message : string) : option Hint :=
  if includes "authentication failed" message || includes "bad auth" message
  then Some AuthenticationError
  else if includes "IP" message || includes "whitelist" message
  then Some IPWhitelistError
  else if includes "ECONNREFUSED" message then Some ConnectionRefused
  else if includes "ReplicaSetNoPrimary" message then Some ReplicaSetError
  else if includes "timed out" message || includes "timeout" message
  then Some ConnectionTimeout
  else None.





End Database.

(* ------------------------------------------------------------------ *)
(** ** An in-memory browser for concrete runs *)
(* ------------------------------------------------------------------ *)

Module TestHost.

Definition quote : string := String (ascii_of_nat 34) EmptyString.

Definition lower (c : ascii) : ascii :=
  let n := nat_of_ascii c in
  if Nat.leb 65 n && Nat.leb n 90 then ascii_of_nat (n + 32) else c.

Fixpoint to_lower (s : string) : string :=
  match s with
  | EmptyString => EmptyString
  | String c s' => String (lower c) (to_lower s')
  end.

Definition void_tags : list string := ["BR"; "IMG"; "HR"; "INPUT"].

Definition attr_text (kv : string * string) : string :=
  String.append " "
    (String.append (fst kv) (String.append "=" (String.append quote (String.append (snd kv) quote)))).

(** HTML fragment serialization for text without markup characters. *)
Fixpoint serialize_node (n : node) : string :=
  match n with
  | Text d => d
  | Elem t a s cs =>
      let open :=
        String.append "<"
          (String.append (to_lower t)
             (String.append
                (fold_right (fun kv acc => String.append (attr_text kv) acc) EmptyString
                   (a ++ match s with [] => [] | _ => [("style", style_text s)] end))
                ">")) in
      if existsb (String.eqb t) void_tags then open
      else
        String.append open
          (String.append
             (fold_right (fun c acc => String.append (serialize_node c) acc) EmptyString cs)
             (String.append "</" (String.append (to_lower t) ">")))
  end.

Definition serialize (l : list node) : string :=
  fold_right (fun c acc => String.append (serialize_node c) acc) EmptyString l.

(** A parser by table: the fragments used in the concrete runs below;
    any other string without markup is a single text node. *)
Definition parse_table : list (string * list node) :=
  [ ("", []);
    ("<b>x</b>", [Elem "B" [] [] [Text "x"]]);
    ("<script>1</script><i>y</i>",
       [Elem "SCRIPT" [] [] [Text "1"]; Elem "I" [] [] [Text "y"]]);
    ("<p>ab</p><p>cd</p>", [Elem "P" [] [] [Text "ab"]; Elem "P" [] [] [Text "cd"]]) ].

Fixpoint lookup (s : string) (t : list (string * list node)) : option (list node) :=
  match t with
  | [] => None
  | (k, v) :: t' => if String.eqb s k then Some v else lookup s t'
  end.

Definition parse (s : string) : list node :=
  match lookup s parse_table with
  | Some l => l
  | None => [Text s]
  end.

(** [document.execCommand] is not supported by this browser: it
    returns [false], changes nothing and dispatches no event. *)
Definition execCommand (cmd arg : string) (root : node) (sel : option Range)
  : option (bool * node * option Range) := Some (false, root, sel).

Definition noInput (cmd arg : string) (root : node) (sel : option Range) : bool := false.

(** The caret this browser places in an editor that takes the focus: at
    the start of the first text node, or of the editor when it holds no
    text node. *)
Definition firstPosition (root : node) : option point :=
  match text_leaves root with
  | (p, _) :: _ => Some (Point p 0)
  | [] => Some (Point [] 0)
  end.

Definition browser : Host :=
  {| parseHTML := parse; serializeHTML := serialize; nativeExecCommand := execCommand;
     firesInput := noInput; focusCaret := firstPosition |}.

(** The mounted editor element around the given children. *)
Definition editor (cs : list node) : node :=
  Elem "DIV" [("dir", "ltr")] [("direction", "ltr"); ("text-align", "left")] cs.

Definition mounted (cs : list node) (focused : bool) (sel : option Range) : State :=
  MkState (Some (editor cs)) focused sel false false "" None "" false "" "" [].

(** A browser in which every [document.execCommand] throws. *)
Definition throwingCommand (cmd arg : string) (root : node) (sel : option Range)
  : option (bool * node * option Range) := None.

Definition throwing_browser : Host :=
  {| parseHTML := parse; serializeHTML := serialize; nativeExecCommand := throwingCommand;
     firesInput := noInput; focusCaret := firstPosition |}.

(** A browser in which every command succeeds, wraps the whole content
    of the editor in a [b] element, and dispatches an [input] event. *)
Definition wrappingCommand (cmd arg : string) (root : node) (sel : option Range)
  : option (bool * node * option Range) :=
  Some (true, set_children [Elem "B" [] [] (children root)] root, sel).

Definition withInput (cmd arg : string) (root : node) (sel : option Range) : bool := true.

Definition wrapping_browser : Host :=
  {| parseHTML := parse; serializeHTML := serialize; nativeExecCommand := wrappingCommand;
     firesInput := withInput; focusCaret := firstPosition |}.

(** Concrete documents and states of the runs. *)
Definition two_paragraphs : list node :=
  [Elem "P" [] [] [Text "ab"]; Elem "P" [] [] [Text "cd"]].

Definition hello_world : list node :=
  [Elem "P" [] [] [Text "hello world"];
   Elem "P" [] [] [Elem "B" [] [] [Text "bold"]; Text "tail"]].

Definition with_link (url text : string) (st : State) : State :=
  setLinkText text (setLinkUrl url st).

Definition a_file : File := MkFile "cat.png" "image/png" 2048.

End TestHost.

(* ------------------------------------------------------------------ *)
(** ** Predicates used by the statements *)
(* ------------------------------------------------------------------ *)

(** An upload attempt that fails: the request rejects, the status is not
    2xx, the body cannot be read, or the body has no [url] member. *)
Definition upload_failed (res : FetchResult) : bool :=
  match res with
  | FetchRejects _ => true
  | FetchResolves ok _ json =>
      negb ok ||
      match json with
      | JsonRejects _ => true
      | JsonResolves b => match body_url b with None => true | Some _ => false end
      end
  end.

Definition is_alert (e : Effect) : bool :=
  match e with Alert _ => true | _ => false end.

(** The effect is a call of [onChange]: an emission. *)
Definition is_emission (e : Effect) : bool :=
  match e with OnChange _ => true | _ => false end.

(** The sum of the lengths of a list of text leaves. *)
Definition leaves_length (l : list (path * string)) : nat :=
  fold_right (fun pd acc => String.length (snd pd) + acc) 0 l.

(** No unsafe element among the descendants of [n]. *)
Fixpoint descendants_safe (n : node) : bool :=
  match n with
  | Text _ => true
  | Elem _ _ _ cs => forallb (fun c => negb (is_unsafe c) && descendants_safe c) cs
  end.

(** [q] is a prefix of [p]: the node at [q] is an inclusive ancestor of
    the node at [p]. *)
Definition is_prefix (q p : path) : Prop := exists r, p = q ++ r.

(** The text the user is asked for in the link dialog, as [insertLink]
    puts it on a link it inserts on its own. *)
Definition display_text (st : State) : string :=
  str_or (trim (linkText st)) (linkUrl st).


(** Every character of [s] is white space. *)
Fixpoint blank (s : string) : bool :=
  match s with
  | EmptyString => true
  | String c s' => is_space c && blank s'
  end.


(** The files of the upload requests among the effects, oldest first. *)
Definition requests (es : list Effect) : list File :=
  flat_map (fun e => match e with FetchUpload f => [f] | _ => [] end) es.

(** The two checks of [handleImageFileSelect] on a file. *)
Definition acceptable (f : File) : bool :=
  starts_with "image/" (file_type f) && Nat.leb (file_size f) MAX_IMAGE_SIZE.

(* ================================================================== *)
(** * Properties *)
(* ================================================================== *)

(** Reduce the projections of a state built by the setters, outermost
    first (unfolding all the setters at once squares the term at every
    level). *)
Ltac state_simpl :=
  cbn [editorRef hasFocus selection showImageDialog showLinkDialog imageUrl
       imageFile imagePreview uploadingImage linkUrl linkText effects
       emit set_editor set_selection set_hasFocus setShowImageDialog
       setShowLinkDialog setImageUrl setImageFile setImagePreview
       setUploadingImage setLinkUrl setLinkText].

Section AssocFacts.

Lemma assoc_get_set_same (k v : string) (l : list (string * string)) :
  assoc_get k (assoc_set k v l) = Some v.
Proof.
  induction l as [|[k' v'] l IH]; simpl.
  - now rewrite String.eqb_refl.
  - destruct (String.eqb k k') eqn:E; simpl.
    + now rewrite String.eqb_refl.
    + now rewrite E.
Qed.

Lemma assoc_get_set_other (k k' v : string) (l : list (string * string)) :
  k <> k' -> assoc_get k (assoc_set k' v l) = assoc_get k l.
Proof.
  intros Hne. induction l as [|[k0 v0] l IH]; simpl.
  - destruct (String.eqb k k') eqn:E; [apply String.eqb_eq in E; contradiction | reflexivity].
  - destruct (String.eqb k' k0) eqn:E; simpl.
    + apply String.eqb_eq in E; subst k0.
      destruct (String.eqb k k') eqn:E'; [apply String.eqb_eq in E'; contradiction | reflexivity].
    + now rewrite IH.
Qed.

End AssocFacts.

Section EmissionFacts.
Context {host : Host}.

Lemma children_set_style (p v : string) (n : node) :
  children (set_style p v n) = children n.
Proof. now destruct n. Qed.

Lemma children_setAttribute (k v : string) (n : node) :
  children (setAttribute k v n) = children n.
Proof. now destruct n. Qed.

Lemma some_descendant_children (f : node -> bool) (n m : node) :
  children n = children m -> some_descendant f n = some_descendant f m.
Proof.
  destruct n, m; simpl; intros H; subst; reflexivity.
Qed.

Lemma children_bookkeeping (root : node) :
  children (bookkeeping root) = children root.
Proof.
  unfold bookkeeping.
  destruct (negb _); now rewrite ?children_set_style, ?children_setAttribute.
Qed.

Lemma get_bookkeeping (root : node) (q : path) :
  q <> [] -> get (bookkeeping root) q = get root q.
Proof.
  destruct q as [|i q]; [congruence|]. intros _. simpl.
  now rewrite children_bookkeeping.
Qed.

Lemma handleInput_mounted (st : State) (root : node) :
  editorRef st = Some root ->
  handleInput st
  = emit (OnChange (innerHTML (bookkeeping root))) (set_editor (bookkeeping root) st).
Proof. intros H. unfold handleInput. now rewrite H. Qed.

(** C1: reconciling with the string the editor currently serializes to
    changes nothing: the tree, the selection, the focus and the effects
    (so no [onChange] call) are those of the state before. *)
Theorem C1_reconcile_current_serialization_is_noop (st : State) (root : node) :
  editorRef st = Some root ->
  reconcile (innerHTML root) st = st
  /\ editorRef (reconcile (innerHTML root) st) = Some root
  /\ selection (reconcile (innerHTML root) st) = selection st
  /\ effects (reconcile (innerHTML root) st) = effects st.
Proof.
  intros Hroot.
  assert (E : reconcile (innerHTML root) st = st).
  { unfold reconcile. rewrite Hroot. now rewrite String.eqb_refl. }
  rewrite E. auto.
Qed.

(** C9 (amended): an emission is a run of [handleInput], the handler of
    the [input] and [blur] events and the last step of the commands and
    of the paste handler on the paths that reach it (in part_000 a paste
    without a selection and a native command that throws do not).  It
    leaves the mounted editor element with [dir="ltr"] and
    [direction: ltr]; it assigns [text-align: left] to the editor element
    when no descendant matches [[style*="text-align"]] and leaves the
    editor element's alignment as it was when some descendant does; the
    children are untouched and their serialization is passed to
    [onChange] as the last effect. *)
Theorem C9_emission_bookkeeping (st : State) (root : node) :
  editorRef st = Some root ->
  is_text root = false ->
  exists root',
    editorRef (handleInput st) = Some root'
    /\ assoc_get "dir" (attrs_of root') = Some "ltr"
    /\ get_style "direction" root' = Some "ltr"
    /\ (some_descendant has_text_align_style root = false ->
        get_style "text-align" root' = Some "left")
    /\ (some_descendant has_text_align_style root = true ->
        get_style "text-align" root' = get_style "text-align" root)
    /\ children root' = children root
    /\ effects (handleInput st) = effects st ++ [OnChange (serializeHTML (children root))].
Proof.
  intros Hroot Hel.
  exists (bookkeeping root).
  rewrite (handleInput_mounted st root Hroot).
  destruct root as [d|t a s cs]; [discriminate|].
  unfold bookkeeping, innerHTML, get_style. simpl.
  destruct (existsb _ cs) eqn:E; simpl.
  - repeat split; try reflexivity.
    + apply assoc_get_set_same.
    + apply assoc_get_set_same.
    + discriminate.
    + intros _. apply assoc_get_set_other. discriminate.
  - repeat split; try reflexivity.
    + apply assoc_get_set_same.
    + rewrite assoc_get_set_other by discriminate. apply assoc_get_set_same.
    + intros _. apply assoc_get_set_same.
    + discriminate.
Qed.

End EmissionFacts.

Section UploadFacts.
Context {host : Host}.

Lemma Part0_upload_try_failed (res : FetchResult) (st : State) :
  upload_failed res = true -> exists t, Part0.upload_try res st = inr t.
Proof.
  destruct res as [t|ok status json]; simpl; [eauto|].
  destruct ok; simpl; [|eauto].
  destruct json as [t|b]; [eauto|].
  destruct (body_url b); [discriminate|]. intros _. simpl.
  destruct (editorRef st); eauto.
Qed.

(** The copy in part_000 does what C8 says: a failed attempt ends in one
    [alert], with [uploadingImage] false, the editor and the selection as
    they were, and no further request. *)
Lemma Part0_failed_upload_alerts (res : FetchResult) (st : State) :
  upload_failed res = true ->
  exists msg,
    effects (Part0.uploadAndInsertImage_settled res st)
    = effects st ++ [ConsoleError "Image upload error:"; Alert msg]
    /\ uploadingImage (Part0.uploadAndInsertImage_settled res st) = false
    /\ editorRef (Part0.uploadAndInsertImage_settled res st) = editorRef st
    /\ selection (Part0.uploadAndInsertImage_settled res st) = selection st.
Proof.
  intros Hf. destruct (Part0_upload_try_failed res st Hf) as [t Ht].
  exists (alert_text t). unfold Part0.uploadAndInsertImage_settled. rewrite Ht.
  unfold caught. state_simpl. rewrite <- app_assoc. auto.
Qed.

(** C8, at the input where the code departs from it: in CKEditor.tsx a
    2xx response whose body has no [url] counts as a failed attempt, and
    the settled upload adds no effect at all, so no [alert]; the dialog
    is closed and the upload flag reset all the same. *)
Theorem C8_client_missing_url_is_silent (st : State) (status : nat) (err : option string) :
  let res := FetchResolves true status (JsonResolves (MkBody None err)) in
  upload_failed res = true
  /\ effects (Client.uploadAndInsertImage_settled res st) = effects st
  /\ existsb is_alert (effects (Client.uploadAndInsertImage_settled res st))
     = existsb is_alert (effects st)
  /\ uploadingImage (Client.uploadAndInsertImage_settled res st) = false
  /\ showImageDialog (Client.uploadAndInsertImage_settled res st) = false
  /\ editorRef (Client.uploadAndInsertImage_settled res st) = editorRef st.
Proof.
  simpl. unfold Client.uploadAndInsertImage_settled, Client.upload_try. simpl.
  destruct (editorRef st) eqn:E; state_simpl; rewrite ?E; repeat split.
Qed.

(** C10: once the request of an upload attempt has settled, whatever
    the outcome, both copies leave the image dialog closed, no pending
    file, an empty preview and the upload flag off; pressing the insert
    button again then does nothing (no request goes out) until a file is
    selected anew. *)
Theorem C10_settled_upload_clears_dialog (res : FetchResult) (st : State) :
  let p := Part0.uploadAndInsertImage_settled res st in
  let c := Client.uploadAndInsertImage_settled res st in
  (showImageDialog p = false /\ imageFile p = None /\ imagePreview p = EmptyString
   /\ uploadingImage p = false /\ Part0.insertImage p = p)
  /\
  (showImageDialog c = false /\ imageFile c = None /\ imagePreview c = EmptyString
   /\ uploadingImage c = false /\ Client.insertImage c = c).
Proof.
  simpl. unfold Part0.uploadAndInsertImage_settled, Client.uploadAndInsertImage_settled.
  unfold Part0.insertImage, Client.insertImage. state_simpl.
  repeat split.
Qed.

End UploadFacts.

Section TextFacts.

Lemma str_length_append (a b : string) :
  String.length (String.append a b) = String.length a + String.length b.
Proof. induction a; simpl; congruence. Qed.

Lemma leaves_length_app (l1 l2 : list (path * string)) :
  leaves_length (l1 ++ l2) = leaves_length l1 + leaves_length l2.
Proof. induction l1 as [|[p d] l1 IH]; simpl; [reflexivity | rewrite IH; lia]. Qed.

Lemma textContent_Elem (t : string) (a : list (string * string)) (s : css) (cs : list node) :
  textContent (Elem t a s cs) = textContents cs.
Proof. reflexivity. Qed.

(** The text leaves of a node carry exactly its text content. *)
Lemma leaves_length_text_leaves_from (n : node) :
  forall here, leaves_length (text_leaves_from here n) = String.length (textContent n).
Proof.
  induction n as [d|t a s cs IH] using node_ind; intros here.
  - simpl. lia.
  - rewrite textContent_Elem. simpl. generalize 0 as i.
    induction IH as [|c cs Hc _ IHcs]; intros i; simpl.
    + reflexivity.
    + rewrite leaves_length_app, str_length_append, Hc, IHcs. reflexivity.
Qed.

(** Every text leaf listed is the text node at its path. *)
Lemma text_leaves_from_get (n : node) :
  forall here p d,
    In (p, d) (text_leaves_from here n) ->
    exists q, p = here ++ q /\ get n q = Some (Text d).
Proof.
  induction n as [d0|t a s cs IH] using node_ind; intros here p d Hin.
  - simpl in Hin. destruct Hin as [E|[]]. inversion E; subst.
    exists []. now rewrite app_nil_r.
  - simpl in Hin.
    assert (G : forall i,
               In (p, d) (flat_mapi (fun i c => text_leaves_from (here ++ [i]) c) i cs) ->
               exists j c q, nth_error cs j = Some c /\ p = here ++ (i + j) :: q
                             /\ get c q = Some (Text d)).
    { clear Hin. induction IH as [|c cs Hc _ IHcs]; intros i Hin; simpl in Hin.
      - contradiction.
      - apply in_app_or in Hin. destruct Hin as [Hin|Hin].
        + destruct (Hc _ _ _ Hin) as [q [Hp Hq]].
          exists 0, c, q. repeat split; try assumption.
          rewrite Hp, <- app_assoc. simpl. now rewrite Nat.add_0_r.
        + destruct (IHcs (S i) Hin) as [j [c' [q [Hn [Hp Hq]]]]].
          exists (S j), c', q. repeat split; try assumption.
          rewrite Hp. f_equal. f_equal. lia. }
    destruct (G 0 Hin) as [j [c [q [Hn [Hp Hq]]]]].
    exists (j :: q). split; [exact Hp|]. simpl. now rewrite Hn.
Qed.

Lemma text_leaves_get (root : node) (p : path) (d : string) :
  In (p, d) (text_leaves root) -> get root p = Some (Text d).
Proof.
  destruct root as [d0|t a s cs]; [contradiction|]. unfold text_leaves.
  intros Hin. destruct (text_leaves_from_get _ _ _ _ Hin) as [q [Hp Hq]].
  simpl in Hp. now subst.
Qed.

(** The restore loop stops in the first leaf whose cumulative length
    reaches the saved position. *)
Lemma restore_walk_spec (leaves : list (path * string)) :
  forall k c,
    c < k -> k <= c + leaves_length leaves ->
    exists before p d after,
      leaves = before ++ (p, d) :: after
      /\ restore_walk leaves k c = Some (Point p (k - (c + leaves_length before)))
      /\ c + leaves_length before < k <= c + leaves_length before + String.length d.
Proof.
  induction leaves as [|[p d] rest IH]; intros k c Hlt Hle; simpl in *.
  - lia.
  - destruct (Nat.leb k (c + String.length d)) eqn:E.
    + apply Nat.leb_le in E. exists [], p, d, rest. simpl.
      rewrite Nat.add_0_r. repeat split; lia.
    + apply Nat.leb_gt in E.
      destruct (IH k (c + String.length d)) as [before [p' [d' [after [Hl [Hw Hb]]]]]];
        [lia | lia |].
      exists ((p, d) :: before), p', d', after. simpl. subst rest.
      repeat split; try lia.
      rewrite Hw. do 2 f_equal. lia.
Qed.

Lemma str_or_empty (s : string) : str_or s EmptyString = s.
Proof. now destruct s. Qed.

End TextFacts.

Section ReconcileFacts.
Context {host : Host}.

(** C2 (amended to a positive offset): with the editor focused and the
    end of the selection at plain-text offset [k > 0], reconciling with a
    different value whose text is at least [k] long replaces the
    children by the parsed value and leaves a caret in the text leaf
    whose cumulative range holds [k] (strictly more than the text before
    the leaf, at most the text up to its end), at offset [k] minus the
    length of the earlier leaves; the editor keeps the focus. *)
Theorem C2_caret_restored_for_positive_offset
    (st : State) (root : node) (range : Range) (value : string) :
  editorRef st = Some root ->
  is_text root = false ->
  hasFocus st = true ->
  selection st = Some range ->
  value <> innerHTML root ->
  0 < saved_cursorPosition st ->
  saved_cursorPosition st <= String.length (textContents (parseHTML value)) ->
  exists root' before p d after,
    editorRef (reconcile value st) = Some root'
    /\ children root' = parseHTML value
    /\ text_leaves root' = before ++ (p, d) :: after
    /\ get root' p = Some (Text d)
    /\ leaves_length before < saved_cursorPosition st
       <= leaves_length before + String.length d
    /\ selection (reconcile value st)
       = Some (caret (Point p (saved_cursorPosition st - leaves_length before)))
    /\ hasFocus (reconcile value st) = true.
Proof.
  intros Hroot Hel Hfocus Hsel Hne Hpos Hlen.
  set (k := saved_cursorPosition st) in *.
  destruct root as [d0|t a s cs]; [discriminate|].
  set (root' := Elem t a s (parseHTML value)).
  assert (Hleaves : k <= 0 + leaves_length (text_leaves root')).
  { unfold root', text_leaves. rewrite leaves_length_text_leaves_from, textContent_Elem. lia. }
  destruct (restore_walk_spec (text_leaves root') k 0 Hpos Hleaves)
    as [before [p [d [after [Hl [Hw Hb]]]]]].
  simpl in Hw, Hb.
  assert (E : reconcile value st
              = set_selection (Some (caret (Point p (k - leaves_length before))))
                  (set_selection (Some (caret (Point [] 0))) (set_editor root' st))).
  { unfold reconcile. rewrite Hroot.
    apply String.eqb_neq in Hne. rewrite Hne.
    fold k. rewrite Hfocus. simpl.
    apply Nat.ltb_lt in Hpos. rewrite Hpos.
    rewrite str_or_empty. unfold set_innerHTML. rewrite Hroot, Hsel. simpl.
    fold root'. rewrite Hw.
    unfold focus. state_simpl. now rewrite Hfocus. }
  exists root', before, p, d, after. rewrite E.
  repeat split; try assumption; try reflexivity; try lia.
  apply text_leaves_get. rewrite Hl. apply in_or_app. right. now left.
Qed.

End ReconcileFacts.

Section PathFacts.

Lemma nth_error_replace_nth_same (i : nat) (x : node) (l : list node) :
  i < List.length l -> nth_error (replace_nth i x l) i = Some x.
Proof.
  intros H. unfold replace_nth.
  rewrite nth_error_app2; rewrite length_firstn, Nat.min_l by lia; [|lia].
  now rewrite Nat.sub_diag.
Qed.

Lemma nth_error_replace_nth_other (i j : nat) (x : node) (l : list node) :
  i < List.length l -> j <> i -> nth_error (replace_nth i x l) j = nth_error l j.
Proof.
  intros H Hne. unfold replace_nth.
  destruct (Nat.lt_ge_cases j i) as [Hlt|Hge].
  - rewrite nth_error_app1 by (rewrite length_firstn; lia).
    now rewrite nth_error_firstn, (proj2 (Nat.ltb_lt j i) Hlt).
  - rewrite nth_error_app2; rewrite length_firstn, Nat.min_l by lia; [|lia].
    destruct (j - i) as [|k] eqn:E; [lia|]. cbn [nth_error].
    rewrite nth_error_skipn. f_equal. lia.
Qed.

Lemma nth_error_Some_lt (l : list node) (i : nat) (c : node) :
  nth_error l i = Some c -> i < List.length l.
Proof. intros H. apply nth_error_Some. congruence. Qed.

Lemma children_set_children (cs : list node) (n : node) :
  is_text n = false -> children (set_children cs n) = cs.
Proof. destruct n; [discriminate | reflexivity]. Qed.

Lemma has_child_is_element (n : node) (i : nat) (c : node) :
  nth_error (children n) i = Some c -> is_text n = false.
Proof. destruct n; simpl; [destruct i; discriminate | reflexivity]. Qed.

Lemma get_single (n : node) (k : nat) : get n [k] = nth_error (children n) k.
Proof. simpl. now destruct (nth_error (children n) k). Qed.

Lemma get_children_eq (n m : node) (q : path) :
  children n = children m -> q <> [] -> get n q = get m q.
Proof. destruct q; [congruence|]. intros H _. simpl. now rewrite H. Qed.

Lemma get_update_at_same (f : node -> node) (p : path) :
  forall n m, get n p = Some m -> get (update_at p f n) p = Some (f m).
Proof.
  induction p as [|i p IH]; intros n m H; simpl in *.
  - congruence.
  - destruct (nth_error (children n) i) as [c|] eqn:E; [|discriminate].
    simpl. rewrite children_set_children by (eapply has_child_is_element; eauto).
    rewrite nth_error_replace_nth_same by (eapply nth_error_Some_lt; eauto).
    now apply IH.
Qed.

(** An update that keeps children is invisible from every path that is
    not an inclusive ancestor of the updated node. *)
Lemma get_update_at_frame (f : node -> node) :
  (forall n, children (f n) = children n) ->
  forall p q n, ~ is_prefix q p -> get (update_at p f n) q = get n q.
Proof.
  intros Hf. induction p as [|i p IH]; intros q n Hq.
  - destruct q as [|j q]; [exfalso; apply Hq; now exists []|].
    simpl. now rewrite Hf.
  - destruct q as [|j q]; [exfalso; apply Hq; now exists (i :: p)|].
    simpl. destruct (nth_error (children n) i) as [c|] eqn:E; [|reflexivity].
    simpl. rewrite children_set_children by (eapply has_child_is_element; eauto).
    destruct (Nat.eq_dec j i) as [->|Hne].
    + rewrite nth_error_replace_nth_same by (eapply nth_error_Some_lt; eauto).
      rewrite E. apply IH. intros [r Hr]. apply Hq. exists r. simpl. now rewrite Hr.
    + rewrite nth_error_replace_nth_other; [reflexivity | eapply nth_error_Some_lt; eauto | exact Hne].
Qed.

(** The proper ancestors of an updated node keep tag, attributes and style. *)
Lemma get_update_at_ancestor (f : node -> node) :
  forall q p n m,
    is_prefix q p -> q <> p -> get n q = Some m ->
    exists m', get (update_at p f n) q = Some m'
               /\ tag_of m' = tag_of m /\ attrs_of m' = attrs_of m
               /\ style_of m' = style_of m.
Proof.
  induction q as [|j q IH]; intros p n m [r Hr] Hne H.
  - simpl in Hr. subst r. destruct p as [|i p]; [congruence|].
    simpl in *. inversion H; subst m.
    destruct (nth_error (children n) i); [|eauto].
    eexists; split; [reflexivity|]. now destruct n.
  - simpl in Hr. subst p. simpl in *.
    destruct (nth_error (children n) j) as [c|] eqn:E; [|discriminate].
    simpl. rewrite children_set_children by (eapply has_child_is_element; eauto).
    rewrite nth_error_replace_nth_same by (eapply nth_error_Some_lt; eauto).
    apply IH; [now exists r | congruence | assumption].
Qed.

Lemma ancestors_or_self_nonempty (p q : path) :
  In q (ancestors_or_self p) -> q <> [].
Proof.
  unfold ancestors_or_self. rewrite in_map_iff. intros [k [Hk Hin]].
  rewrite <- in_rev, in_seq in Hin.
  destruct p as [|i p]; [simpl in Hin; lia|].
  destruct k; [lia|]. subst q. discriminate.
Qed.

Lemma ancestors_or_self_prefix (p q : path) :
  In q (ancestors_or_self p) -> is_prefix q p.
Proof.
  unfold ancestors_or_self. rewrite in_map_iff. intros [k [Hk _]].
  exists (skipn k p). subst q. symmetry. apply firstn_skipn.
Qed.

Lemma find_ancestor_children (f : node -> bool) (n m : node) (p : path) :
  children n = children m -> find_ancestor f n p = find_ancestor f m p.
Proof.
  intros H. unfold find_ancestor.
  assert (G : forall l, (forall q, In q l -> q <> []) ->
              find (fun q => match get n q with Some x => f x | None => false end) l
              = find (fun q => match get m q with Some x => f x | None => false end) l).
  { induction l as [|q l IH]; intros Hl; simpl; [reflexivity|].
    rewrite (get_children_eq n m q H) by (apply Hl; now left).
    rewrite IH by (intros; apply Hl; now right). reflexivity. }
  apply G. intros q. apply ancestors_or_self_nonempty.
Qed.

Lemma find_block_spec (root : node) (p bq : path) :
  find_block root p = Some bq ->
  bq <> [] /\ is_prefix bq p /\ exists b, get root bq = Some b /\ is_block b = true.
Proof.
  unfold find_block, find_ancestor. intros H. apply find_some in H. destruct H as [Hin Hb].
  split; [eapply ancestors_or_self_nonempty; eauto|].
  split; [now apply ancestors_or_self_prefix|].
  destruct (get root bq) as [b|]; [eauto | discriminate].
Qed.

End PathFacts.

Section AlignmentFacts.
Context {host : Host}.

Lemma trim_truthy (s : string) : truthy (trim s) = true -> truthy s = true.
Proof. destruct s; [discriminate | reflexivity]. Qed.

(** [focus()] on a mounted editor that is not the active element,
    spelled out. *)
Lemma focus_unfocused (st : State) (root : node) :
  editorRef st = Some root ->
  hasFocus st = false ->
  let rootF :=
    set_style "text-align" "left"
      (set_style "direction" "ltr" (setAttribute "dir" "ltr" root)) in
  let st1 := set_editor rootF (set_hasFocus true st) in
  focus st
  = if negb (truthy (textContent rootF)) || String.eqb (trim (textContent rootF)) ""
    then set_selection (Some (caret (Point [] 0))) st1
    else
      match selection st with
      | Some _ => st1
      | None =>
          match focusCaret rootF with
          | Some pt => set_selection (Some (caret pt)) st1
          | None => st1
          end
      end.
Proof.
  intros Hroot Hf. cbv zeta. unfold focus, handleFocus. rewrite Hf.
  cbn [editorRef set_hasFocus]. rewrite Hroot. cbv zeta.
  match goal with
  | |- context [if ?c then _ else _] => destruct c
  end; state_simpl; [reflexivity|].
  destruct (selection st); reflexivity.
Qed.

(** [focus()] touches the editor element's own attributes and style at
    most: the children stay. *)
Lemma focus_editor (st : State) (root : node) :
  editorRef st = Some root ->
  exists rootF,
    editorRef (focus st) = Some rootF
    /\ children rootF = children root /\ is_text rootF = is_text root.
Proof.
  intros Hroot. destruct (hasFocus st) eqn:Hf.
  - exists root. unfold focus. rewrite Hf. auto.
  - rewrite (focus_unfocused st root Hroot Hf).
    exists (set_style "text-align" "left"
              (set_style "direction" "ltr" (setAttribute "dir" "ltr" root))).
    split; [|split; now destruct root].
    match goal with
    | |- context [if ?c then _ else _] => destruct c
    end; [reflexivity|].
    destruct (selection st); [reflexivity|].
    destruct (focusCaret _); reflexivity.
Qed.

(** [focus()] leaves a selection that lies in the editor alone when the
    editor has the focus already or holds some non-blank text. *)
Lemma focus_selection (st : State) (root : node) (range : Range) :
  editorRef st = Some root ->
  is_text root = false ->
  hasFocus st = true \/ truthy (trim (textContent root)) = true ->
  selection st = Some range ->
  selection (focus st) = Some range.
Proof.
  intros Hroot Hel Hcase Hsel.
  destruct (hasFocus st) eqn:Hf; [unfold focus; now rewrite Hf|].
  destruct Hcase as [Hc|Hc]; [discriminate|].
  rewrite (focus_unfocused st root Hroot Hf).
  destruct root as [d|t a s cs]; [discriminate|].
  set (rootF := set_style "text-align" "left"
                  (set_style "direction" "ltr" (setAttribute "dir" "ltr" (Elem t a s cs)))).
  assert (Ht : textContent rootF = textContent (Elem t a s cs)) by reflexivity.
  rewrite Ht, (trim_truthy _ Hc), Hsel.
  destruct (trim (textContent (Elem t a s cs))) eqn:Et; [discriminate|].
  exact Hsel.
Qed.

(** Both copies take the same path when the selection they read lies
    in a block. *)
Lemma setAlignment_in_block (v : alignment) (st : State) (root : node) (range : Range) (bq : path) :
  editorRef st = Some root ->
  selection (focus st) = Some range ->
  find_block root (commonAncestorContainer range) = Some bq ->
  exists rootF,
    children rootF = children root
    /\ Part0.setAlignment v st
       = handleInput
           (set_editor (update_at bq (set_style "text-align" (align_str v)) rootF)
              (focus st))
    /\ Client.setAlignment v st = Part0.setAlignment v st.
Proof.
  intros Hroot Hsel Hfind.
  destruct (focus_editor st root Hroot) as [rootF [Hfoc [Hch HelF]]].
  exists rootF. split; [exact Hch|].
  assert (HfindF : find_block rootF (commonAncestorContainer range) = Some bq).
  { unfold find_block. rewrite (find_ancestor_children is_block rootF root _ Hch). exact Hfind. }
  unfold Part0.setAlignment, Client.setAlignment. rewrite Hroot. cbv zeta.
  rewrite Hfoc, Hsel, HfindF. split; reflexivity.
Qed.

(** When the selection [setAlignment] reads (after it has focused the
    editor) has its common container in a block [P0], the first block
    met walking up from the container, either copy replaces [P0] by [P0]
    with [text-align] set to the requested value; every node that is not
    an ancestor of [P0] is the node it was, the ancestors of [P0] keep
    tag, attributes and style, and the selection stays. *)
Lemma setAlignment_touches_only_the_block_it_reads
    (v : alignment) (st : State) (root : node) (range : Range) (bq : path) :
  editorRef st = Some root ->
  selection (focus st) = Some range ->
  find_block root (commonAncestorContainer range) = Some bq ->
  forall st',
    st' = Part0.setAlignment v st \/ st' = Client.setAlignment v st ->
    exists root' P0,
      editorRef st' = Some root'
      /\ get root bq = Some P0 /\ is_block P0 = true
      /\ get root' bq = Some (set_style "text-align" (align_str v) P0)
      /\ get_style "text-align" (set_style "text-align" (align_str v) P0)
         = Some (align_str v)
      /\ (forall q, q <> [] -> ~ is_prefix q bq -> get root' q = get root q)
      /\ (forall q n, q <> [] -> is_prefix q bq -> q <> bq -> get root q = Some n ->
          exists n', get root' q = Some n' /\ tag_of n' = tag_of n
                     /\ attrs_of n' = attrs_of n /\ style_of n' = style_of n)
      /\ selection st' = Some range.
Proof.
  intros Hroot Hsel Hfind st' Hst'.
  destruct (setAlignment_in_block v st root range bq Hroot Hsel Hfind) as [rootF [Hch [HP HC]]].
  assert (E : st' = Part0.setAlignment v st) by (destruct Hst'; congruence).
  clear Hst'. rewrite HP in E.
  destruct (find_block_spec _ _ _ Hfind) as [Hne [_ [P0 [HP0 Hblk]]]].
  set (f := set_style "text-align" (align_str v)) in *.
  set (root1 := update_at bq f rootF) in *.
  rewrite (handleInput_mounted _ root1) in E by reflexivity.
  exists (bookkeeping root1), P0. subst st'.
  assert (HgF : forall q, q <> [] -> get rootF q = get root q)
    by (intros; now apply get_children_eq).
  split; [reflexivity|]. split; [exact HP0|]. split; [exact Hblk|].
  split; [|split; [|split; [|split]]].
  - rewrite get_bookkeeping by exact Hne. unfold root1.
    apply get_update_at_same. now rewrite HgF.
  - destruct P0 as [d|t a s cs]; [discriminate|]. unfold f, get_style. simpl.
    apply assoc_get_set_same.
  - intros q Hq Hnp. rewrite get_bookkeeping by exact Hq. unfold root1.
    rewrite get_update_at_frame; [now apply HgF | apply children_set_style | exact Hnp].
  - intros q n Hq Hpre Hneq Hn. rewrite get_bookkeeping by exact Hq. unfold root1.
    apply get_update_at_ancestor; [exact Hpre | exact Hneq | now rewrite HgF].
  - state_simpl. exact Hsel.
Qed.

(** C4 (amended): the editor has the focus or holds some text that is
    not blank, and the selection (a caret in particular) has its common
    container in a block [P0], the first block met walking up from the
    container.  Either copy of [setAlignment] then replaces [P0] by [P0]
    with [text-align] set to the requested value (tag, attributes, other
    style properties and children as before); every node that is not an
    ancestor of [P0] is the node it was, the ancestors of [P0] keep tag,
    attributes and style, and the selection stays.  (On an editor that
    is not focused and holds blank text only, the focus handler moves
    the caret out of the block first.) *)
Theorem C4_setAlignment_touches_only_the_enclosing_block
    (v : alignment) (st : State) (root : node) (range : Range) (bq : path) :
  editorRef st = Some root ->
  is_text root = false ->
  hasFocus st = true \/ truthy (trim (textContent root)) = true ->
  selection st = Some range ->
  find_block root (commonAncestorContainer range) = Some bq ->
  forall st',
    st' = Part0.setAlignment v st \/ st' = Client.setAlignment v st ->
    exists root' P0,
      editorRef st' = Some root'
      /\ get root bq = Some P0 /\ is_block P0 = true
      /\ get root' bq = Some (set_style "text-align" (align_str v) P0)
      /\ get_style "text-align" (set_style "text-align" (align_str v) P0)
         = Some (align_str v)
      /\ (forall q, q <> [] -> ~ is_prefix q bq -> get root' q = get root q)
      /\ (forall q n, q <> [] -> is_prefix q bq -> q <> bq -> get root q = Some n ->
          exists n', get root' q = Some n' /\ tag_of n' = tag_of n
                     /\ attrs_of n' = attrs_of n /\ style_of n' = style_of n)
      /\ selection st' = Some range.
Proof.
  intros Hroot Hel Hcase Hsel Hfind.
  apply (setAlignment_touches_only_the_block_it_reads v st root range bq Hroot);
    [|exact Hfind].
  exact (focus_selection st root range Hroot Hel Hcase Hsel).
Qed.

End AlignmentFacts.

Section AlignAllFacts.
Context {host : Host}.

Lemma map_matching_Elem (f : node -> bool) (g : node -> node) t a s cs :
  map_matching f g (Elem t a s cs)
  = Elem t a s (map (fun c => if f c then g (map_matching f g c) else map_matching f g c) cs).
Proof. reflexivity. Qed.

(** What [querySelectorAll(sel).forEach(g)] leaves at each path. *)
Lemma map_matching_get (f : node -> bool) (g : node -> node) :
  (forall n, children (g n) = children n) ->
  forall q n b,
    q <> [] -> get n q = Some b ->
    get (map_matching f g n) q
    = Some (if f b then g (map_matching f g b) else map_matching f g b).
Proof.
  intros Hg. induction q as [|i q IH]; intros n b Hq H; [congruence|].
  destruct n as [d|t a s cs]; [destruct i; discriminate|].
  rewrite map_matching_Elem. simpl in *.
  rewrite nth_error_map.
  destruct (nth_error cs i) as [c|] eqn:E; [|discriminate]. simpl.
  destruct q as [|j q].
  - simpl in *. now inversion H.
  - assert (Hc : get (map_matching f g c) (j :: q)
                 = Some (if f b then g (map_matching f g b) else map_matching f g b))
      by (apply IH; [discriminate | exact H]).
    destruct (f c); [|exact Hc].
    rewrite (get_children_eq (g (map_matching f g c)) (map_matching f g c) (j :: q));
      [exact Hc | apply Hg | discriminate].
Qed.

Lemma map_matching_shape (f : node -> bool) (g : node -> node) (n : node) :
  tag_of (map_matching f g n) = tag_of n
  /\ attrs_of (map_matching f g n) = attrs_of n
  /\ style_of (map_matching f g n) = style_of n
  /\ List.length (children (map_matching f g n)) = List.length (children n).
Proof.
  destruct n as [d|t a s cs]; [now repeat split|].
  rewrite map_matching_Elem. simpl. now rewrite length_map.
Qed.

(** C3 (amended): the editor has the focus and the window holds no
    selection.  If the editor has block descendants, both
    copies set [text-align] to the requested value on every one of them,
    keeping tag, attributes and number of children, and create no
    selection.  If it has none, part_000 appends one paragraph with the
    requested [text-align] holding a single line break and puts the caret
    at its start; CKEditor.tsx does the same only when the serialized
    content is blank, and otherwise replaces the children by one aligned
    paragraph holding the re-parsed content without placing a caret. *)
Theorem C3_setAlignment_without_selection (v : alignment) (st : State) (root : node) :
  editorRef st = Some root ->
  is_text root = false ->
  hasFocus st = true ->
  selection st = None ->
  let para := Elem "P" [] [("text-align", align_str v)] in
  (some_descendant is_block root = true ->
   forall st', st' = Part0.setAlignment v st \/ st' = Client.setAlignment v st ->
     exists root',
       editorRef st' = Some root' /\ selection st' = None
       /\ forall q b, q <> [] -> get root q = Some b -> is_block b = true ->
            exists b', get root' q = Some b'
                       /\ get_style "text-align" b' = Some (align_str v)
                       /\ tag_of b' = tag_of b /\ attrs_of b' = attrs_of b
                       /\ List.length (children b') = List.length (children b))
  /\
  (some_descendant is_block root = false ->
   (exists root',
      editorRef (Part0.setAlignment v st) = Some root'
      /\ children root' = children root ++ [para [BR]]
      /\ selection (Part0.setAlignment v st)
         = Some (caret (Point [List.length (children root)] 0)))
   /\ (truthy (trim (innerHTML root)) = false ->
       exists root',
         editorRef (Client.setAlignment v st) = Some root'
         /\ children root' = children root ++ [para [BR]]
         /\ selection (Client.setAlignment v st)
            = Some (caret (Point [List.length (children root)] 0)))
   /\ (truthy (trim (innerHTML root)) = true ->
       exists root',
         editorRef (Client.setAlignment v st) = Some root'
         /\ children root' = [para (parseHTML (innerHTML root))]
         /\ selection (Client.setAlignment v st) = None)).
Proof.
  intros Hroot Hel Hf Hsel0 para.
  assert (Hsel : selection (focus st) = None)
    by (unfold focus; rewrite Hf; exact Hsel0).
  destruct (focus_editor st root Hroot) as [rootF [Hfoc [Hch HelF]]].
  rewrite Hel in HelF.
  assert (Hblk : some_descendant is_block rootF = some_descendant is_block root)
    by now apply some_descendant_children.
  assert (Hhtml : innerHTML rootF = innerHTML root)
    by (unfold innerHTML; now rewrite Hch).
  assert (HP : Part0.setAlignment v st
               = match some_descendant is_block root with
                 | true =>
                     handleInput
                       (set_editor
                          (map_matching is_block (set_style "text-align" (align_str v)) rootF)
                          (focus st))
                 | false =>
                     handleInput
                       (set_selection
                          (Some (caret (Point [List.length (children root)] 0)))
                          (set_editor (set_children (children root ++ [para [BR]]) rootF)
                             (focus st)))
                 end).
  { unfold Part0.setAlignment. rewrite Hroot. cbv zeta.
    rewrite Hfoc, Hsel, Hblk, Hch. reflexivity. }
  assert (HC : Client.setAlignment v st
               = match some_descendant is_block root with
                 | true => Part0.setAlignment v st
                 | false =>
                     if truthy (trim (innerHTML root))
                     then handleInput
                            (set_editor
                               (set_children [para (parseHTML (innerHTML root))] rootF)
                               (focus st))
                     else Part0.setAlignment v st
                 end).
  { rewrite HP. unfold Client.setAlignment. rewrite Hroot. cbv zeta.
    rewrite Hfoc, Hsel, Hblk, Hch, Hhtml.
    destruct (some_descendant is_block root); [reflexivity|].
    destruct (truthy (trim (innerHTML root))); reflexivity. }
  split.
  - intros Hb st' Hst'.
    assert (E : st' = Part0.setAlignment v st).
    { destruct Hst' as [->| ->]; [reflexivity|]. rewrite HC, Hb. reflexivity. }
    rewrite HP, Hb in E.
    set (f := set_style "text-align" (align_str v)) in *.
    exists (bookkeeping (map_matching is_block f rootF)). subst st'.
    rewrite (handleInput_mounted _ (map_matching is_block f rootF)) by reflexivity.
    split; [reflexivity|]. split; [state_simpl; exact Hsel|].
    intros q b Hq Hget Hb'.
    rewrite get_bookkeeping by exact Hq.
    rewrite (map_matching_get is_block f (children_set_style _ _) q rootF b Hq)
      by (rewrite (get_children_eq rootF root q Hch Hq); exact Hget).
    rewrite Hb'. eexists. split; [reflexivity|].
    destruct (map_matching_shape is_block f b) as [Ht [Ha [_ Hl]]].
    destruct b as [d|t a s cs]; [discriminate|].
    rewrite map_matching_Elem in *. unfold f, get_style. cbn in *.
    repeat split; try assumption. apply assoc_get_set_same.
  - intros Hb. rewrite Hb in HP, HC.
    assert (HPr : exists root',
               editorRef (Part0.setAlignment v st) = Some root'
               /\ children root' = children root ++ [para [BR]]
               /\ selection (Part0.setAlignment v st)
                  = Some (caret (Point [List.length (children root)] 0))).
    { rewrite HP.
      set (r1 := set_children (children root ++ [para [BR]]) rootF).
      rewrite (handleInput_mounted _ r1) by reflexivity.
      exists (bookkeeping r1). split; [reflexivity|]. split; [|reflexivity].
      rewrite children_bookkeeping. unfold r1.
      now apply children_set_children. }
    split; [exact HPr|]. split.
    + intros Hblank. rewrite HC, Hblank. exact HPr.
    + intros Hfull. rewrite HC, Hfull.
      set (r1 := set_children [para (parseHTML (innerHTML root))] rootF).
      rewrite (handleInput_mounted _ r1) by reflexivity.
      exists (bookkeeping r1). split; [reflexivity|]. split; [|state_simpl; exact Hsel].
      rewrite children_bookkeeping. unfold r1. now apply children_set_children.
Qed.

End AlignAllFacts.

Section RangeFacts.

Lemma get_Some_child (n : node) (i : nat) (p : path) :
  get n (i :: p) <> None ->
  exists t a s cs c, n = Elem t a s cs /\ nth_error cs i = Some c /\ get c p <> None.
Proof.
  destruct n as [d|t a s cs]; simpl.
  - destruct i; simpl; intros H; exfalso; apply H; reflexivity.
  - destruct (nth_error cs i) as [c|] eqn:E; [|intros H; exfalso; apply H; reflexivity].
    intros H. now exists t, a, s, cs, c.
Qed.

(** The inserted nodes sit side by side from the returned place on. *)
Lemma insert_at_get (off : nat) (new : list node) :
  forall p n n' par idx,
    is_text n = false -> get n p <> None ->
    insert_at p off new n = (n', (par, idx)) ->
    is_text n' = false
    /\ forall k c, nth_error new k = Some c -> get n' (par ++ [idx + k]) = Some c.
Proof.
  induction p as [|i p IH]; intros n n' par idx Hel Hget Hins.
  - destruct n as [d|t a s cs]; [discriminate|]. simpl in Hins.
    inversion Hins; subst. split; [reflexivity|]. intros k c Hk.
    rewrite app_nil_l, get_single. cbn [children].
    rewrite nth_error_app2 by lia.
    replace (List.length (firstn off cs) + k - List.length (firstn off cs)) with k by lia.
    rewrite nth_error_app1; [exact Hk | apply nth_error_Some; congruence].
  - destruct (get_Some_child n i p Hget) as [t [a [s [cs [ci [-> [Hi Hci]]]]]]].
    simpl in Hins. rewrite Hi in Hins.
    assert (Hlen : List.length (firstn i cs) = i).
    { rewrite length_firstn. apply Nat.min_l.
      apply Nat.lt_le_incl. eapply nth_error_Some_lt; eauto. }
    destruct ci as [d|t' a' s' cs'].
    + inversion Hins; subst. split; [reflexivity|]. intros k c Hk.
      rewrite app_nil_l, get_single. cbn [children].
      rewrite nth_error_app2 by lia. rewrite Hlen.
      replace (S i + k - i) with (S k) by lia. cbn [nth_error].
      rewrite nth_error_app1; [exact Hk | apply nth_error_Some; congruence].
    + destruct (insert_at p off new (Elem t' a' s' cs')) as [c' [q k0]] eqn:E.
      inversion Hins; subst. split; [reflexivity|]. intros k c Hk.
      destruct (IH (Elem t' a' s' cs') c' q idx eq_refl Hci E) as [_ IH'].
      simpl. rewrite nth_error_replace_nth_same by (eapply nth_error_Some_lt; eauto).
      now apply IH'.
Qed.

(** After an extraction the range collapses to a point whose container
    is still in the tree. *)
Lemma extract_container (so eo : nat) :
  forall ps pe n n1 frag pt,
    get n ps <> None -> get n pe <> None ->
    extract ps so pe eo n = (n1, frag, pt) ->
    is_text n1 = is_text n /\ get n1 (container pt) <> None.
Proof.
  induction ps as [|i ps IH]; intros pe n n1 frag pt Hs He Hx.
  - destruct n as [d|t a s cs]; destruct pe as [|j pe]; simpl in Hx.
    + inversion Hx; subst. simpl. split; congruence.
    + inversion Hx; subst. simpl. split; congruence.
    + inversion Hx; subst. simpl. split; congruence.
    + destruct (nth_error cs j) as [cj|]; [destruct (split_at pe eo cj) as [y k]|];
        inversion Hx; subst; simpl; split; congruence.
  - destruct (get_Some_child n i ps Hs) as [t [a [s [cs [ci [-> [Hi Hci]]]]]]].
    destruct pe as [|j pe]; simpl in Hx.
    + rewrite Hi in Hx. destruct (split_at ps so ci) as [k x].
      inversion Hx; subst. simpl. split; congruence.
    + destruct (Nat.eqb i j) eqn:Eij.
      * apply Nat.eqb_eq in Eij. subst j. rewrite Hi in Hx.
        destruct (get_Some_child _ i pe He) as [t0 [a0 [s0 [cs0 [c0 [E0 [Hi0 Hc0]]]]]]].
        inversion E0; subst t0 a0 s0 cs0. rewrite Hi in Hi0. inversion Hi0; subst c0.
        destruct (extract ps so pe eo ci) as [[c' frag'] pt'] eqn:E.
        inversion Hx; subst. destruct (IH _ _ _ _ _ Hci Hc0 E) as [_ Hg].
        split; [reflexivity|]. simpl.
        now rewrite nth_error_replace_nth_same by (eapply nth_error_Some_lt; eauto).
      * rewrite Hi in Hx.
        destruct (nth_error cs j) as [cj|];
          [destruct (split_at ps so ci) as [k x]; destruct (split_at pe eo cj) as [y k']|];
          inversion Hx; subst; simpl; split; congruence.
Qed.

Lemma valid_point_get (root : node) (pt : point) :
  valid_point root pt = true -> get root (container pt) <> None.
Proof. unfold valid_point. destruct (get root (container pt)); congruence. Qed.

Lemma valid_range_points (root : node) (r : Range) :
  valid_range root r = true ->
  get root (container (startPoint r)) <> None /\ get root (container (endPoint r)) <> None.
Proof.
  unfold valid_range. rewrite !andb_true_iff. intros [[Hs He] _].
  split; now apply valid_point_get.
Qed.

Lemma extractContents_container (r : Range) (root root1 : node) (frag : list node) (pt : point) :
  valid_range root r = true ->
  extractContents r root = (root1, frag, pt) ->
  is_text root1 = is_text root /\ get root1 (container pt) <> None.
Proof.
  intros Hv Hx. destruct (valid_range_points root r Hv) as [Hs He].
  unfold extractContents in Hx. destruct (collapsed r).
  - inversion Hx; subst. split; [reflexivity | exact Hs].
  - eapply extract_container; [exact Hs | exact He | exact Hx].
Qed.

Lemma deleteContents_container (r : Range) (root root1 : node) (pt : point) :
  valid_range root r = true ->
  deleteContents r root = (root1, pt) ->
  is_text root1 = is_text root /\ get root1 (container pt) <> None.
Proof.
  unfold deleteContents. intros Hv Hd.
  destruct (extractContents r root) as [[r1 frag] pt1] eqn:E.
  inversion Hd; subst. eapply extractContents_container; eauto.
Qed.

(** [insertNode] after [deleteContents]: where the new nodes are. *)
Lemma insertNode_get (pt : point) (new : list node) (root root' : node) (par : path) (idx : nat) :
  is_text root = false -> get root (container pt) <> None ->
  insertNode pt new root = (root', (par, idx)) ->
  is_text root' = false
  /\ forall k c, nth_error new k = Some c -> get root' (par ++ [idx + k]) = Some c.
Proof. unfold insertNode. intros. eapply insert_at_get; eauto. Qed.

Lemma insertNode_get_single (pt : point) (x : node) (root root' : node) (par : path) (idx : nat) :
  is_text root = false -> get root (container pt) <> None ->
  insertNode pt [x] root = (root', (par, idx)) ->
  is_text root' = false /\ get root' (par ++ [idx]) = Some x.
Proof.
  intros Hel Hg Hins. destruct (insertNode_get pt [x] root root' par idx Hel Hg Hins) as [H1 H2].
  split; [exact H1|]. specialize (H2 0 x eq_refl). now rewrite Nat.add_0_r in H2.
Qed.

(** Removing the unsafe elements leaves none among the descendants. *)
Lemma remove_matching_safe (n : node) :
  descendants_safe (remove_matching is_unsafe n) = true.
Proof.
  induction n as [d|t a s cs IH] using node_ind; [reflexivity|].
  simpl. induction IH as [|c cs Hc _ IHcs]; [reflexivity|].
  simpl. destruct (is_unsafe c) eqn:E; [exact IHcs|].
  simpl. rewrite Hc, IHcs.
  assert (Hu : is_unsafe (remove_matching is_unsafe c) = false)
    by (destruct c; exact E).
  now rewrite Hu.
Qed.

End RangeFacts.

Section TextPreservation.

Lemma str_append_assoc (a b c : string) :
  String.append (String.append a b) c = String.append a (String.append b c).
Proof. induction a; simpl; congruence. Qed.

Lemma str_append_nil_r (a : string) : String.append a EmptyString = a.
Proof. induction a; simpl; congruence. Qed.

Lemma str_append_cancel_l (a b c : string) :
  String.append a b = String.append a c -> b = c.
Proof. induction a; simpl; intros H; [exact H | inversion H; auto]. Qed.

Lemma substring_all (d : string) : substring 0 (String.length d) d = d.
Proof. induction d; simpl; congruence. Qed.

Lemma str_take_drop (k : nat) (d : string) :
  String.append (str_take k d) (str_drop k d) = d.
Proof.
  unfold str_take, str_drop. revert k.
  induction d as [|c d IH]; intros k.
  - destruct k; reflexivity.
  - destruct k as [|k].
    + simpl. now rewrite substring_all.
    + simpl. now rewrite IH.
Qed.

Lemma str_take_mid_drop (so eo : nat) (d : string) :
  so <= eo ->
  String.append (str_take so d) (String.append (substring so (eo - so) d) (str_drop eo d)) = d.
Proof.
  revert so eo. induction d as [|c d IH]; intros so eo Hle.
  - destruct so, eo; try lia; reflexivity.
  - destruct so as [|so].
    + rewrite Nat.sub_0_r. exact (str_take_drop eo (String c d)).
    + destruct eo as [|eo]; [lia|].
      unfold str_take, str_drop in *. simpl.
      f_equal. apply IH. lia.
Qed.

Lemma str_take_take_append (so : nat) (d x : string) :
  so <= String.length d ->
  str_take so (String.append (str_take so d) x) = str_take so d.
Proof.
  unfold str_take. revert so. induction d as [|c d IH]; intros so Hle.
  - simpl in Hle. assert (so = 0) by lia. subst. simpl. now destruct x.
  - destruct so as [|so]; simpl.
    + now destruct x.
    + simpl in Hle. rewrite IH by lia. reflexivity.
Qed.

Lemma textContents_app (l1 l2 : list node) :
  textContents (l1 ++ l2) = String.append (textContents l1) (textContents l2).
Proof.
  induction l1 as [|c l1 IH]; simpl; [reflexivity|].
  now rewrite IH, str_append_assoc.
Qed.

Lemma textContents_cons (c : node) (l : list node) :
  textContents (c :: l) = String.append (textContent c) (textContents l).
Proof. reflexivity. Qed.

Lemma nth_error_split_list (cs : list node) (i : nat) (c : node) :
  nth_error cs i = Some c -> cs = firstn i cs ++ c :: skipn (S i) cs.
Proof.
  revert i. induction cs as [|x cs IH]; intros i H.
  - destruct i; discriminate.
  - destruct i as [|i]; simpl in *.
    + now inversion H.
    + f_equal. now apply IH.
Qed.


Lemma textContents_firstn_skipn (k : nat) (l : list node) :
  String.append (textContents (firstn k l)) (textContents (skipn k l)) = textContents l.
Proof. now rewrite <- textContents_app, firstn_skipn. Qed.

Lemma textContents_single (c : node) : textContents [c] = textContent c.
Proof. simpl. apply str_append_nil_r. Qed.

Lemma textContents_child (cs : list node) (i : nat) (c : node) :
  nth_error cs i = Some c ->
  textContents cs
  = String.append (textContents (firstn i cs))
      (String.append (textContent c) (textContents (skipn (S i) cs))).
Proof.
  intros H. rewrite (nth_error_split_list cs i c H) at 1.
  now rewrite textContents_app, textContents_cons.
Qed.

(** Cutting a node at a point splits its text there. *)
Lemma split_at_text (off : nat) :
  forall p n l r,
    get n p <> None -> split_at p off n = (l, r) ->
    String.append (textContent l) (textContent r) = textContent n
    /\ textContent l = text_before p off n.
Proof.
  induction p as [|i p IH]; intros n l r Hg Hs.
  - destruct n as [d|t a s cs]; simpl in Hs; inversion Hs; subst.
    + split; [apply str_take_drop | reflexivity].
    + rewrite !textContent_Elem. split; [apply textContents_firstn_skipn | reflexivity].
  - destruct (get_Some_child n i p Hg) as [t [a [s [cs [c [-> [Hi Hc]]]]]]].
    simpl in Hs. rewrite Hi in Hs.
    destruct (split_at p off c) as [l' r'] eqn:E. inversion Hs; subst.
    destruct (IH c l' r' Hc E) as [H1 H2].
    rewrite !textContent_Elem. cbn [text_before children]. rewrite Hi.
    rewrite textContents_app, textContents_single, textContents_cons.
    split.
    + rewrite (textContents_child cs i c Hi), <- H1. now rewrite !str_append_assoc.
    + now rewrite H2.
Qed.

Lemma text_before_prefix (off : nat) (p : path) (n : node) :
  get n p <> None -> exists R, textContent n = String.append (text_before p off n) R.
Proof.
  intros Hg. destruct (split_at p off n) as [l r] eqn:E.
  destruct (split_at_text off p n l r Hg E) as [H1 H2].
  exists (textContent r). now rewrite <- H2, H1.
Qed.


Lemma skipn_nth_error (cs : list node) (j : nat) (c : node) :
  nth_error cs j = Some c -> skipn j cs = c :: skipn (S j) cs.
Proof.
  revert j. induction cs as [|x cs IH]; intros j H.
  - destruct j; discriminate.
  - destruct j as [|j]; simpl in *; [now inversion H | now apply IH].
Qed.

Lemma textContents_skipn_upto (a e : nat) (cs : list node) :
  a <= e ->
  textContents (skipn a cs)
  = String.append (textContents (firstn (e - a) (skipn a cs))) (textContents (skipn e cs)).
Proof.
  intros H. rewrite <- (firstn_skipn (e - a) (skipn a cs)) at 1.
  rewrite textContents_app, skipn_skipn.
  replace (e - a + a) with e by lia. reflexivity.
Qed.

Lemma textContents_skipn_child (a j : nat) (cs : list node) (c : node) :
  a <= j -> nth_error cs j = Some c ->
  textContents (skipn a cs)
  = String.append (textContents (firstn (j - a) (skipn a cs)))
      (String.append (textContent c) (textContents (skipn (S j) cs))).
Proof.
  intros H Hj. rewrite (textContents_skipn_upto a j cs H).
  now rewrite (skipn_nth_error cs j c Hj), textContents_cons.
Qed.

Lemma firstn_firstn_app (k : nat) (cs x : list node) :
  k <= List.length cs -> firstn k (firstn k cs ++ x) = firstn k cs.
Proof.
  intros H. rewrite firstn_app, length_firstn, Nat.min_l by exact H.
  rewrite Nat.sub_diag, firstn_firstn, Nat.min_id. simpl. apply app_nil_r.
Qed.

Lemma firstn_S_firstn_app (i : nat) (cs x : list node) (k : node) :
  i < List.length cs -> firstn (S i) (firstn i cs ++ k :: x) = firstn i cs ++ [k].
Proof.
  intros H. rewrite firstn_app, length_firstn, Nat.min_l by lia.
  replace (S i - i) with 1 by lia.
  rewrite firstn_firstn, Nat.min_r by lia. reflexivity.
Qed.

Lemma valid_point_child (t : string) (a : list (string * string)) (s : css)
      (cs : list node) (i : nat) (p : path) (off : nat) (c : node) :
  nth_error cs i = Some c ->
  valid_point (Elem t a s cs) (Point (i :: p) off) = valid_point c (Point p off).
Proof. intros H. unfold valid_point. simpl. now rewrite H. Qed.

(** Extraction takes the text between the two points out of the tree,
    and the range collapses where that text was. *)
Lemma extract_text (so eo : nat) :
  forall ps pe n n1 frag pt,
    valid_point n (Point ps so) = true ->
    get n pe <> None ->
    point_leb ps so pe eo = true ->
    extract ps so pe eo n = (n1, frag, pt) ->
    exists B,
      textContent n
      = String.append (text_before ps so n) (String.append (textContents frag) B)
      /\ textContent n1 = String.append (text_before ps so n) B
      /\ text_before (container pt) (offset pt) n1 = text_before ps so n.
Proof.
  induction ps as [|i ps IH]; intros pe n n1 frag pt Hv He Hle Hx.
  - destruct pe as [|j pe].
    + (* both points in [n] itself *)
      simpl in Hle. apply Nat.leb_le in Hle.
      unfold valid_point in Hv. simpl in Hv. apply Nat.leb_le in Hv.
      destruct n as [d|t a s cs]; simpl in Hx; inversion Hx; subst; clear Hx.
      * exists (str_drop eo d). cbn [text_before container offset textContent].
        rewrite textContents_single. cbn [textContent].
        repeat split.
        -- symmetry. now apply str_take_mid_drop.
        -- now apply str_take_take_append.
      * exists (textContents (skipn eo cs)).
        rewrite !textContent_Elem. cbn [text_before container offset].
        rewrite textContents_app. repeat split.
        -- rewrite <- (textContents_firstn_skipn so cs) at 1. f_equal.
           now apply textContents_skipn_upto.
        -- now rewrite firstn_firstn_app.
    + (* the end point lies below child [j] *)
      simpl in Hle. apply Nat.leb_le in Hle.
      destruct (get_Some_child n j pe He) as [t [a [s [cs [cj [-> [Hj Hcj]]]]]]].
      simpl in Hx. rewrite Hj in Hx.
      destruct (split_at pe eo cj) as [y k] eqn:E. inversion Hx; subst; clear Hx.
      destruct (split_at_text eo pe cj y k Hcj E) as [H1 _].
      exists (String.append (textContent k) (textContents (skipn (S j) cs))).
      rewrite !textContent_Elem. cbn [text_before container offset].
      rewrite !textContents_app, textContents_single, textContents_cons.
      assert (Hlen : so <= List.length cs).
      { apply Nat.lt_le_incl. eapply Nat.le_lt_trans; [exact Hle|].
        eapply nth_error_Some_lt; eauto. }
      repeat split.
      * rewrite <- (textContents_firstn_skipn so cs) at 1. f_equal.
        rewrite (textContents_skipn_child so j cs cj Hle Hj), <- H1.
        now rewrite !str_append_assoc.
      * now rewrite firstn_firstn_app.
  - (* the start point lies below child [i] *)
    assert (Hs : get n (i :: ps) <> None)
      by (apply (valid_point_get n (Point (i :: ps) so)); exact Hv).
    destruct (get_Some_child n i ps Hs) as [t [a [s [cs [ci [-> [Hi Hci]]]]]]].
    rewrite (valid_point_child t a s cs i ps so ci Hi) in Hv.
    assert (Hilt : i < List.length cs) by (eapply nth_error_Some_lt; eauto).
    destruct pe as [|j pe].
    + simpl in Hle. apply Nat.ltb_lt in Hle.
      simpl in Hx. rewrite Hi in Hx.
      destruct (split_at ps so ci) as [k x] eqn:E. inversion Hx; subst; clear Hx.
      destruct (split_at_text so ps ci k x Hci E) as [H1 H2].
      exists (textContents (skipn eo cs)).
      rewrite !textContent_Elem. cbn [text_before container offset children]. rewrite Hi.
      rewrite !textContents_app, !textContents_cons, <- H2.
      repeat split.
      * rewrite (textContents_child cs i ci Hi), <- H1.
        rewrite (textContents_skipn_upto (S i) eo cs) by lia.
        now rewrite !str_append_assoc.
      * now rewrite !str_append_assoc.
      * rewrite firstn_S_firstn_app by exact Hilt.
        now rewrite textContents_app, textContents_single.
    + simpl in Hle, Hx. destruct (Nat.eqb i j) eqn:Eij.
      * (* both points below the same child *)
        apply Nat.eqb_eq in Eij. subst j. rewrite Hi in Hx.
        assert (Hce : get ci pe <> None).
        { simpl in He. now rewrite Hi in He. }
        destruct (extract ps so pe eo ci) as [[c' frag'] pt'] eqn:E.
        inversion Hx; subst; clear Hx.
        destruct (IH pe ci c' frag pt' Hv Hce Hle E) as [B [HB1 [HB2 HB3]]].
        exists (String.append B (textContents (skipn (S i) cs))).
        rewrite !textContent_Elem. cbn [text_before container offset children].
        rewrite Hi, nth_error_replace_nth_same by exact Hilt.
        unfold replace_nth. rewrite firstn_firstn_app by lia.
        rewrite textContents_app, textContents_cons, HB2, HB3.
        repeat split.
        -- rewrite (textContents_child cs i ci Hi), HB1.
           now rewrite !str_append_assoc.
        -- now rewrite !str_append_assoc.
      * (* the points lie below different children *)
        apply Nat.ltb_lt in Hle. rewrite Hi in Hx.
        destruct (get_Some_child _ j pe He) as [t0 [a0 [s0 [cs0 [cj [E0 [Hj Hcj]]]]]]].
        inversion E0; subst t0 a0 s0 cs0. rewrite Hj in Hx.
        destruct (split_at ps so ci) as [k x] eqn:E1.
        destruct (split_at pe eo cj) as [y k'] eqn:E2.
        inversion Hx; subst; clear Hx.
        destruct (split_at_text so ps ci k x Hci E1) as [H1 H2].
        destruct (split_at_text eo pe cj y k' Hcj E2) as [H3 _].
        exists (String.append (textContent k') (textContents (skipn (S j) cs))).
        rewrite !textContent_Elem. cbn [text_before container offset children]. rewrite Hi.
        repeat (rewrite textContents_app || rewrite textContents_single
                || rewrite textContents_cons).
        rewrite <- H2.
        repeat split.
        -- rewrite (textContents_child cs i ci Hi), <- H1.
           rewrite (textContents_skipn_child (S i) j cs cj) by (lia || exact Hj).
           rewrite <- H3. now rewrite !str_append_assoc.
        -- now rewrite !str_append_assoc.
        -- rewrite firstn_S_firstn_app by exact Hilt.
           now rewrite textContents_app, textContents_single.
Qed.


(** Insertion puts the text of the new nodes at the point. *)
Lemma insert_text (off : nat) (new : list node) :
  forall p n n' loc R,
    is_text n = false -> get n p <> None ->
    insert_at p off new n = (n', loc) ->
    textContent n = String.append (text_before p off n) R ->
    textContent n'
    = String.append (text_before p off n) (String.append (textContents new) R).
Proof.
  induction p as [|i p IH]; intros n n' loc R Hel Hg Hins HR.
  - destruct n as [d|t a s cs]; [discriminate|]. simpl in Hins.
    inversion Hins; subst; clear Hins.
    rewrite textContent_Elem in *. cbn [text_before] in *.
    rewrite <- (textContents_firstn_skipn off cs) in HR at 1.
    apply str_append_cancel_l in HR. subst R.
    now rewrite !textContents_app.
  - destruct (get_Some_child n i p Hg) as [t [a [s [cs [ci [-> [Hi Hci]]]]]]].
    cbn [insert_at] in Hins. rewrite Hi in Hins.
    rewrite textContent_Elem in HR. cbn [text_before children] in *. rewrite Hi in *.
    rewrite (textContents_child cs i ci Hi), str_append_assoc in HR.
    apply str_append_cancel_l in HR.
    destruct ci as [d|t' a' s' cs'].
    + destruct p as [|j p]; [|exfalso; apply Hci; now destruct j].
      inversion Hins; subst; clear Hins.
      rewrite textContent_Elem.
      cbn [text_before textContent] in HR |- *.
      rewrite <- (str_take_drop off d) in HR at 1.
      rewrite str_append_assoc in HR. apply str_append_cancel_l in HR. subst R.
      repeat (rewrite textContents_app || rewrite textContents_cons).
      cbn [textContent]. now rewrite !str_append_assoc.
    + destruct (insert_at p off new (Elem t' a' s' cs')) as [c' loc'] eqn:E.
      destruct loc' as [q k]. inversion Hins; subst; clear Hins.
      destruct (text_before_prefix off p (Elem t' a' s' cs') Hci) as [R' HR'].
      rewrite HR', str_append_assoc in HR. apply str_append_cancel_l in HR. subst R.
      rewrite textContent_Elem. unfold replace_nth.
      rewrite textContents_app, textContents_cons,
        (IH (Elem t' a' s' cs') c' (q, k) R' eq_refl Hci E HR').
      now rewrite !str_append_assoc.
Qed.

Lemma replace_nth_at_length (l1 l2 : list node) (x y : node) :
  replace_nth (List.length l1) y (l1 ++ x :: l2) = l1 ++ y :: l2.
Proof.
  unfold replace_nth. induction l1 as [|a l1 IH]; [reflexivity|].
  cbn [List.length app firstn skipn]. cbn [skipn] in IH. now rewrite IH.
Qed.

Lemma replace_nth_twice (i : nat) (x y : node) (cs : list node) :
  i < List.length cs -> replace_nth i y (replace_nth i x cs) = replace_nth i y cs.
Proof.
  intros H. unfold replace_nth at 2.
  assert (Hl : List.length (firstn i cs) = i)
    by (rewrite length_firstn; lia).
  rewrite <- Hl at 1. rewrite replace_nth_at_length. reflexivity.
Qed.

Lemma update_at_cons (f : node -> node) (t : string) (a : list (string * string))
      (s : css) (cs : list node) (i : nat) (q : path) (c : node) :
  nth_error cs i = Some c ->
  update_at (i :: q) f (Elem t a s cs) = Elem t a s (replace_nth i (update_at q f c) cs).
Proof. intros H. simpl. now rewrite H. Qed.

(** Updating the node just inserted is inserting the updated node. *)
Lemma update_inserted (off : nat) (f : node -> node) (x : node) :
  forall p n n2 par idx,
    is_text n = false -> get n p <> None ->
    insert_at p off [x] n = (n2, (par, idx)) ->
    update_at (par ++ [idx]) f n2 = fst (insert_at p off [f x] n).
Proof.
  induction p as [|i p IH]; intros n n2 par idx Hel Hg Hins.
  - destruct n as [d|t a s cs]; [discriminate|]. cbn [insert_at] in Hins |- *.
    inversion Hins; subst; clear Hins. cbn [app fst].
    rewrite (update_at_cons f t a s _ _ [] x)
      by (rewrite nth_error_app2, Nat.sub_diag by lia; reflexivity).
    cbn [update_at]. now rewrite replace_nth_at_length.
  - destruct (get_Some_child n i p Hg) as [t [a [s [cs [ci [-> [Hi Hci]]]]]]].
    assert (Hilt : i < List.length cs) by (eapply nth_error_Some_lt; eauto).
    assert (Hlen : List.length (firstn i cs) = i) by (rewrite length_firstn; lia).
    cbn [insert_at] in Hins |- *. rewrite Hi in *.
    destruct ci as [d|t' a' s' cs'].
    + inversion Hins; subst; clear Hins. cbn [app fst].
      set (l1 := firstn i cs ++ [Text (str_take off d)]).
      assert (El : forall z rest,
                 firstn i cs ++ Text (str_take off d) :: z :: rest = l1 ++ z :: rest).
      { intros. unfold l1. now rewrite <- app_assoc. }
      rewrite !El.
      assert (Hl1 : List.length l1 = S i)
        by (unfold l1; rewrite length_app, Hlen; simpl; lia).
      assert (Hn : forall rest, nth_error (l1 ++ x :: rest) (S i) = Some x).
      { intros rest. rewrite nth_error_app2 by lia.
        replace (S i - List.length l1) with 0 by lia. reflexivity. }
      rewrite (update_at_cons f t a s _ (S i) [] x (Hn _)).
      cbn [update_at]. rewrite <- Hl1 at 1. now rewrite replace_nth_at_length.
    + destruct (insert_at p off [x] (Elem t' a' s' cs')) as [c' [q k]] eqn:E.
      inversion Hins; subst; clear Hins.
      pose proof (IH (Elem t' a' s' cs') c' q idx eq_refl Hci E) as IH'.
      destruct (insert_at p off [f x] (Elem t' a' s' cs')) as [c'' [q'' k'']] eqn:E'.
      cbn [fst] in *.
      change ((i :: q) ++ [idx]) with (i :: (q ++ [idx])).
      rewrite (update_at_cons f t a s _ i (q ++ [idx]) c')
        by (now apply nth_error_replace_nth_same).
      rewrite IH'. now rewrite replace_nth_twice.
Qed.

End TextPreservation.

Section EditedText.
Context {host : Host}.

Lemma textContent_children (n : node) :
  is_text n = false -> textContent n = textContents (children n).
Proof. destruct n; [discriminate | reflexivity]. Qed.

Lemma textContent_bookkeeping (root : node) :
  is_text root = false -> textContent (bookkeeping root) = textContent root.
Proof.
  intros H. destruct root as [d|t a s cs]; [discriminate|].
  unfold bookkeeping. destruct (negb _); reflexivity.
Qed.

(** The text of the tree around a valid range, and what is left of it
    once the contents of the range are extracted. *)
Lemma extractContents_text (r : Range) (root root1 : node) (frag : list node) (pt : point) :
  valid_range root r = true ->
  extractContents r root = (root1, frag, pt) ->
  exists B,
    textContent root
    = String.append (text_before (container (startPoint r)) (offset (startPoint r)) root)
        (String.append (textContents frag) B)
    /\ textContent root1
       = String.append (text_before (container (startPoint r)) (offset (startPoint r)) root) B
    /\ text_before (container pt) (offset pt) root1
       = text_before (container (startPoint r)) (offset (startPoint r)) root.
Proof.
  intros Hv Hx. pose proof Hv as Hv'. unfold valid_range in Hv'.
  rewrite !andb_true_iff in Hv'. destruct Hv' as [[Hs He] Hle].
  destruct (valid_range_points root r Hv) as [Hgs Hge].
  unfold extractContents in Hx. destruct (collapsed r).
  - inversion Hx; subst.
    destruct (text_before_prefix (offset (startPoint r)) (container (startPoint r)) root1 Hgs)
      as [B HB].
    exists B. split; [|split; [exact HB | reflexivity]].
    rewrite HB at 1. reflexivity.
  - destruct r as [[ps so] [pe eo]]. cbn [startPoint endPoint container offset] in *.
    exact (extract_text so eo ps pe root root1 frag pt Hs Hge Hle Hx).
Qed.

(** Inserting nodes where an extraction collapsed puts their text in
    the place of the extracted text. *)
Lemma insert_after_extract_text
    (r : Range) (root root1 root2 : node) (frag new : list node) (pt : point) (loc : path * nat) :
  is_text root = false ->
  valid_range root r = true ->
  extractContents r root = (root1, frag, pt) ->
  insertNode pt new root1 = (root2, loc) ->
  exists B,
    textContent root
    = String.append (text_before (container (startPoint r)) (offset (startPoint r)) root)
        (String.append (textContents frag) B)
    /\ textContent root2
       = String.append (text_before (container (startPoint r)) (offset (startPoint r)) root)
           (String.append (textContents new) B).
Proof.
  intros Hel Hv Hx Hins.
  destruct (extractContents_text r root root1 frag pt Hv Hx) as [B [H1 [H2 H3]]].
  destruct (extractContents_container r root root1 frag pt Hv Hx) as [Hel1 Hpt].
  rewrite Hel in Hel1. rewrite <- H3 in H2.
  exists B. split; [exact H1|]. rewrite <- H3.
  exact (insert_text (offset pt) new (container pt) root1 root2 loc B Hel1 Hpt Hins H2).
Qed.

(** Inserting nodes at a point puts their text between the text before
    the point and the rest. *)
Lemma insertNode_text
    (pt : point) (new : list node) (root1 root2 : node) (loc : path * nat) (A B : string) :
  is_text root1 = false ->
  get root1 (container pt) <> None ->
  insertNode pt new root1 = (root2, loc) ->
  text_before (container pt) (offset pt) root1 = A ->
  textContent root1 = String.append A B ->
  textContent root2 = String.append A (String.append (textContents new) B).
Proof.
  intros Hel Hpt Hins HA HB. subst A.
  exact (insert_text (offset pt) new (container pt) root1 root2 loc B Hel Hpt Hins HB).
Qed.

End EditedText.

Section InsertionFacts.
Context {host : Host}.

(** C5 (amended): on a mounted, focused editor without children, with
    the caret at its start, and for a URL that is not blank after
    trimming: part_000 leaves exactly one child, a paragraph with
    [text-align: center] holding the image and then a line break, the
    caret right after that paragraph, and ends with an emission;
    CKEditor.tsx leaves the bare image as the only child, the caret
    right after it, and ends with an emission. *)
Theorem C5_insertImage_in_empty_document
    (url : string) (st : State) (t : string) (a : list (string * string)) (s : css) :
  editorRef st = Some (Elem t a s []) ->
  hasFocus st = true ->
  selection st = Some (caret (Point [] 0)) ->
  truthy (trim url) = true ->
  (exists root',
     editorRef (Part0.insertImageFromUrl url st) = Some root'
     /\ children root'
        = [Elem "P" [] [("text-align", "center")] [Part0.make_img url; BR]]
     /\ selection (Part0.insertImageFromUrl url st) = Some (caret (Point [] 1))
     /\ effects (Part0.insertImageFromUrl url st)
        = effects st ++ [OnChange (serializeHTML (children root'))])
  /\
  (exists root',
     editorRef (Client.insertImageFromUrl url st) = Some root'
     /\ children root' = [Client.make_img url]
     /\ selection (Client.insertImageFromUrl url st) = Some (caret (Point [] 1))
     /\ effects (Client.insertImageFromUrl url st)
        = effects st ++ [OnChange (serializeHTML (children root'))]).
Proof.
  intros Hroot Hfocus Hsel Hurl. split.
  - unfold Part0.insertImageFromUrl. rewrite Hroot, Hurl, Hsel.
    cbn [negb]. cbv beta iota zeta.
    change (deleteContents (caret (Point [] 0)) (Elem t a s []))
      with (Elem t a s [], Point [] 0).
    cbv beta iota zeta.
    change (insertNode (Point [] 0)
              [Part0.appendChild (Part0.make_img url)
                 (Elem "P" [] [("text-align", "center")] [])] (Elem t a s []))
      with (Elem t a s [Elem "P" [] [("text-align", "center")] [Part0.make_img url]],
            (@nil nat, 0)).
    cbv beta iota zeta.
    change (update_at ([] ++ [0]) (Part0.appendChild BR)
              (Elem t a s [Elem "P" [] [("text-align", "center")] [Part0.make_img url]]))
      with (Elem t a s [Elem "P" [] [("text-align", "center")] [Part0.make_img url; BR]]).
    unfold focus. state_simpl. rewrite Hfocus.
    set (r := Elem t a s [Elem "P" [] [("text-align", "center")] [Part0.make_img url; BR]]).
    rewrite (handleInput_mounted _ r) by reflexivity.
    exists (bookkeeping r). state_simpl. rewrite children_bookkeeping.
    repeat split.
  - unfold Client.insertImageFromUrl. rewrite Hroot, Hurl, Hsel.
    cbn [negb]. cbv beta iota zeta.
    change (deleteContents (caret (Point [] 0)) (Elem t a s []))
      with (Elem t a s [], Point [] 0).
    cbv beta iota zeta.
    change (insertNode (Point [] 0) [Client.make_img url] (Elem t a s []))
      with (Elem t a s [Client.make_img url], (@nil nat, 0)).
    cbv beta iota zeta.
    unfold focus. state_simpl. rewrite Hfocus.
    set (r := Elem t a s [Client.make_img url]).
    rewrite (handleInput_mounted _ r) by reflexivity.
    exists (bookkeeping r). state_simpl. rewrite children_bookkeeping.
    repeat split.
Qed.

Lemma sanitized_fragment_safe (html : string) :
  Forall (fun c => is_unsafe c = false /\ descendants_safe c = true)
    (Part0.sanitized_fragment html).
Proof.
  unfold Part0.sanitized_fragment.
  pose proof (remove_matching_safe (Elem "DIV" [] [] (parseHTML html))) as H.
  set (n := remove_matching is_unsafe (Elem "DIV" [] [] (parseHTML html))) in *.
  destruct n as [d|t a s cs]; [constructor|].
  simpl in *. rewrite forallb_forall in H. apply Forall_forall.
  intros c Hc. specialize (H c Hc). apply andb_true_iff in H.
  destruct H as [H1 H2]. split; [now apply negb_true_iff | exact H2].
Qed.

(** C7 (amended): a paste over a valid selection, whose contents are
    deleted first; [A] is the text before the selection and [B] the text
    after it.  part_000: when the markup flavour is not blank, the
    parsed markup without its [script], [style], [iframe], [object] and
    [embed] elements (none is left at any depth) is inserted where the
    deleted range collapsed, its top-level nodes side by side, so that
    the text of the document becomes [A], the text of those nodes, [B];
    when the markup flavour is blank and the text flavour is not empty,
    one text node with that text is inserted there, the caret follows
    it, and the text of the document becomes [A], the text, [B].
    CKEditor.tsx: whatever the flavours, one text node with the text
    flavour is inserted there and the caret follows it. *)
Theorem C7_paste_by_flavour
    (e : Clipboard) (st : State) (root : node) (range : Range) (root1 : node) (pt : point) :
  editorRef st = Some root ->
  is_text root = false ->
  selection st = Some range ->
  valid_range root range = true ->
  deleteContents range root = (root1, pt) ->
  let A := text_before (container (startPoint range)) (offset (startPoint range)) root in
  exists B,
    textContent root = String.append A (String.append (Range_toString range root) B)
    /\
    (truthy (trim (text_html e)) = true ->
     Forall (fun c => is_unsafe c = false /\ descendants_safe c = true)
       (Part0.sanitized_fragment (text_html e))
     /\ exists root' par idx,
          editorRef (Part0.handlePaste e st) = Some root'
          /\ insertNode pt (Part0.sanitized_fragment (text_html e)) root1 = (root', (par, idx))
          /\ (forall k c, nth_error (Part0.sanitized_fragment (text_html e)) k = Some c ->
                          get root' (par ++ [idx + k]) = Some c)
          /\ textContent root'
             = String.append A
                 (String.append (textContents (Part0.sanitized_fragment (text_html e))) B))
    /\
    (truthy (trim (text_html e)) = false -> truthy (text_plain e) = true ->
     exists root' par idx,
       editorRef (Part0.handlePaste e st) = Some root'
       /\ get root' (par ++ [idx]) = Some (Text (text_plain e))
       /\ selection (Part0.handlePaste e st) = Some (caret (Point par (S idx)))
       /\ textContent root' = String.append A (String.append (text_plain e) B))
    /\
    (exists root' par idx,
       editorRef (Client.handlePaste e st) = Some root'
       /\ get root' (par ++ [idx]) = Some (Text (text_plain e))
       /\ selection (Client.handlePaste e st) = Some (caret (Point par (S idx)))
       /\ textContent root' = String.append A (String.append (text_plain e) B)).
Proof.
  intros Hroot Hel Hsel Hvalid Hdel A.
  destruct (deleteContents_container range root root1 pt Hvalid Hdel) as [Hel1 Hpt].
  rewrite Hel in Hel1.
  unfold deleteContents in Hdel.
  destruct (extractContents range root) as [[r1 frag] pt1] eqn:Hext.
  inversion Hdel; subst r1 pt1; clear Hdel.
  assert (Hdel : deleteContents range root = (root1, pt))
    by (unfold deleteContents; now rewrite Hext).
  destruct (extractContents_text range root root1 frag pt Hvalid Hext) as [B [HB1 [HB2 HB3]]].
  fold A in HB1, HB2, HB3.
  exists B. split; [unfold Range_toString; rewrite Hext; exact HB1|].
  assert (Htext : exists root2 par idx,
             insertNode pt [Text (text_plain e)] root1 = (root2, (par, idx))
             /\ get (bookkeeping root2) (par ++ [idx]) = Some (Text (text_plain e))
             /\ textContent (bookkeeping root2)
                = String.append A (String.append (text_plain e) B)).
  { destruct (insertNode pt [Text (text_plain e)] root1) as [root2 [par idx]] eqn:E.
    exists root2, par, idx. split; [reflexivity|].
    destruct (insertNode_get_single pt _ root1 root2 par idx Hel1 Hpt E) as [Hel2 Hg].
    rewrite get_bookkeeping by (destruct par; discriminate).
    split; [exact Hg|].
    rewrite (textContent_bookkeeping root2 Hel2).
    rewrite (insertNode_text pt _ root1 root2 (par, idx) A B Hel1 Hpt E HB3 HB2).
    now rewrite textContents_single. }
  split; [|split].
  - intros Hhtml. split; [apply sanitized_fragment_safe|].
    destruct (insertNode pt (Part0.sanitized_fragment (text_html e)) root1)
      as [root' [par idx]] eqn:E.
    exists root', par, idx.
    split; [|split; [reflexivity|split]].
    + unfold Part0.handlePaste. rewrite Hroot, Hsel, Hdel, Hhtml, (trim_truthy _ Hhtml).
      cbn [andb]. rewrite E. reflexivity.
    + exact (proj2 (insertNode_get pt _ root1 root' par idx Hel1 Hpt E)).
    + exact (insertNode_text pt _ root1 root' (par, idx) A B Hel1 Hpt E HB3 HB2).
  - intros Hhtml Htxt. destruct Htext as [root2 [par [idx [E [Hg HT]]]]].
    exists (bookkeeping root2), par, idx.
    assert (Hp : Part0.handlePaste e st
                 = handleInput
                     (set_selection (Some (caret (Point par (S idx)))) (set_editor root2 st))).
    { unfold Part0.handlePaste. rewrite Hroot, Hsel, Hdel, Hhtml, Htxt.
      rewrite andb_false_r. rewrite E. reflexivity. }
    rewrite Hp, (handleInput_mounted _ root2) by reflexivity.
    split; [reflexivity|]. split; [exact Hg|]. split; [reflexivity | exact HT].
  - destruct Htext as [root2 [par [idx [E [Hg HT]]]]].
    exists (bookkeeping root2), par, idx.
    assert (Hp : Client.handlePaste e st
                 = handleInput
                     (set_selection (Some (caret (Point par (S idx)))) (set_editor root2 st))).
    { unfold Client.handlePaste. rewrite Hsel, Hroot, Hdel, E. reflexivity. }
    rewrite Hp, (handleInput_mounted _ root2) by reflexivity.
    split; [reflexivity|]. split; [exact Hg|]. split; [reflexivity | exact HT].
Qed.

End InsertionFacts.

Section LinkFacts.
Context {host : Host}.

Lemma display_text_nonempty (st : State) :
  truthy (trim (linkUrl st)) = true -> truthy (display_text st) = true.
Proof.
  intros H. unfold display_text, str_or.
  destruct (truthy (trim (linkText st))) eqn:E; [exact E | now apply trim_truthy].
Qed.

Lemma make_link_shape (st : State) :
  truthy (trim (linkUrl st)) = true ->
  make_link st
  = Elem "A"
      [("href", linkUrl st); ("target", "_blank"); ("rel", "noopener noreferrer")]
      [("color", "#92400e"); ("text-decoration", "underline")]
      [Text (display_text st)].
Proof.
  intros H. apply display_text_nonempty in H. unfold make_link.
  fold (display_text st). now destruct (display_text st).
Qed.

(** C6 (amended): for a URL that is not blank after trimming and a valid,
    non-collapsed selection, [insertLink] (the same in both copies) leaves
    an [a] element with the given [href] in the tree and the caret right
    after it; [A] is the text before the selection and [B] the text after
    it.  When no element is partially contained in the range, the link's
    children are the extracted contents of the range and the text of the
    document is unchanged: the link shows the selected text and the
    display text of the dialog is dropped.  When some element is
    partially contained, the contents of the range are deleted and the
    link holds one text node with the display text, which is the URL when
    the trimmed text of the dialog is empty; the text of the document
    becomes [A], the display text, [B]. *)
Theorem C6_insertLink_on_selected_range (st : State) (root : node) (range : Range) :
  editorRef st = Some root ->
  is_text root = false ->
  truthy (trim (linkUrl st)) = true ->
  selection st = Some range ->
  collapsed range = false ->
  valid_range root range = true ->
  let A := text_before (container (startPoint range)) (offset (startPoint range)) root in
  exists root' par idx link B,
    editorRef (insertLink st) = Some root'
    /\ selection (insertLink st) = Some (caret (Point par (S idx)))
    /\ get root' (par ++ [idx]) = Some link
    /\ tag_of link = Some "A"
    /\ assoc_get "href" (attrs_of link) = Some (linkUrl st)
    /\ textContent root = String.append A (String.append (Range_toString range root) B)
    /\ (partially_contains_element (container (startPoint range))
          (container (endPoint range)) root = false ->
        children link = snd (fst (extractContents range root))
        /\ textContent link = Range_toString range root
        /\ textContent root' = textContent root)
    /\ (partially_contains_element (container (startPoint range))
          (container (endPoint range)) root = true ->
        children link = [Text (display_text st)]
        /\ textContent root' = String.append A (String.append (display_text st) B)
        /\ (truthy (trim (linkText st)) = false -> display_text st = linkUrl st)).
Proof.
  intros Hroot Hel Hurl Hsel Hcoll Hvalid A.
  pose proof (make_link_shape st Hurl) as Hlink.
  set (link := make_link st) in *.
  destruct (extractContents range root) as [[root1 frag] pt] eqn:Hext.
  destruct (extractContents_container range root root1 frag pt Hvalid Hext) as [Hel1 Hpt].
  rewrite Hel in Hel1.
  destruct (extractContents_text range root root1 frag pt Hvalid Hext) as [B [HB1 [HB2 HB3]]].
  fold A in HB1, HB2, HB3.
  assert (HR : Range_toString range root = textContents frag)
    by (unfold Range_toString; now rewrite Hext).
  destruct (partially_contains_element (container (startPoint range))
              (container (endPoint range)) root) eqn:Hpc.
  - (* delete and insert *)
    assert (Hdel : deleteContents range root = (root1, pt))
      by (unfold deleteContents; now rewrite Hext).
    destruct (insertNode pt [link] root1) as [root2 [par idx]] eqn:Hins.
    destruct (insertNode_get_single pt link root1 root2 par idx Hel1 Hpt Hins) as [Hel2 Hg].
    assert (E : insertLink st
                = setShowLinkDialog false
                    (setLinkText "" (setLinkUrl ""
                       (handleInput
                          (set_selection (Some (caret (Point par (S idx))))
                             (set_editor root2 st)))))).
    { unfold insertLink. rewrite Hroot, Hurl, Hsel, Hcoll. cbn [negb].
      unfold surroundContents. fold link. rewrite Hpc, Hdel, Hins. reflexivity. }
    exists (bookkeeping root2), par, idx, link, B.
    rewrite E, (handleInput_mounted _ root2) by reflexivity. state_simpl.
    rewrite get_bookkeeping by (destruct par; discriminate).
    rewrite (textContent_bookkeeping root2 Hel2).
    rewrite (insertNode_text pt _ root1 root2 (par, idx) A B Hel1 Hpt Hins HB3 HB2).
    rewrite textContents_single, HR, Hlink.
    rewrite Hlink in Hg.
    split; [reflexivity|]. split; [reflexivity|]. split; [exact Hg|].
    split; [reflexivity|]. split; [reflexivity|]. split; [exact HB1|].
    split; [discriminate|]. intros _.
    split; [reflexivity|]. split.
    + cbn [textContent fold_right]. now rewrite str_append_nil_r.
    + intros Hblank. unfold display_text, str_or. now rewrite Hblank.
  - (* surroundContents *)
    set (link0 := set_children [] link).
    set (linkF := set_children frag link0).
    destruct (insertNode pt [link0] root1) as [root2 [par idx]] eqn:Hins.
    destruct (insertNode_get_single pt link0 root1 root2 par idx Hel1 Hpt Hins) as [_ Hg].
    set (root3 := update_at (par ++ [idx]) (set_children frag) root2).
    assert (E : insertLink st
                = setShowLinkDialog false
                    (setLinkText "" (setLinkUrl ""
                       (handleInput
                          (set_selection (Some (caret (Point par (S idx))))
                             (set_editor root3 st)))))).
    { unfold insertLink. rewrite Hroot, Hurl, Hsel, Hcoll. cbn [negb].
      unfold surroundContents. fold link. rewrite Hpc, Hext. fold link0.
      rewrite Hins. reflexivity. }
    destruct (insertNode pt [linkF] root1) as [r3 loc3] eqn:Hins3.
    assert (H3 : root3 = r3).
    { unfold root3. unfold insertNode in Hins, Hins3.
      rewrite (update_inserted (offset pt) (set_children frag) link0
                 (container pt) root1 root2 par idx Hel1 Hpt Hins).
      fold linkF. now rewrite Hins3. }
    assert (HT3 : textContent root3 = textContent root).
    { rewrite H3, HB1.
      rewrite (insertNode_text pt _ root1 r3 loc3 A B Hel1 Hpt Hins3 HB3 HB2).
      rewrite textContents_single. unfold linkF, link0. rewrite Hlink. reflexivity. }
    assert (Hel3 : is_text root3 = false).
    { rewrite H3. destruct loc3 as [q3 k3].
      exact (proj1 (insertNode_get_single pt linkF root1 r3 q3 k3 Hel1 Hpt Hins3)). }
    exists (bookkeeping root3), par, idx, linkF, B.
    rewrite E, (handleInput_mounted _ root3) by reflexivity. state_simpl.
    rewrite get_bookkeeping by (destruct par; discriminate).
    rewrite (textContent_bookkeeping root3 Hel3), HT3, HR.
    split; [reflexivity|]. split; [reflexivity|].
    split; [unfold root3; now rewrite (get_update_at_same _ _ _ _ Hg)|].
    unfold linkF, link0. rewrite Hlink. cbn [set_children tag_of attrs_of children fst snd].
    split; [reflexivity|]. split; [reflexivity|]. split; [exact HB1|].
    split; [|discriminate]. intros _.
    split; [reflexivity|]. split; reflexivity.
Qed.

End LinkFacts.

(* ================================================================== *)
(** * Further properties of the two copies of the editor *)
(* ================================================================== *)

Section StringFacts.

Lemma starts_with_append (p s b : string) :
  starts_with p s = true -> starts_with p (String.append s b) = true.
Proof.
  revert s. induction p as [|c p IH]; intros s H; [reflexivity|].
  destruct s as [|d s]; [discriminate|]. simpl in *.
  apply andb_true_iff in H. destruct H as [H1 H2].
  now rewrite H1, (IH s H2).
Qed.

Lemma includes_append_r (p s b : string) :
  includes p s = true -> includes p (String.append s b) = true.
Proof.
  induction s as [|d s IH]; intros H.
  - simpl in H. rewrite orb_false_r in H. destruct p; [|discriminate].
    destruct b; reflexivity.
  - simpl in H. apply orb_true_iff in H. destruct H as [H|H].
    + change (String.append (String d s) b) with (String d (String.append s b)).
      cbn [includes]. change (String d (String.append s b))
        with (String.append (String d s) b).
      now rewrite (starts_with_append p (String d s) b H).
    + change (String.append (String d s) b) with (String d (String.append s b)).
      cbn [includes]. rewrite (IH H). apply orb_true_r.
Qed.

Lemma includes_append_l (p a s : string) :
  includes p s = true -> includes p (String.append a s) = true.
Proof.
  intros H. induction a as [|c a IH]; [exact H|].
  change (String.append (String c a) s) with (String c (String.append a s)).
  cbn [includes]. rewrite IH. apply orb_true_r.
Qed.

(** [includes] survives any text put around the string. *)
Lemma includes_wrapped (p a s b : string) :
  includes p s = true ->
  includes p (String.append a (String.append s b)) = true.
Proof. intros H. now apply includes_append_l, includes_append_r. Qed.

Lemma assoc_set_same_value (k v : string) (l : list (string * string)) :
  assoc_get k l = Some v -> assoc_set k v l = l.
Proof.
  induction l as [|[k' v'] l IH]; simpl; [discriminate|].
  destruct (String.eqb k k') eqn:E.
  - apply String.eqb_eq in E. subst k'. intros H. now inversion H.
  - intros H. now rewrite IH.
Qed.

End StringFacts.


Section ReconcileMore.
Context {host : Host}.

Lemma effects_handleFocus (st : State) : effects (handleFocus st) = effects st.
Proof.
  unfold handleFocus. destruct (editorRef st); [|reflexivity]. cbv zeta.
  match goal with |- context [if ?c then _ else _] => destruct c end; reflexivity.
Qed.

(** [focus()] changes the editor element, the selection and the focus
    flag at most. *)
Lemma focus_frame (st : State) :
  imageFile (focus st) = imageFile st
  /\ uploadingImage (focus st) = uploadingImage st
  /\ imageUrl (focus st) = imageUrl st
  /\ effects (focus st) = effects st.
Proof.
  unfold focus. destruct (hasFocus st); [repeat split|]. cbv zeta.
  assert (H : imageFile (handleFocus (set_hasFocus true st)) = imageFile st
              /\ uploadingImage (handleFocus (set_hasFocus true st)) = uploadingImage st
              /\ imageUrl (handleFocus (set_hasFocus true st)) = imageUrl st
              /\ effects (handleFocus (set_hasFocus true st)) = effects st).
  { unfold handleFocus. state_simpl. destruct (editorRef st); [|repeat split]. cbv zeta.
    match goal with |- context [if ?c then _ else _] => destruct c end; repeat split. }
  destruct (editorRef (handleFocus (set_hasFocus true st))); [|exact H].
  destruct (selection (handleFocus (set_hasFocus true st))); [exact H|].
  destruct (focusCaret n); [|exact H]. state_simpl. exact H.
Qed.

Lemma effects_focus (st : State) : effects (focus st) = effects st.
Proof. apply focus_frame. Qed.

Lemma focus_when_focused (st : State) : hasFocus st = true -> focus st = st.
Proof. intros H. unfold focus. now rewrite H. Qed.

(** The loop finds no leaf when the text is shorter than the position. *)
Lemma restore_walk_too_short (leaves : list (path * string)) :
  forall k c, c + leaves_length leaves < k -> restore_walk leaves k c = None.
Proof.
  induction leaves as [|[p d] rest IH]; intros k c H; simpl in *; [reflexivity|].
  destruct (Nat.leb k (c + String.length d)) eqn:E.
  - apply Nat.leb_le in E. lia.
  - apply IH. lia.
Qed.

(** What a reconciliation with a different value leaves, for a given
    result of the restore loop. *)
Lemma reconcile_changed (value : string) (st : State) (root : node) :
  editorRef st = Some root ->
  value <> innerHTML root ->
  let st1 := set_innerHTML value st in
  reconcile value st
  = if hasFocus st && Nat.ltb 0 (saved_cursorPosition st) then
      match restore_walk (text_leaves (set_children (parseHTML value) root))
              (saved_cursorPosition st) 0 with
      | Some pt => set_selection (Some (caret pt)) st1
      | None => st1
      end
    else st1.
Proof.
  intros Hroot Hne. cbv zeta. unfold reconcile. rewrite Hroot.
  apply String.eqb_neq in Hne. rewrite Hne. rewrite str_or_empty.
  destruct (hasFocus st && Nat.ltb 0 (saved_cursorPosition st)) eqn:E; [|reflexivity].
  apply andb_true_iff in E. destruct E as [Hf _].
  unfold set_innerHTML at 1. rewrite Hroot. state_simpl.
  destruct (restore_walk _ _ 0); [|reflexivity].
  apply focus_when_focused. unfold set_innerHTML. rewrite Hroot. exact Hf.
Qed.

(** X1: a reconciliation never calls [onChange] and never alerts: for
    every value and state the effects are those of the state before, and
    so are the dialog flags, the pending file and the link fields. *)
Theorem reconcile_is_silent (value : string) (st : State) :
  effects (reconcile value st) = effects st
  /\ hasFocus (reconcile value st) = hasFocus st
  /\ showImageDialog (reconcile value st) = showImageDialog st
  /\ showLinkDialog (reconcile value st) = showLinkDialog st
  /\ imageFile (reconcile value st) = imageFile st
  /\ uploadingImage (reconcile value st) = uploadingImage st
  /\ linkUrl (reconcile value st) = linkUrl st
  /\ linkText (reconcile value st) = linkText st.
Proof.
  destruct (editorRef st) as [root|] eqn:Hroot.
  - destruct (String.eqb value (innerHTML root)) eqn:E.
    + unfold reconcile. rewrite Hroot, E. repeat split.
    + apply String.eqb_neq in E.
      rewrite (reconcile_changed value st root Hroot E).
      unfold set_innerHTML. rewrite Hroot.
      destruct (hasFocus st && Nat.ltb 0 (saved_cursorPosition st));
        [destruct (restore_walk _ _ 0)|]; repeat split.
  - unfold reconcile. rewrite Hroot. repeat split.
Qed.

(** X2: on an editor that is not focused, a reconciliation with a
    different value replaces the children by the parsed value, restores
    no caret (a selection, if there was one, is left collapsed at the
    start of the editor element) and does not take the focus. *)
Theorem reconcile_unfocused (value : string) (st : State) (root : node) :
  editorRef st = Some root ->
  hasFocus st = false ->
  value <> innerHTML root ->
  editorRef (reconcile value st) = Some (set_children (parseHTML value) root)
  /\ selection (reconcile value st)
     = match selection st with
       | Some _ => Some (caret (Point [] 0))
       | None => None
       end
  /\ hasFocus (reconcile value st) = false.
Proof.
  intros Hroot Hf Hne.
  rewrite (reconcile_changed value st root Hroot Hne), Hf. cbn [andb].
  unfold set_innerHTML. rewrite Hroot. state_simpl. auto.
Qed.

(** X3: on a focused editor whose saved position lies beyond the text of
    the new value, the loop runs out of leaves: the children are replaced
    and the caret is left at the start of the editor element. *)
Theorem reconcile_value_too_short
    (value : string) (st : State) (root : node) (range : Range) :
  editorRef st = Some root ->
  is_text root = false ->
  hasFocus st = true ->
  selection st = Some range ->
  value <> innerHTML root ->
  String.length (textContents (parseHTML value)) < saved_cursorPosition st ->
  editorRef (reconcile value st) = Some (set_children (parseHTML value) root)
  /\ selection (reconcile value st) = Some (caret (Point [] 0)).
Proof.
  intros Hroot Hel Hf Hsel Hne Hshort.
  rewrite (reconcile_changed value st root Hroot Hne), Hf.
  assert (Hpos : Nat.ltb 0 (saved_cursorPosition st) = true) by (apply Nat.ltb_lt; lia).
  rewrite Hpos. cbn [andb].
  rewrite restore_walk_too_short.
  - unfold set_innerHTML. rewrite Hroot, Hsel. state_simpl. auto.
  - destruct root as [d|t a s cs]; [discriminate|].
    cbn [set_children]. unfold text_leaves.
    rewrite leaves_length_text_leaves_from, textContent_Elem. simpl. exact Hshort.
Qed.

(** X4: when the browser serializes the parsed value back to the value
    itself, reconciling a second time with the same value changes
    nothing. *)
Theorem reconcile_twice (value : string) (st : State) (root : node) :
  editorRef st = Some root ->
  is_text root = false ->
  serializeHTML (parseHTML value) = value ->
  reconcile value (reconcile value st) = reconcile value st.
Proof.
  intros Hroot Hel Hrt.
  destruct (String.eqb value (innerHTML root)) eqn:E.
  - assert (E1 : reconcile value st = st)
      by (unfold reconcile; now rewrite Hroot, E).
    now rewrite !E1.
  - apply String.eqb_neq in E.
    assert (Hed : editorRef (reconcile value st)
                  = Some (set_children (parseHTML value) root)).
    { rewrite (reconcile_changed value st root Hroot E).
      unfold set_innerHTML. rewrite Hroot.
      destruct (hasFocus st && Nat.ltb 0 (saved_cursorPosition st));
        [destruct (restore_walk _ _ 0)|]; reflexivity. }
    set (st' := reconcile value st) in *.
    unfold reconcile at 1. rewrite Hed.
    unfold innerHTML. rewrite (children_set_children _ _ Hel), Hrt.
    now rewrite String.eqb_refl.
Qed.

Lemma bookkeeping_idempotent (root : node) :
  bookkeeping (bookkeeping root) = bookkeeping root.
Proof.
  destruct root as [d|t a s cs]; [reflexivity|].
  unfold bookkeeping. cbn [set_style setAttribute some_descendant].
  destruct (existsb _ cs) eqn:E; cbn [negb set_style setAttribute some_descendant];
    rewrite E; cbn [negb set_style].
  - rewrite (assoc_set_same_value "dir" "ltr") by apply assoc_get_set_same.
    rewrite (assoc_set_same_value "direction" "ltr") by apply assoc_get_set_same.
    reflexivity.
  - rewrite (assoc_set_same_value "dir" "ltr") by apply assoc_get_set_same.
    rewrite (assoc_set_same_value "direction" "ltr" (assoc_set "text-align" _ _))
      by (rewrite assoc_get_set_other by discriminate; apply assoc_get_set_same).
    rewrite (assoc_set_same_value "text-align" "left") by apply assoc_get_set_same.
    reflexivity.
Qed.

(** X5: emitting twice in a row is emitting once, said twice: the second
    [handleInput] leaves the editor element as the first left it and
    passes the same string to [onChange]. *)
Theorem handleInput_twice (st : State) (root : node) :
  editorRef st = Some root ->
  editorRef (handleInput (handleInput st)) = editorRef (handleInput st)
  /\ effects (handleInput (handleInput st))
     = effects st ++ [OnChange (innerHTML (bookkeeping root));
                      OnChange (innerHTML (bookkeeping root))].
Proof.
  intros Hroot. rewrite (handleInput_mounted st root Hroot).
  rewrite (handleInput_mounted _ (bookkeeping root)) by reflexivity.
  rewrite bookkeeping_idempotent. state_simpl.
  split; [reflexivity|]. now rewrite <- app_assoc.
Qed.

End ReconcileMore.


Section LinkMore.
Context {host : Host}.

Lemma trimEnd_keeps_nonspace (c : ascii) (s : string) :
  is_space c = false -> truthy (trimEnd (String c s)) = true.
Proof.
  intros H. cbn [trimEnd]. rewrite H. now destruct (trimEnd s).
Qed.

(** [trim] leaves nothing exactly of the strings of white space. *)
Lemma trim_blank (s : string) : truthy (trim s) = false <-> blank s = true.
Proof.
  unfold trim. induction s as [|c s IH]; [now split|].
  cbn [trimStart blank]. destruct (is_space c) eqn:E; cbn [andb]; [exact IH|].
  rewrite (trimEnd_keeps_nonspace c s E). split; discriminate.
Qed.

(** X6: a URL made of white space only is rejected before anything
    happens: the document, the selection, the focus, the dialog and its
    fields are untouched and nothing is emitted. *)
Theorem insertLink_blank_url (st : State) :
  blank (linkUrl st) = true -> insertLink st = st.
Proof.
  intros H. apply trim_blank in H. unfold insertLink.
  destruct (editorRef st); [|reflexivity]. now rewrite H.
Qed.

(** X7: with a URL that is not blank and no selection in the window, the
    link is appended as the last child of the editor element, with the
    display text as its only child, and the caret is put after
    it; the text of the document grows by the display text at its end;
    the new markup is emitted once, the dialog is closed and its two
    fields are cleared. *)
Theorem insertLink_without_selection (st : State) (root : node) :
  editorRef st = Some root ->
  is_text root = false ->
  blank (linkUrl st) = false ->
  selection st = None ->
  let root' := bookkeeping (set_children (children root ++ [make_link st]) root) in
  editorRef (insertLink st) = Some root'
  /\ children root' = children root ++ [make_link st]
  /\ children (make_link st) = [Text (display_text st)]
  /\ selection (insertLink st) = Some (caret (Point [] (S (List.length (children root)))))
  /\ textContent root' = String.append (textContent root) (display_text st)
  /\ effects (insertLink st) = effects st ++ [OnChange (innerHTML root')]
  /\ linkUrl (insertLink st) = EmptyString
  /\ linkText (insertLink st) = EmptyString
  /\ showLinkDialog (insertLink st) = false.
Proof.
  intros Hroot Hel Hurl Hsel root'.
  assert (Ht : truthy (trim (linkUrl st)) = true).
  { destruct (truthy (trim (linkUrl st))) eqn:E; [reflexivity|].
    apply trim_blank in E. congruence. }
  pose proof (make_link_shape st Ht) as Hlink.
  destruct root as [d|t a s cs]; [discriminate|].
  assert (Hins : insertNode (Point [] (List.length cs)) [make_link st] (Elem t a s cs)
                 = (Elem t a s (cs ++ [make_link st]), ([], List.length cs))).
  { unfold insertNode. cbn [container offset insert_at].
    now rewrite firstn_all, skipn_all, app_nil_r. }
  assert (E : insertLink st
              = setShowLinkDialog false
                  (setLinkText "" (setLinkUrl ""
                     (handleInput
                        (set_selection (Some (caret (Point [] (S (List.length cs)))))
                           (set_editor (Elem t a s (cs ++ [make_link st])) st)))))).
  { unfold insertLink. rewrite Hroot, Ht, Hsel. cbn [negb children].
    now rewrite Hins. }
  rewrite E, (handleInput_mounted _ (Elem t a s (cs ++ [make_link st]))) by reflexivity.
  state_simpl. subst root'. cbn [children set_children].
  rewrite children_bookkeeping, textContent_bookkeeping by reflexivity.
  repeat split.
  - now rewrite Hlink.
  - rewrite !textContent_Elem, textContents_app, textContents_single, Hlink.
    cbn [textContent fold_right]. now rewrite str_append_nil_r.
Qed.

(** X8: with a URL that is not blank and a valid caret, the link, with
    the display text as its only child, is inserted at the caret and the
    caret is put right after it: the text of the document becomes the
    text before the caret, the display text, the text after the caret. *)
Theorem insertLink_at_caret (st : State) (root : node) (range : Range) :
  editorRef st = Some root ->
  is_text root = false ->
  blank (linkUrl st) = false ->
  selection st = Some range ->
  collapsed range = true ->
  valid_range root range = true ->
  let A := text_before (container (startPoint range)) (offset (startPoint range)) root in
  exists root' par idx B,
    editorRef (insertLink st) = Some root'
    /\ selection (insertLink st) = Some (caret (Point par (S idx)))
    /\ get root' (par ++ [idx]) = Some (make_link st)
    /\ children (make_link st) = [Text (display_text st)]
    /\ textContent root = String.append A B
    /\ textContent root' = String.append A (String.append (display_text st) B)
    /\ effects (insertLink st) = effects st ++ [OnChange (innerHTML root')].
Proof.
  intros Hroot Hel Hurl Hsel Hcoll Hvalid A.
  assert (Ht : truthy (trim (linkUrl st)) = true).
  { destruct (truthy (trim (linkUrl st))) eqn:E; [reflexivity|].
    apply trim_blank in E. congruence. }
  pose proof (make_link_shape st Ht) as Hlink.
  assert (Hext : extractContents range root = (root, [], startPoint range))
    by (unfold extractContents; now rewrite Hcoll).
  destruct (extractContents_container range root root [] _ Hvalid Hext) as [_ Hpt].
  destruct (extractContents_text range root root [] _ Hvalid Hext) as [B [_ [HB2 HB3]]].
  fold A in HB2, HB3.
  assert (Hdel : deleteContents range root = (root, startPoint range))
    by (unfold deleteContents; now rewrite Hext).
  destruct (insertNode (startPoint range) [make_link st] root) as [root2 [par idx]] eqn:Hins.
  destruct (insertNode_get_single _ (make_link st) root root2 par idx Hel Hpt Hins)
    as [Hel2 Hg].
  assert (E : insertLink st
              = setShowLinkDialog false
                  (setLinkText "" (setLinkUrl ""
                     (handleInput
                        (set_selection (Some (caret (Point par (S idx))))
                           (set_editor root2 st)))))).
  { unfold insertLink. rewrite Hroot, Ht, Hsel, Hcoll. cbn [negb].
    now rewrite Hdel, Hins. }
  exists (bookkeeping root2), par, idx, B.
  rewrite E, (handleInput_mounted _ root2) by reflexivity. state_simpl.
  rewrite get_bookkeeping by (destruct par; discriminate).
  rewrite (textContent_bookkeeping root2 Hel2).
  rewrite (insertNode_text _ _ root root2 (par, idx) A B Hel Hpt Hins HB3 HB2).
  rewrite textContents_single.
  split; [reflexivity|]. split; [reflexivity|]. split; [exact Hg|].
  split; [now rewrite Hlink|]. split; [exact HB2|]. split; [|reflexivity].
  rewrite Hlink. cbn [textContent fold_right]. now rewrite str_append_nil_r.
Qed.

End LinkMore.


Section UploadMore.
Context {host : Host}.

Lemma requests_app (a b : list Effect) : requests (a ++ b) = requests a ++ requests b.
Proof. unfold requests. apply flat_map_app. Qed.

Lemma handleInput_frame (st : State) :
  imageFile (handleInput st) = imageFile st
  /\ uploadingImage (handleInput st) = uploadingImage st
  /\ imageUrl (handleInput st) = imageUrl st
  /\ hasFocus (handleInput st) = hasFocus st
  /\ selection (handleInput st) = selection st
  /\ requests (effects (handleInput st)) = requests (effects st).
Proof.
  unfold handleInput. destruct (editorRef st); state_simpl; repeat split.
  rewrite requests_app. cbn. now rewrite app_nil_r.
Qed.

(** [negb (truthy T) || (trim T =? "")], the test of [handleFocus]. *)
Lemma handleFocus_condition (T : string) :
  negb (truthy T) || String.eqb (trim T) "" = blank T.
Proof.
  destruct (blank T) eqn:B.
  - apply trim_blank in B. destruct (trim T); [apply orb_true_r | discriminate].
  - assert (Ht : truthy (trim T) = true).
    { destruct (truthy (trim T)) eqn:E; [reflexivity|].
      apply trim_blank in E. congruence. }
    rewrite (trim_truthy T Ht). destruct (trim T); [discriminate | reflexivity].
Qed.

(** [focus()] on a mounted editor with a selection, spelled out. *)
Lemma focus_mounted (st : State) (t : string) (a : list (string * string)) (s : css)
    (cs : list node) (range : Range) :
  editorRef st = Some (Elem t a s cs) ->
  selection st = Some range ->
  focus st
  = if hasFocus st then st
    else
      let rootF :=
        set_style "text-align" "left"
          (set_style "direction" "ltr" (setAttribute "dir" "ltr" (Elem t a s cs))) in
      let st1 := set_editor rootF (set_hasFocus true st) in
      if blank (textContents cs) then set_selection (Some (caret (Point [] 0))) st1
      else st1.
Proof.
  intros Hroot Hsel. destruct (hasFocus st) eqn:Hf.
  - unfold focus. now rewrite Hf.
  - rewrite (focus_unfocused st _ Hroot Hf). cbv zeta.
    set (rootF := set_style "text-align" "left"
                    (set_style "direction" "ltr" (setAttribute "dir" "ltr" (Elem t a s cs)))).
    change (textContent rootF) with (textContents cs).
    now rewrite handleFocus_condition, Hsel.
Qed.

Lemma Client_insertImageFromUrl_frame (url : string) (st : State) :
  imageFile (Client.insertImageFromUrl url st) = imageFile st
  /\ uploadingImage (Client.insertImageFromUrl url st) = uploadingImage st
  /\ requests (effects (Client.insertImageFromUrl url st)) = requests (effects st).
Proof.
  unfold Client.insertImageFromUrl.
  destruct (editorRef st) as [root|]; [|repeat split].
  destruct (negb (truthy (trim url))); [repeat split|]. cbv zeta.
  match goal with |- context [handleInput (focus ?x)] => set (st1 := x) end.
  destruct (handleInput_frame (focus st1)) as [H1 [H2 [_ [_ [_ H6]]]]].
  destruct (focus_frame st1) as [F1 [F2 [_ F4]]].
  rewrite H1, H2, H6, F1, F2, F4.
  subst st1. destruct (selection st) as [range|]; [|repeat split].
  destruct (deleteContents range root) as [root1 pt].
  destruct (insertNode pt [Client.make_img url] root1) as [root2 [par idx]].
  repeat split.
Qed.

(** X9: whatever file the user picks in the image dialog, with no file
    pending and no upload running, a click on the insert button sends a
    request for it only when its type starts with [image/] and its size
    is at most 10 MB; a rejected file sends none, in both copies. *)
Theorem only_acceptable_files_are_uploaded (files : list File) (st : State) :
  imageFile st = None ->
  uploadingImage st = false ->
  let sent :=
    match files with
    | f :: _ => if acceptable f then [f] else []
    | [] => []
    end in
  requests (effects (Part0.click_insert_button (handleImageFileSelect files st)))
  = requests (effects st) ++ sent
  /\ requests (effects (Client.click_insert_button (handleImageFileSelect files st)))
     = requests (effects st) ++ sent.
Proof.
  intros Hfile Hup sent.
  assert (HC : forall st0, imageFile st0 = None ->
             requests (effects (Client.click_insert_button st0)) = requests (effects st0)).
  { intros st0 H0. unfold Client.click_insert_button.
    destruct (Client.insert_button_disabled st0); [reflexivity|].
    unfold Client.insertImage. rewrite H0.
    destruct (truthy (trim (imageUrl st0))); [|reflexivity]. state_simpl.
    apply Client_insertImageFromUrl_frame. }
  assert (HP : forall st0, imageFile st0 = None -> Part0.click_insert_button st0 = st0).
  { intros st0 H0. unfold Part0.click_insert_button, Part0.insert_button_disabled.
    rewrite H0. now rewrite orb_true_r. }
  destruct files as [|f rest]; subst sent.
  - cbn [handleImageFileSelect]. rewrite (HP st Hfile), (HC st Hfile), app_nil_r. auto.
  - unfold acceptable. cbn [handleImageFileSelect].
    destruct (starts_with "image/" (file_type f)) eqn:Et; cbn [negb andb].
    + destruct (Nat.ltb MAX_IMAGE_SIZE (file_size f)) eqn:Es.
      * assert (El : Nat.leb (file_size f) MAX_IMAGE_SIZE = false).
        { apply Nat.leb_gt. now apply Nat.ltb_lt. }
        rewrite El, HP, HC by exact Hfile. state_simpl.
        rewrite requests_app. cbn. now rewrite app_nil_r.
      * assert (El : Nat.leb (file_size f) MAX_IMAGE_SIZE = true).
        { apply Nat.leb_le. apply Nat.ltb_ge in Es. exact Es. }
        rewrite El.
        unfold Part0.click_insert_button, Part0.insert_button_disabled,
          Client.click_insert_button, Client.insert_button_disabled,
          Part0.insertImage, Client.insertImage,
          Part0.uploadAndInsertImage_start, Client.uploadAndInsertImage_start.
        state_simpl. rewrite Hup. cbn [orb andb]. state_simpl.
        now rewrite requests_app.
    + rewrite HP, HC by exact Hfile. state_simpl.
      rewrite requests_app. cbn. now rewrite app_nil_r.
Qed.

(** X10: a second click on the insert button of the image dialog does
    nothing more than the first, whatever the state: once a request is
    out the button is disabled until it settles, so no second request is
    sent for the same file; in CKEditor.tsx the URL field is cleared
    once its image is inserted, so the image is not inserted twice. *)
Theorem click_insert_button_twice (st : State) :
  Part0.click_insert_button (Part0.click_insert_button st) = Part0.click_insert_button st
  /\ Client.click_insert_button (Client.click_insert_button st)
     = Client.click_insert_button st.
Proof.
  split.
  - assert (E : Part0.click_insert_button st
                = if Part0.insert_button_disabled st then st else Part0.insertImage st)
      by reflexivity.
    destruct (Part0.insert_button_disabled st) eqn:D; [now rewrite !E|].
    rewrite E. unfold Part0.insert_button_disabled in D.
    destruct (imageFile st) as [f|] eqn:Hf; [|now rewrite orb_true_r in D].
    unfold Part0.insertImage, Part0.uploadAndInsertImage_start. rewrite Hf.
    unfold Part0.click_insert_button, Part0.insert_button_disabled. state_simpl.
    reflexivity.
  - assert (E : Client.click_insert_button st
                = if Client.insert_button_disabled st then st else Client.insertImage st)
      by reflexivity.
    destruct (Client.insert_button_disabled st) eqn:D; [now rewrite !E|].
    rewrite E. unfold Client.insert_button_disabled in D.
    unfold Client.insertImage.
    destruct (imageFile st) as [f|] eqn:Hf.
    + unfold Client.uploadAndInsertImage_start. rewrite Hf.
      unfold Client.click_insert_button, Client.insert_button_disabled. state_simpl.
      reflexivity.
    + destruct (uploadingImage st); [discriminate|]. cbn [orb andb] in D.
      apply negb_false_iff in D. rewrite D.
      unfold Client.click_insert_button, Client.insert_button_disabled. state_simpl.
      destruct (Client_insertImageFromUrl_frame (imageUrl st) st) as [F1 _].
      rewrite F1, Hf. cbn [trim trimStart trimEnd truthy negb andb].
      now rewrite orb_true_r.
Qed.

(** X11: in part_000, with a URL that is not blank and no selection in
    the window, the image goes to the end of the document, in a centered
    paragraph of its own with a line break after it; the text of the
    document is unchanged and the new markup is emitted once.  The caret
    is put after the paragraph, unless the editor had to take the focus
    while its text was blank: its focus handler then moves the caret to
    the start of the editor. *)
Theorem Part0_insertImageFromUrl_without_selection
    (url : string) (st : State) (root : node) :
  editorRef st = Some root ->
  is_text root = false ->
  blank url = false ->
  selection st = None ->
  let p := Elem "P" [] [("text-align", "center")] [Part0.make_img url; BR] in
  let st' := Part0.insertImageFromUrl url st in
  exists root',
    editorRef st' = Some root'
    /\ children root' = children root ++ [p]
    /\ textContent root' = textContent root
    /\ selection st'
       = (if hasFocus st || negb (blank (textContent root))
          then Some (caret (Point [] (S (List.length (children root)))))
          else Some (caret (Point [] 0)))
    /\ hasFocus st' = true
    /\ effects st' = effects st ++ [OnChange (innerHTML root')].
Proof.
  intros Hroot Hel Hurl Hsel p st'.
  assert (Ht : truthy (trim url) = true).
  { destruct (truthy (trim url)) eqn:E; [reflexivity|].
    apply trim_blank in E. congruence. }
  destruct root as [d|t a s cs]; [discriminate|].
  assert (HT : textContents (cs ++ [p]) = textContents cs).
  { rewrite textContents_app, textContents_single. cbn. apply str_append_nil_r. }
  subst st'. unfold Part0.insertImageFromUrl. rewrite Hroot, Ht, Hsel. cbn [negb].
  cbv zeta. unfold Part0.appendChild. cbn [children set_children app]. fold p.
  match goal with |- context [focus ?x] => set (st1 := x) end.
  rewrite (focus_mounted st1 t a s (cs ++ [p]) _ eq_refl eq_refl). subst st1. state_simpl.
  rewrite HT, textContent_Elem.
  destruct (hasFocus st) eqn:Hf; cbn [orb]; [|destruct (blank (textContents cs)); cbn [negb]];
    cbv zeta;
    (erewrite handleInput_mounted by reflexivity); state_simpl;
    eexists; (split; [reflexivity|]);
    rewrite children_bookkeeping, textContent_bookkeeping by reflexivity;
    cbn [children set_style setAttribute set_children];
    rewrite ?textContent_Elem; auto.
Qed.

(** X12: an upload answered with success and a [url] that is not empty
    leaves exactly what [insertImageFromUrl] leaves: the upload code adds
    no alert and no log line of its own, and then closes the dialog; when
    that [url] is white space only, nothing is inserted and nothing at
    all is reported, in both copies. *)
Theorem upload_success_is_insertImageFromUrl
    (url : string) (err : option string) (status : nat) (st : State) (root : node) :
  editorRef st = Some root ->
  truthy url = true ->
  let res := FetchResolves true status (JsonResolves (MkBody (Some url) err)) in
  let p := Part0.uploadAndInsertImage_settled res st in
  let c := Client.uploadAndInsertImage_settled res st in
  (effects p = effects (Part0.insertImageFromUrl url st)
   /\ editorRef p = editorRef (Part0.insertImageFromUrl url st)
   /\ selection p = selection (Part0.insertImageFromUrl url st)
   /\ showImageDialog p = false /\ uploadingImage p = false)
  /\ (effects c = effects (Client.insertImageFromUrl url st)
      /\ editorRef c = editorRef (Client.insertImageFromUrl url st)
      /\ selection c = selection (Client.insertImageFromUrl url st)
      /\ showImageDialog c = false /\ uploadingImage c = false)
  /\ (blank url = true ->
      effects p = effects st /\ editorRef p = Some root
      /\ effects c = effects st /\ editorRef c = Some root).
Proof.
  intros Hroot Hurl res p c. subst p c res.
  unfold Part0.uploadAndInsertImage_settled, Client.uploadAndInsertImage_settled,
    Part0.upload_try, Client.upload_try.
  cbn [negb body_url body_error member]. rewrite Hroot, Hurl. state_simpl.
  split; [repeat split|]. split; [repeat split|].
  intros Hb. apply trim_blank in Hb.
  unfold Part0.insertImageFromUrl, Client.insertImageFromUrl.
  rewrite Hroot, Hb. cbn [negb]. auto.
Qed.

End UploadMore.


Section AlignmentMore.
Context {host : Host}.

(** The effects of the [try] block of CKEditor.tsx: at most one
    [onChange] call from the [input] event of the native command, then,
    when the block completes, the emission of the tree it leaves. *)
Lemma align_try_effects (v : alignment) (range : Range) (root r0 : node) (st : State) :
  editorRef st = Some r0 ->
  match Client.align_try v range root st with
  | inl st' =>
      exists root' input,
        editorRef st' = Some root'
        /\ effects st' = effects st ++ input ++ [OnChange (innerHTML root')]
        /\ (input = [] \/ exists html, input = [OnChange html])
  | inr st' =>
      exists root' input,
        editorRef st' = Some root'
        /\ effects st' = effects st ++ input
        /\ (input = [] \/ exists html, input = [OnChange html])
  end.
Proof.
  intros Hr0. unfold Client.align_try.
  destruct (truthy (trim (Range_toString range root))).
  - destruct (extractContents range root) as [[root1 contents] pt].
    destruct (insertNode pt _ root1) as [root2 [par idx]].
    erewrite handleInput_mounted by reflexivity. state_simpl.
    eexists. exists []. split; [reflexivity|]. split; [reflexivity | now left].
  - destruct (nativeExecCommand "formatBlock" "<p>" root (Some range))
      as [[[success rootN] selE]|].
    + cbv zeta.
      destruct (firesInput "formatBlock" "<p>" root (Some range)); cbv iota;
        destruct success;
        try (destruct selE as [newRange|];
             [destruct (find_ancestor (tag_in ["P"]) _ (commonAncestorContainer newRange))|]);
        try match goal with
            | |- context [insertNode ?a ?b ?c] =>
                destruct (insertNode a b c) as [root2 [par idx]]
            end;
        repeat (erewrite handleInput_mounted by reflexivity); state_simpl;
        eexists;
        first [ exists [OnChange (innerHTML (bookkeeping rootN))];
                split; [reflexivity|];
                split; [now rewrite <- ?app_assoc | right; eexists; reflexivity]
              | exists [];
                split; [reflexivity|];
                split; [now rewrite ?app_nil_r | now left] ].
    + exists r0, []. split; [exact Hr0|]. split; [now rewrite app_nil_r | now left].
Qed.

(** X13: on a mounted editor every path of [setAlignment] ends in an
    emission: the last effect is one [onChange] call with the markup of
    the tree the call leaves.  part_000 adds nothing else.  CKEditor.tsx
    adds before it at most one more [onChange] call, made by the
    editor's [input] handler when the native [formatBlock] command it
    tries dispatches an [input] event, and at most one log line, when
    its [try] block threw. *)
Theorem setAlignment_ends_with_emission (v : alignment) (st : State) (root : node) :
  editorRef st = Some root ->
  (exists root',
     editorRef (Part0.setAlignment v st) = Some root'
     /\ effects (Part0.setAlignment v st) = effects st ++ [OnChange (innerHTML root')])
  /\
  (exists root' input log,
     editorRef (Client.setAlignment v st) = Some root'
     /\ effects (Client.setAlignment v st)
        = effects st ++ input ++ log ++ [OnChange (innerHTML root')]
     /\ (input = [] \/ exists html, input = [OnChange html])
     /\ (log = [] \/ log = [ConsoleError "Error setting alignment:"])).
Proof.
  intros Hroot.
  destruct (focus_editor st root Hroot) as [rootF [HF _]].
  pose proof (effects_focus st) as HE.
  assert (Emit : forall st1 r, editorRef st1 = Some r ->
            editorRef (handleInput st1) = Some (bookkeeping r)
            /\ effects (handleInput st1)
               = effects st1 ++ [OnChange (innerHTML (bookkeeping r))]).
  { intros st1 r H1. rewrite (handleInput_mounted st1 r H1). split; reflexivity. }
  split.
  - unfold Part0.setAlignment. rewrite Hroot. cbv zeta. rewrite HF.
    assert (Plain : forall st1 r, editorRef st1 = Some r -> effects st1 = effects st ->
              exists root',
                editorRef (handleInput st1) = Some root'
                /\ effects (handleInput st1) = effects st ++ [OnChange (innerHTML root')]).
    { intros st1 r H1 H2. exists (bookkeeping r). rewrite <- H2. now apply Emit. }
    destruct (selection (focus st)) as [range|].
    + destruct (find_block rootF (commonAncestorContainer range)).
      * eapply Plain; [reflexivity | exact HE].
      * destruct (truthy (trim (Range_toString range rootF))).
        -- destruct (extractContents range rootF) as [[root1 contents] pt].
           destruct (insertNode pt _ root1) as [root2 [par idx]].
           eapply Plain; [reflexivity | exact HE].
        -- destruct (insertNode (startPoint range) _ rootF) as [root2 [par idx]].
           eapply Plain; [reflexivity | exact HE].
    + destruct (some_descendant is_block rootF);
        (eapply Plain; [reflexivity | exact HE]).
  - unfold Client.setAlignment. rewrite Hroot. cbv zeta. rewrite HF.
    assert (Plain : forall st1 r, editorRef st1 = Some r -> effects st1 = effects st ->
              exists root' input log,
                editorRef (handleInput st1) = Some root'
                /\ effects (handleInput st1)
                   = effects st ++ input ++ log ++ [OnChange (innerHTML root')]
                /\ (input = [] \/ exists html, input = [OnChange html])
                /\ (log = [] \/ log = [ConsoleError "Error setting alignment:"])).
    { intros st1 r H1 H2. exists (bookkeeping r), [], []. rewrite <- H2.
      destruct (Emit st1 r H1) as [E1 E2]. rewrite E1, E2. auto. }
    destruct (selection (focus st)) as [range|].
    + destruct (find_block rootF (commonAncestorContainer range)).
      * eapply Plain; [reflexivity | exact HE].
      * pose proof (align_try_effects v range rootF rootF (focus st) HF) as HT.
        destruct (Client.align_try v range rootF (focus st)) as [st'|st'].
        -- destruct HT as [root' [input [H1 [H2 H3]]]].
           exists root', input, []. rewrite H2, HE. auto.
        -- destruct HT as [root' [input [H1 [H2 H3]]]]. rewrite H1.
           erewrite handleInput_mounted by reflexivity. state_simpl.
           eexists. exists input, [ConsoleError "Error setting alignment:"].
           split; [reflexivity|]. rewrite H2, HE, <- !app_assoc.
           split; [reflexivity|]. auto.
    + destruct (some_descendant is_block rootF).
      * eapply Plain; [reflexivity | exact HE].
      * destruct (truthy (trim (innerHTML rootF)));
          (eapply Plain; [reflexivity | exact HE]).
Qed.

(** X14: with the focus in the editor and a valid selection that lies in
    no block and holds some text that is not blank, both copies move the
    contents of the selection into a new paragraph with the requested
    alignment, put where the selection started, and the caret right
    after it; the text of the document is unchanged. *)
Theorem setAlignment_wraps_selected_text
    (v : alignment) (st : State) (root : node) (range : Range) :
  editorRef st = Some root ->
  is_text root = false ->
  hasFocus st = true ->
  selection st = Some range ->
  valid_range root range = true ->
  find_block root (commonAncestorContainer range) = None ->
  blank (Range_toString range root) = false ->
  exists root' par idx p,
    editorRef (Part0.setAlignment v st) = Some root'
    /\ Client.setAlignment v st = Part0.setAlignment v st
    /\ get root' (par ++ [idx]) = Some p
    /\ tag_of p = Some "P"
    /\ style_of p = [("text-align", align_str v)]
    /\ children p = snd (fst (extractContents range root))
    /\ textContent p = Range_toString range root
    /\ selection (Part0.setAlignment v st) = Some (caret (Point par (S idx)))
    /\ textContent root' = textContent root.
Proof.
  intros Hroot Hel Hf Hsel Hvalid Hblock Htext.
  assert (Ht : truthy (trim (Range_toString range root)) = true).
  { destruct (truthy (trim (Range_toString range root))) eqn:E; [reflexivity|].
    apply trim_blank in E. congruence. }
  destruct (extractContents range root) as [[root1 frag] pt] eqn:Hext.
  destruct (extractContents_container range root root1 frag pt Hvalid Hext) as [Hel1 Hpt].
  rewrite Hel in Hel1.
  destruct (extractContents_text range root root1 frag pt Hvalid Hext) as [B [HB1 [HB2 HB3]]].
  assert (HR : Range_toString range root = textContents frag)
    by (unfold Range_toString; now rewrite Hext).
  set (p := Part0.aligned_paragraph v frag).
  destruct (insertNode pt [p] root1) as [root2 [par idx]] eqn:Hins.
  destruct (insertNode_get_single pt p root1 root2 par idx Hel1 Hpt Hins) as [Hel2 Hg].
  assert (E : Part0.setAlignment v st
              = handleInput
                  (set_selection (Some (caret (Point par (S idx)))) (set_editor root2 st))).
  { unfold Part0.setAlignment. rewrite Hroot. cbv zeta.
    rewrite (focus_when_focused st Hf), Hroot, Hsel, Hblock, Ht, Hext.
    fold p. now rewrite Hins. }
  assert (E' : Client.setAlignment v st = Part0.setAlignment v st).
  { rewrite E. unfold Client.setAlignment. rewrite Hroot. cbv zeta.
    rewrite (focus_when_focused st Hf), Hroot, Hsel, Hblock.
    unfold Client.align_try. rewrite Ht, Hext.
    change (Client.aligned_paragraph v frag) with p. now rewrite Hins. }
  exists (bookkeeping root2), par, idx, p.
  rewrite E', E, (handleInput_mounted _ root2) by reflexivity. state_simpl.
  rewrite get_bookkeeping by (destruct par; discriminate).
  rewrite (textContent_bookkeeping root2 Hel2).
  rewrite (insertNode_text pt _ root1 root2 (par, idx) _ B Hel1 Hpt Hins HB3 HB2).
  rewrite textContents_single, HB1, HR.
  repeat split; exact Hg.
Qed.


End AlignmentMore.


Section PasteMore.
Context {host : Host}.

(** X16: a paste while the window has no selection.  part_000 drops it:
    the default action is prevented and the handler returns, so nothing
    is inserted and nothing is emitted.  CKEditor.tsx appends the text
    flavour as one text node at the end of the document, puts the caret
    at the end, and emits once. *)
Theorem paste_without_selection (e : Clipboard) (st : State) (root : node) :
  editorRef st = Some root ->
  is_text root = false ->
  selection st = None ->
  Part0.handlePaste e st = st
  /\ exists root',
       editorRef (Client.handlePaste e st) = Some root'
       /\ children root' = children root ++ [Text (text_plain e)]
       /\ textContent root' = String.append (textContent root) (text_plain e)
       /\ selection (Client.handlePaste e st)
          = Some (caret (Point [] (S (List.length (children root)))))
       /\ effects (Client.handlePaste e st) = effects st ++ [OnChange (innerHTML root')].
Proof.
  intros Hroot Hel Hsel. split.
  - unfold Part0.handlePaste. now rewrite Hroot, Hsel.
  - destruct root as [d|t a s cs]; [discriminate|].
    unfold Client.handlePaste. rewrite Hsel, Hroot. cbv zeta.
    erewrite handleInput_mounted by reflexivity. state_simpl.
    eexists. split; [reflexivity|].
    rewrite children_bookkeeping, textContent_bookkeeping by reflexivity.
    cbn [children set_children]. rewrite length_app, Nat.add_1_r.
    rewrite !textContent_Elem, textContents_app, textContents_single.
    repeat split.
Qed.

(** X17: in part_000 a paste of markup that is not blank is inserted but
    never emitted: the handler ends in an exception before it reaches
    [handleInput], so its only effect is that exception, [onChange] is
    not called, and the selection is left spanning the pasted nodes; the
    owner learns of the pasted content with the next input or blur
    event, which emits the tree as the paste left it. *)
Theorem Part0_markup_paste_is_not_emitted
    (e : Clipboard) (st : State) (root : node) (range : Range) :
  editorRef st = Some root ->
  selection st = Some range ->
  blank (text_html e) = false ->
  exists root' start par idx,
    editorRef (Part0.handlePaste e st) = Some root'
    /\ insertNode start (Part0.sanitized_fragment (text_html e))
         (fst (deleteContents range root)) = (root', (par, idx))
    /\ effects (Part0.handlePaste e st) = effects st ++ [Uncaught "InvalidNodeTypeError"]
    /\ selection (Part0.handlePaste e st)
       = Some (MkRange start
                 (Point par (idx + List.length (Part0.sanitized_fragment (text_html e)))))
    /\ effects (handleInput (Part0.handlePaste e st))
       = effects st ++ [Uncaught "InvalidNodeTypeError";
                        OnChange (innerHTML (bookkeeping root'))].
Proof.
  intros Hroot Hsel Hhtml.
  assert (Ht : truthy (trim (text_html e)) = true).
  { destruct (truthy (trim (text_html e))) eqn:E; [reflexivity|].
    apply trim_blank in E. congruence. }
  unfold Part0.handlePaste. rewrite Hroot, Hsel.
  destruct (deleteContents range root) as [root1 pt]. cbv zeta.
  rewrite Ht, (trim_truthy _ Ht). cbn [andb fst].
  destruct (insertNode pt (Part0.sanitized_fragment (text_html e)) root1)
    as [root2 [par idx]] eqn:Hins.
  exists root2, pt, par, idx.
  erewrite handleInput_mounted by reflexivity. state_simpl.
  rewrite <- app_assoc. repeat split. exact Hins.
Qed.

End PasteMore.

Section CommandFacts.
Context {host : Host}.

(** X18: [execCommand] of part_000 on a mounted editor.  The native
    command always runs with a selection: the one the window has once
    the editor is focused, or else a caret at the end of the editor.
    When the native command returns, the function emits the tree the
    command left; when the command dispatched an [input] event, the
    editor's [input] handler has emitted the same markup once before,
    so [onChange] is called twice with the same string.  When the
    command throws (which the browser interface takes to leave the tree
    alone), one line is logged and nothing is emitted, so the tree and
    the selection stay the ones the command was given. *)
Theorem Part0_execCommand_outcomes
    (command : string) (rest : list Part0.JsArg) (st : State) (root : node) :
  editorRef st = Some root ->
  let st' := Part0.execCommand command rest st in
  let value := Part0.value_string (hd_error rest) in
  exists rootF range,
    editorRef (focus st) = Some rootF
    /\ children rootF = children root
    /\ (selection (focus st) = Some range
        \/ selection (focus st) = None
           /\ range = caret (Point [] (List.length (children root))))
    /\ match nativeExecCommand command value rootF (Some range) with
       | Some (_, root', sel') =>
           editorRef st' = Some (bookkeeping root')
           /\ selection st' = sel'
           /\ effects st'
              = effects st
                ++ (if firesInput command value rootF (Some range)
                    then [OnChange (innerHTML (bookkeeping root'))] else [])
                ++ [OnChange (innerHTML (bookkeeping root'))]
       | None =>
           editorRef st' = Some rootF
           /\ selection st' = Some range
           /\ effects st'
              = effects st
                ++ [ConsoleError
                      (String.append "Error executing command "
                         (String.append command ":"))]
       end.
Proof.
  intros Hroot st' value. subst st' value.
  destruct (focus_editor st root Hroot) as [rootF [HF [HC _]]].
  pose proof (effects_focus st) as HE.
  unfold Part0.execCommand. rewrite Hroot. cbv zeta. rewrite HF.
  assert (Hend : (if Nat.ltb 0 (List.length (children rootF))
                  then set_selection
                         (Some (caret (Point [] (List.length (children rootF)))))
                         (focus st)
                  else set_selection (Some (caret (Point [] 0))) (focus st))
                 = set_selection
                     (Some (caret (Point [] (List.length (children root)))))
                     (focus st)).
  { rewrite HC. destruct (children root); reflexivity. }
  assert (Hrun : forall range, selection (focus st) = Some range \/
                   selection (focus st) = None
                   /\ range = caret (Point [] (List.length (children root))) ->
            forall st1, editorRef st1 = Some rootF -> selection st1 = Some range ->
              effects st1 = effects st ->
              match nativeExecCommand command (Part0.value_string (hd_error rest)) rootF
                      (Some range) with
              | Some (_, root', sel') =>
                  let st2 := set_selection sel' (set_editor root' st1) in
                  let st' :=
                    handleInput
                      (if firesInput command (Part0.value_string (hd_error rest)) rootF
                            (Some range)
                       then handleInput st2 else st2) in
                  editorRef st' = Some (bookkeeping root')
                  /\ selection st' = sel'
                  /\ effects st'
                     = effects st
                       ++ (if firesInput command (Part0.value_string (hd_error rest))
                                rootF (Some range)
                           then [OnChange (innerHTML (bookkeeping root'))] else [])
                       ++ [OnChange (innerHTML (bookkeeping root'))]
              | None => True
              end).
  { intros range _ st1 H1 H2 H3.
    destruct (nativeExecCommand command _ rootF (Some range)) as [[[ok root'] sel']|];
      [|exact I].
    cbv zeta.
    destruct (firesInput command _ rootF (Some range));
      repeat (erewrite handleInput_mounted by reflexivity); state_simpl;
      rewrite ?bookkeeping_idempotent, H3, <- ?app_assoc; repeat split. }
  destruct (selection (focus st)) as [range|] eqn:Hsel.
  - exists rootF, range. split; [reflexivity|]. split; [exact HC|].
    split; [now left|]. rewrite Hsel.
    specialize (Hrun range (or_introl eq_refl) (focus st) HF Hsel HE).
    destruct (nativeExecCommand command _ rootF (Some range)) as [[[ok root'] sel']|].
    + exact Hrun.
    + state_simpl. now rewrite HF, Hsel, HE.
  - exists rootF, (caret (Point [] (List.length (children root)))).
    split; [reflexivity|]. split; [exact HC|].
    split; [right; now split|].
    rewrite Hend. state_simpl.
    specialize (Hrun _ (or_intror (conj eq_refl eq_refl))
                  (set_selection (Some (caret (Point [] (List.length (children root)))))
                     (focus st))
                  HF eq_refl HE).
    destruct (nativeExecCommand command _ rootF _) as [[[ok root'] sel']|].
    + exact Hrun.
    + state_simpl. now rewrite HF, HE.
Qed.

(** The heading and paragraph buttons pass [false] where the function
    expects the value: the tag they name never reaches the native
    command. *)
Lemma format_button_ignores_tag (tag tag' : string) (st : State) :
  Part0.format_button tag st = Part0.format_button tag' st.
Proof. reflexivity. Qed.

End CommandFacts.

Section MountFacts.
Context {host : Host}.

Lemma mount_value {A : Type} (F : string -> A) (value : string) :
  (if truthy value then F value else F EmptyString) = F value.
Proof. now destruct value. Qed.

(** X19: mounting shows the parsed value without reporting anything to
    the owner, and, when the browser serializes the parsed value back to
    the value itself, the reconciliation that follows the mount changes
    nothing, in both copies. *)
Theorem mount_then_reconcile (value : string) (st : State) (root : node) :
  editorRef st = Some root ->
  is_text root = false ->
  serializeHTML (parseHTML value) = value ->
  (exists rootM,
     editorRef (Part0.mount value st) = Some rootM
     /\ editorRef (Client.mount value st) = Some rootM
     /\ children rootM = parseHTML value
     /\ assoc_get "dir" (attrs_of rootM) = Some "ltr"
     /\ assoc_get "direction" (style_of rootM) = Some "ltr"
     /\ assoc_get "text-align" (style_of rootM) = Some "left")
  /\ effects (Part0.mount value st) = effects st
  /\ effects (Client.mount value st) = effects st
  /\ reconcile value (Part0.mount value st) = Part0.mount value st
  /\ reconcile value (Client.mount value st) = Client.mount value st.
Proof.
  intros Hroot Hel Hrt.
  destruct root as [d|t a s cs]; [discriminate|].
  set (rootM := set_children (parseHTML value)
                  (set_style "text-align" "left"
                     (set_style "direction" "ltr"
                        (setAttribute "dir" "ltr" (Elem t a s cs))))).
  assert (HP : editorRef (Part0.mount value st) = Some rootM
               /\ effects (Part0.mount value st) = effects st).
  { unfold Part0.mount. rewrite Hroot. cbv zeta.
    rewrite (mount_value (fun v => set_innerHTML v _) value).
    unfold set_innerHTML. state_simpl. split; reflexivity. }
  assert (HCl : editorRef (Client.mount value st) = Some rootM
                /\ effects (Client.mount value st) = effects st).
  { unfold Client.mount. rewrite Hroot. cbv zeta.
    rewrite (mount_value (fun v => set_innerHTML v _) value).
    unfold set_innerHTML. state_simpl. fold rootM.
    destruct (children rootM); split; reflexivity. }
  assert (Hnoop : forall st1, editorRef st1 = Some rootM -> reconcile value st1 = st1).
  { intros st1 H1. unfold reconcile. rewrite H1.
    unfold innerHTML, rootM. cbn [set_children set_style setAttribute children].
    now rewrite Hrt, String.eqb_refl. }
  destruct HP as [HP1 HP2], HCl as [HC1 HC2].
  split.
  - exists rootM. split; [exact HP1|]. split; [exact HC1|].
    unfold rootM. cbn [set_children set_style setAttribute children attrs_of style_of].
    split; [reflexivity|]. split; [apply assoc_get_set_same|].
    split; [|apply assoc_get_set_same].
    rewrite assoc_get_set_other by discriminate. apply assoc_get_set_same.
  - split; [exact HP2|]. split; [exact HC2|].
    split; apply Hnoop; assumption.
Qed.

(** X20: the owner hands back as [value] the string [onChange] gave it;
    the reconciliation that follows an emission therefore changes
    nothing: no tree replacement, no caret move, no second emission. *)
Theorem emitted_value_reconciles_to_noop (st : State) (root : node) :
  editorRef st = Some root ->
  exists html,
    effects (handleInput st) = effects st ++ [OnChange html]
    /\ reconcile html (handleInput st) = handleInput st.
Proof.
  intros Hroot. exists (innerHTML (bookkeeping root)).
  rewrite (handleInput_mounted st root Hroot). state_simpl.
  split; [reflexivity|].
  unfold reconcile. state_simpl. now rewrite String.eqb_refl.
Qed.

End MountFacts.


(* ------------------------------------------------------------------ *)
(** ** The request headers, the error handling of the routes and the
       database connection *)
(* ------------------------------------------------------------------ *)

Section BackendFacts.

Import ApiConfig MongoErrors Database.

(** The headers of an authenticated request, key by key. *)
Lemma getAuthHeaders_table (token : option string) (includeContentType : bool) :
  let headers := getAuthHeaders token includeContentType in
  assoc_get "Authorization" headers = Some (bearer token)
  /\ assoc_get "Accept" headers = Some "application/json"
  /\ assoc_get "ngrok-skip-browser-warning" headers = Some "true"
  /\ assoc_get "Content-Type" headers
     = (if includeContentType then Some "application/json" else None)
  /\ NoDup (map fst headers).
Proof.
  destruct includeContentType; cbn; repeat split;
    repeat (constructor; [cbn; intuition discriminate|]); constructor.
Qed.

(** X21: whatever the error, the result of [handleMongoError] can be
    sent as it is: the status code is never 0 and the message is never
    empty; a connection error gets 503 and the fixed message, with
    nothing of the error in it; the result depends neither on
    [NODE_ENV] nor on the context; one line is logged, and outside
    development it never carries the error object. *)
Theorem handleMongoError_result (isDevelopment isDevelopment' : bool) (e : Err)
    (context context' : string) :
  let logs := fst (handleMongoError isDevelopment e context) in
  let info := snd (handleMongoError isDevelopment e context) in
  info_statusCode info <> 0
  /\ info_message info <> EmptyString
  /\ info_isConnectionError info = isConnectionError e
  /\ (isConnectionError e = true ->
      info_statusCode info = 503
      /\ info_message info
         = "Database connection temporarily unavailable. Please try again.")
  /\ snd (handleMongoError isDevelopment' e context') = info
  /\ List.length logs = 1
  /\ (isDevelopment = false -> forall c e', ~ In (ErrorWithObject c e') logs).
Proof.
  unfold handleMongoError.
  destruct (isConnectionError e) eqn:Hc; cbn [fst snd info_statusCode info_message
                                               info_isConnectionError List.length].
  - repeat split; try discriminate.
    intros _ c e' [H|[]]. discriminate.
  - split.
    { destruct (err_statusCode e) as [[|n]|]; cbn [truthy_nat]; discriminate. }
    split.
    { unfold str_or. destruct (member (err_message e)); cbn [truthy]; discriminate. }
    split; [reflexivity|]. split; [discriminate|]. split; [reflexivity|].
    split; [reflexivity|].
    intros Hd c e' [H|[]]. rewrite Hd in H. discriminate.
Qed.

(** X22: an error told to be a connection error stays one when its
    message is wrapped in more text, whatever becomes of its status code:
    the route still answers 503. *)
Theorem connection_error_survives_wrapping
    (name : option string) (m pre post : string) (sc sc' : option nat) :
  isConnectionError (MkErr name (Some m) sc) = true ->
  let wrapped := MkErr name (Some (String.append pre (String.append m post))) sc' in
  isConnectionError wrapped = true
  /\ forall isDevelopment context,
       info_statusCode (snd (handleMongoError isDevelopment wrapped context)) = 503.
Proof.
  intros H wrapped.
  assert (Hw : isConnectionError wrapped = true).
  { unfold wrapped. unfold isConnectionError, name_is, message_includes in *.
    cbn [err_name err_message] in *.
    repeat rewrite orb_true_iff in *.
    intuition auto using includes_wrapped. }
  split; [exact Hw|]. intros dev ctx. unfold handleMongoError. now rewrite Hw.
Qed.

(** X23: the wrapper of the route handlers answers exactly when the
    handler's promise rejects, and then once, after one log line, with
    [success: false], a status code that is not 0 (503 for a connection
    error) and an error text that is not empty; when the handler fulfils
    nothing is added; an exception thrown before the handler returns a
    promise is not caught: it leaves the wrapper and no answer is sent. *)
Theorem asyncHandler_answers_rejections
    (isDevelopment : bool) (method path : string) (fn : FnOutcome) :
  match fn with
  | Fulfils => asyncHandler isDevelopment method path fn = []
  | ThrowsSync e => asyncHandler isDevelopment method path fn = [Escapes e]
  | RejectsWith e =>
      exists line status text,
        asyncHandler isDevelopment method path fn
        = [Log line; Respond status false text]
        /\ status <> 0
        /\ text <> EmptyString
        /\ (isConnectionError e = true -> status = 503)
  end.
Proof.
  destruct fn as [|e|e]; [reflexivity| |reflexivity].
  unfold asyncHandler, handleMongoError.
  destruct (isConnectionError e) eqn:Hc.
  - eexists _, _, _. split; [reflexivity|]. repeat split; discriminate.
  - eexists _, _, _. split; [reflexivity|]. split.
    { destruct (err_statusCode e) as [[|n]|]; cbn [truthy_nat]; discriminate. }
    split; [|discriminate].
    unfold str_or. destruct (member (err_message e)); cbn [truthy]; discriminate.
Qed.



Ltac wrapped_hint E :=
  match type of E with
  | includes ?k ?m = true =>
      match goal with
      | |- context [includes k (String.append ?pre (String.append m ?post))] =>
          rewrite (includes_wrapped k pre m post E), ?orb_true_r; cbn [orb];
          repeat match goal with
                 | |- context [if ?c then _ else _] => destruct c
                 end;
          discriminate
      end
  end.

(** X25: a failure message that mentions a failed authentication gets
    the authentication hint whatever else it says and whatever text is
    put around it; and a message that gets some hint still gets one
    when it is wrapped in more text. *)
Theorem hint_for_wrapped (m pre post : string) :
  let wrapped := String.append pre (String.append m post) in
  (includes "authentication failed" m || includes "bad auth" m = true ->
   hint_for m = Some AuthenticationError
   /\ hint_for wrapped = Some AuthenticationError)
  /\ (hint_for m <> None -> hint_for wrapped <> None).
Proof.
  cbv zeta. split.
  - intros H. split; unfold hint_for.
    + now rewrite H.
    + apply orb_true_iff in H.
      destruct H as [H|H]; rewrite (includes_wrapped _ pre m post H);
        [reflexivity | now rewrite orb_true_r].
  - unfold hint_for. intros H.
    destruct (includes "authentication failed" m) eqn:E1; [wrapped_hint E1|].
    destruct (includes "bad auth" m) eqn:E2; [wrapped_hint E2|].
    destruct (includes "IP" m) eqn:E3; [wrapped_hint E3|].
    destruct (includes "whitelist" m) eqn:E4; [wrapped_hint E4|].
    destruct (includes "ECONNREFUSED" m) eqn:E5; [wrapped_hint E5|].
    destruct (includes "ReplicaSetNoPrimary" m) eqn:E6; [wrapped_hint E6|].
    destruct (includes "timed out" m) eqn:E7; [wrapped_hint E7|].
    destruct (includes "timeout" m) eqn:E8; [wrapped_hint E8|].
    exfalso. apply H. reflexivity.
Qed.

End BackendFacts.

(* ================================================================== *)
(** * Concrete runs in the in-memory browser *)
(* ================================================================== *)

Section Runs.
Import TestHost.
Local Existing Instance browser.

Lemma C1_witness :
  let st := mounted two_paragraphs true (Some (caret (Point [0; 0] 1))) in
  editorRef st = Some (editor two_paragraphs)
  /\ reconcile "<p>ab</p><p>cd</p>" st = st.
Proof.
  split; [reflexivity|].
  exact (proj1 (C1_reconcile_current_serialization_is_noop
                  (mounted two_paragraphs true (Some (caret (Point [0; 0] 1))))
                  (editor two_paragraphs) eq_refl)).
Defined.

(** C2 as stated fails at offset 0: the editor is focused, the caret
    is at the start of the text ["ab"] (offset 0), the new value ["xyz"]
    differs and is long enough, and after the reconciliation the
    selection is the collapsed range at the start of the editor element,
    not a position inside the only text leaf. *)
Lemma C2_counterexample_offset_zero :
  let st := mounted [Text "ab"] true (Some (caret (Point [0] 0))) in
  let st' := reconcile "xyz" st in
  saved_cursorPosition st = 0
  /\ "xyz" <> innerHTML (editor [Text "ab"])
  /\ saved_cursorPosition st <= String.length (textContents (parseHTML "xyz"))
  /\ editorRef st' = Some (editor [Text "xyz"])
  /\ text_leaves (editor [Text "xyz"]) = [([0], "xyz")]
  /\ selection st' = Some (caret (Point [] 0))
  /\ ~ (exists p d off, In (p, d) (text_leaves (editor [Text "xyz"]))
                        /\ selection st' = Some (caret (Point p off))).
Proof.
  cbv zeta. repeat split; try reflexivity.
  - discriminate.
  - vm_compute. lia.
  - intros [p [d [off [Hin Hsel]]]]. vm_compute in Hin.
    destruct Hin as [E|[]]. inversion E; subst. vm_compute in Hsel. discriminate.
Qed.

Lemma C2_witness :
  let st := mounted [Text "hello"] true (Some (caret (Point [0] 3))) in
  let value := "<p>ab</p><p>cd</p>" in
  (editorRef st = Some (editor [Text "hello"])
   /\ hasFocus st = true
   /\ saved_cursorPosition st = 3
   /\ value <> innerHTML (editor [Text "hello"]))
  /\ exists root' before p d after,
       editorRef (reconcile value st) = Some root'
       /\ children root' = parseHTML value
       /\ text_leaves root' = before ++ (p, d) :: after
       /\ get root' p = Some (Text d)
       /\ leaves_length before < saved_cursorPosition st
          <= leaves_length before + String.length d
       /\ selection (reconcile value st)
          = Some (caret (Point p (saved_cursorPosition st - leaves_length before)))
       /\ hasFocus (reconcile value st) = true.
Proof.
  split.
  - repeat split; try reflexivity. discriminate.
  - apply (C2_caret_restored_for_positive_offset
             (mounted [Text "hello"] true (Some (caret (Point [0] 3))))
             (editor [Text "hello"]) (caret (Point [0] 3)) "<p>ab</p><p>cd</p>").
    + reflexivity.
    + reflexivity.
    + reflexivity.
    + reflexivity.
    + discriminate.
    + vm_compute. lia.
    + vm_compute. lia.
Defined.

(** The same run, evaluated: the caret lands in the second paragraph's
    text, one code unit in. *)
Example C2_run :
  selection (reconcile "<p>ab</p><p>cd</p>"
               (mounted [Text "hello"] true (Some (caret (Point [0] 3)))))
  = Some (caret (Point [1; 0] 1)).
Proof. reflexivity. Qed.

(** C3 as stated fails in CKEditor.tsx on a document without blocks that
    holds text: no empty paragraph is created and no caret is placed;
    the content is re-parsed into the aligned paragraph. *)
Lemma C3_counterexample_client_wraps_content :
  let st := mounted [Text "hello"] true None in
  let st' := Client.setAlignment AlignCenter st in
  selection st = None
  /\ some_descendant is_block (editor [Text "hello"]) = false
  /\ (exists root',
        editorRef st' = Some root'
        /\ children root' = [Elem "P" [] [("text-align", "center")] [Text "hello"]])
  /\ selection st' = None.
Proof. cbv zeta. repeat split. eexists. split; reflexivity. Qed.

Lemma C3_witness :
  let st := mounted two_paragraphs true None in
  (editorRef st = Some (editor two_paragraphs)
   /\ is_text (editor two_paragraphs) = false
   /\ hasFocus st = true
   /\ selection st = None
   /\ some_descendant is_block (editor two_paragraphs) = true)
  /\ forall st',
       st' = Part0.setAlignment AlignCenter st \/ st' = Client.setAlignment AlignCenter st ->
       exists root',
         editorRef st' = Some root' /\ selection st' = None
         /\ forall q b, q <> [] -> get (editor two_paragraphs) q = Some b -> is_block b = true ->
              exists b', get root' q = Some b'
                         /\ get_style "text-align" b' = Some "center"
                         /\ tag_of b' = tag_of b /\ attrs_of b' = attrs_of b
                         /\ List.length (children b') = List.length (children b).
Proof.
  split; [repeat split|].
  exact (proj1 (C3_setAlignment_without_selection AlignCenter
                  (mounted two_paragraphs true None) (editor two_paragraphs)
                  eq_refl eq_refl eq_refl eq_refl) eq_refl).
Defined.

Lemma C4_witness :
  let st := mounted two_paragraphs true (Some (caret (Point [0; 0] 1))) in
  (editorRef st = Some (editor two_paragraphs)
   /\ hasFocus st = true
   /\ selection st = Some (caret (Point [0; 0] 1))
   /\ find_block (editor two_paragraphs) [0; 0] = Some [0])
  /\ exists root',
       editorRef (Part0.setAlignment AlignCenter st) = Some root'
       /\ get root' [0] = Some (Elem "P" [] [("text-align", "center")] [Text "ab"])
       /\ get root' [1] = Some (Elem "P" [] [] [Text "cd"])
       /\ selection (Part0.setAlignment AlignCenter st) = Some (caret (Point [0; 0] 1)).
Proof.
  split; [repeat split|].
  destruct (C4_setAlignment_touches_only_the_enclosing_block AlignCenter
              (mounted two_paragraphs true (Some (caret (Point [0; 0] 1))))
              (editor two_paragraphs) (caret (Point [0; 0] 1)) [0]
              eq_refl eq_refl (or_introl eq_refl) eq_refl eq_refl
              _ (or_introl eq_refl))
    as [root' [P0 [H1 [H2 [_ [H4 [_ [H6 [_ H8]]]]]]]]].
  exists root'. split; [exact H1|]. split; [|split; [|exact H8]].
  - injection H2 as <-. exact H4.
  - rewrite H6; [reflexivity | discriminate |].
    intros [r Hr]. discriminate Hr.
Defined.

(** C5 as stated fails in CKEditor.tsx: the image goes into the
    document bare; there is no centered block and no line break. *)
Lemma C5_counterexample_client_bare_image :
  let st := mounted [] true (Some (caret (Point [] 0))) in
  let st' := Client.insertImageFromUrl "http://x/i.png" st in
  exists root',
    editorRef st' = Some root'
    /\ children root' = [Client.make_img "http://x/i.png"]
    /\ some_descendant (tag_in ["P"; "DIV"]) root' = false
    /\ some_descendant (tag_in ["BR"]) root' = false.
Proof. cbv zeta. eexists. repeat split. Qed.

(** A URL of white space only is not empty, and nothing is inserted. *)
Example C5_blank_url_inserts_nothing :
  let st := mounted [] true (Some (caret (Point [] 0))) in
  Part0.insertImageFromUrl " " st = st /\ Client.insertImageFromUrl " " st = st.
Proof. split; reflexivity. Qed.

Lemma C5_witness :
  let st := mounted [] true (Some (caret (Point [] 0))) in
  let url := "http://x/i.png" in
  (editorRef st = Some (editor []) /\ hasFocus st = true
   /\ selection st = Some (caret (Point [] 0)) /\ truthy (trim url) = true)
  /\ (exists root',
        editorRef (Part0.insertImageFromUrl url st) = Some root'
        /\ children root'
           = [Elem "P" [] [("text-align", "center")] [Part0.make_img url; BR]]
        /\ selection (Part0.insertImageFromUrl url st) = Some (caret (Point [] 1))
        /\ effects (Part0.insertImageFromUrl url st)
           = effects st ++ [OnChange (serializeHTML (children root'))]).
Proof.
  split; [repeat split|].
  exact (proj1 (C5_insertImage_in_empty_document "http://x/i.png"
                  (mounted [] true (Some (caret (Point [] 0))))
                  "DIV" [("dir", "ltr")] [("direction", "ltr"); ("text-align", "left")]
                  eq_refl eq_refl eq_refl eq_refl)).
Defined.

(** C6 as stated fails when the range can be wrapped: with an empty
    display text the link does not show the URL but the selected text. *)
Lemma C6_counterexample_wrapped_text_is_not_the_url :
  let range := MkRange (Point [0; 0] 2) (Point [0; 0] 7) in
  let st := with_link "http://x" "" (mounted hello_world true (Some range)) in
  let st' := insertLink st in
  trim (linkText st) = EmptyString
  /\ collapsed range = false
  /\ selection st' = Some (caret (Point [0] 2))
  /\ exists root' link,
       editorRef st' = Some root' /\ get root' [0; 1] = Some link
       /\ tag_of link = Some "A"
       /\ textContent link = "llo w"
       /\ textContent link <> linkUrl st.
Proof.
  cbv zeta. repeat split. eexists. eexists.
  split; [reflexivity|]. split; [reflexivity|]. split; [reflexivity|].
  split; [reflexivity|]. discriminate.
Qed.

Lemma C6_witness :
  let range := MkRange (Point [0; 0] 6) (Point [1; 0; 0] 2) in
  let st := with_link "http://x" "" (mounted hello_world true (Some range)) in
  (editorRef st = Some (editor hello_world)
   /\ truthy (trim (linkUrl st)) = true
   /\ collapsed range = false
   /\ valid_range (editor hello_world) range = true
   /\ partially_contains_element [0; 0] [1; 0; 0] (editor hello_world) = true)
  /\ exists root' par idx link,
       editorRef (insertLink st) = Some root'
       /\ selection (insertLink st) = Some (caret (Point par (S idx)))
       /\ get root' (par ++ [idx]) = Some link
       /\ tag_of link = Some "A"
       /\ assoc_get "href" (attrs_of link) = Some "http://x"
       /\ children link = [Text "http://x"].
Proof.
  split; [repeat split|].
  destruct (C6_insertLink_on_selected_range
              (with_link "http://x" ""
                 (mounted hello_world true
                    (Some (MkRange (Point [0; 0] 6) (Point [1; 0; 0] 2)))))
              (editor hello_world) (MkRange (Point [0; 0] 6) (Point [1; 0; 0] 2))
              eq_refl eq_refl eq_refl eq_refl eq_refl eq_refl)
    as [root' [par [idx [link [B [H1 [H2 [H3 [H4 [H5 [_ [_ H7]]]]]]]]]]]].
  exists root', par, idx, link.
  repeat split; try assumption. exact (proj1 (H7 eq_refl)).
Defined.

(** C7 as stated fails in CKEditor.tsx: of a payload with markup only
    the plain-text flavour reaches the document, as a text node; the
    markup that is left after the removal of unsafe elements does not. *)
Lemma C7_counterexample_client_ignores_markup :
  let e := MkClipboard "<b>x</b>" "x" in
  let st := mounted [] true (Some (caret (Point [] 0))) in
  let st' := Client.handlePaste e st in
  truthy (trim (text_html e)) = true
  /\ Part0.sanitized_fragment (text_html e) = [Elem "B" [] [] [Text "x"]]
  /\ exists root',
       editorRef st' = Some root'
       /\ children root' = [Text "x"]
       /\ some_descendant (tag_in ["B"]) root' = false.
Proof. cbv zeta. repeat split. eexists. repeat split. Qed.

Lemma C7_witness :
  let e := MkClipboard "<script>1</script><i>y</i>" "y" in
  let range := caret (Point [0] 1) in
  let st := mounted [Text "ab"] true (Some range) in
  (editorRef st = Some (editor [Text "ab"])
   /\ valid_range (editor [Text "ab"]) range = true
   /\ deleteContents range (editor [Text "ab"]) = (editor [Text "ab"], Point [0] 1)
   /\ truthy (trim (text_html e)) = true)
  /\ Forall (fun c => is_unsafe c = false /\ descendants_safe c = true)
       (Part0.sanitized_fragment (text_html e))
  /\ exists root' par idx,
       editorRef (Part0.handlePaste e st) = Some root'
       /\ insertNode (Point [0] 1) (Part0.sanitized_fragment (text_html e))
            (editor [Text "ab"]) = (root', (par, idx))
       /\ forall k c, nth_error (Part0.sanitized_fragment (text_html e)) k = Some c ->
                      get root' (par ++ [idx + k]) = Some c.
Proof.
  split; [repeat split|].
  destruct (C7_paste_by_flavour (MkClipboard "<script>1</script><i>y</i>" "y")
              (mounted [Text "ab"] true (Some (caret (Point [0] 1))))
              (editor [Text "ab"]) (caret (Point [0] 1))
              (editor [Text "ab"]) (Point [0] 1)
              eq_refl eq_refl eq_refl eq_refl eq_refl)
    as [B [_ [H _]]].
  destruct (H eq_refl) as [Hsafe [root' [par [idx [H1 [H2 [H3 _]]]]]]].
  split; [exact Hsafe|]. exists root', par, idx. auto.
Defined.

(** The same paste, evaluated: the script element is gone, the text is
    split around the pasted markup, no [onChange] call follows. *)
Example C7_run :
  let st' := Part0.handlePaste (MkClipboard "<script>1</script><i>y</i>" "y")
               (mounted [Text "ab"] true (Some (caret (Point [0] 1)))) in
  editorRef st' = Some (editor [Text "a"; Elem "I" [] [] [Text "y"]; Text "b"])
  /\ effects st' = [Uncaught "InvalidNodeTypeError"].
Proof. split; reflexivity. Qed.

(** C9 as stated fails in part_000: an emission does not follow every
    paste, nor every command.  A paste while the window has no selection
    returns at the guard of [handlePaste], and nothing is emitted; a
    native command that throws is caught and logged by [execCommand],
    and nothing is emitted. *)
Lemma C9_counterexample_part0_no_emission :
  let st := mounted [Text "ab"] true None in
  let e := MkClipboard "" "x" in
  effects (Part0.handlePaste e st) = []
  /\ existsb is_emission (effects (Part0.handlePaste e st)) = false
  /\ effects (Part0.execCommand (host := throwing_browser) "bold" [] st)
     = [ConsoleError "Error executing command bold:"]
  /\ existsb is_emission
       (effects (Part0.execCommand (host := throwing_browser) "bold" [] st)) = false.
Proof. cbv zeta. repeat split. Qed.

Lemma C9_witness :
  let P := Elem "P" [] [] [Text "ab"] in
  let C := Elem "P" [] [("text-align", "center")] [Text "cd"] in
  let bare := Elem "DIV" [] [] [P] in
  let aligned := Elem "DIV" [] [("text-align", "right")] [P; C] in
  let st1 := set_editor bare (mounted [] true None) in
  let st2 := set_editor aligned (mounted [] true None) in
  (editorRef st1 = Some bare /\ editorRef st2 = Some aligned
   /\ some_descendant has_text_align_style bare = false
   /\ some_descendant has_text_align_style aligned = true)
  /\ (exists root',
        editorRef (handleInput st1) = Some root'
        /\ assoc_get "dir" (attrs_of root') = Some "ltr"
        /\ get_style "direction" root' = Some "ltr"
        /\ get_style "text-align" root' = Some "left"
        /\ children root' = [P]
        /\ effects (handleInput st1) = [OnChange "<p>ab</p>"])
  /\ (exists root',
        editorRef (handleInput st2) = Some root'
        /\ assoc_get "dir" (attrs_of root') = Some "ltr"
        /\ get_style "direction" root' = Some "ltr"
        /\ get_style "text-align" root' = Some "right"
        /\ children root' = [P; C]).
Proof.
  split; [repeat split|]. split.
  - destruct (C9_emission_bookkeeping
                (set_editor (Elem "DIV" [] [] [Elem "P" [] [] [Text "ab"]])
                   (mounted [] true None))
                (Elem "DIV" [] [] [Elem "P" [] [] [Text "ab"]]) eq_refl eq_refl)
      as [root' [H1 [H2 [H3 [H4 [_ [H6 H7]]]]]]].
    exists root'. repeat split; try assumption. exact (H4 eq_refl).
  - destruct (C9_emission_bookkeeping
                (set_editor
                   (Elem "DIV" [] [("text-align", "right")]
                      [Elem "P" [] [] [Text "ab"];
                       Elem "P" [] [("text-align", "center")] [Text "cd"]])
                   (mounted [] true None))
                (Elem "DIV" [] [("text-align", "right")]
                   [Elem "P" [] [] [Text "ab"];
                    Elem "P" [] [("text-align", "center")] [Text "cd"]])
                eq_refl eq_refl)
      as [root' [H1 [H2 [H3 [_ [H5 [H6 _]]]]]]].
    exists root'. repeat split; try assumption. exact (H5 eq_refl).
Defined.

(** C8 at a concrete failing input: a file is pending, the upload
    answers 200 with an empty JSON object.  part_000 alerts; CKEditor.tsx
    closes the dialog without a word. *)
Example C8_run :
  let st := setUploadingImage true
              (setShowImageDialog true
                 (setImageFile (Some a_file) (mounted [] true (Some (caret (Point [] 0)))))) in
  let res := FetchResolves true 200 (JsonResolves (MkBody None None)) in
  effects (Part0.uploadAndInsertImage_settled res st)
  = [ConsoleError "Image upload error:"; Alert "No image URL returned from server"]
  /\ effects (Client.uploadAndInsertImage_settled res st) = []
  /\ showImageDialog (Client.uploadAndInsertImage_settled res st) = false.
Proof. repeat split. Qed.

(** C4 as stated fails on an editor that is not the active element and
    holds no text: the caret is inside the first paragraph, but
    [setAlignment] focuses the editor first and [handleFocus] moves the
    caret to the start of the editor element, outside every block.
    part_000 then inserts a new aligned paragraph in front: the
    paragraph that held the caret keeps its style and the document has
    one block more.  CKEditor.tsx first tries the native [formatBlock]
    command there; in the browser of these runs, which does not support
    it, it ends in the same tree. *)
Lemma C4_counterexample_unfocused_blank_editor :
  let P := Elem "P" [("id", "a")] [] [BR] in
  let Q := Elem "P" [("id", "b")] [] [BR] in
  let st := mounted [P; Q] false (Some (caret (Point [0] 0))) in
  let st' := Part0.setAlignment AlignCenter st in
  find_block (editor [P; Q]) (commonAncestorContainer (caret (Point [0] 0))) = Some [0]
  /\ get (editor [P; Q]) [0] = Some P
  /\ selection (focus st) = Some (caret (Point [] 0))
  /\ editorRef st' = Some (editor [Elem "P" [] [("text-align", "center")] [BR]; P; Q])
  /\ (forall root', editorRef st' = Some root' ->
      get root' [0] <> Some (set_style "text-align" "center" P)
      /\ get root' [1] = Some P
      /\ get root' [2] <> get (editor [P; Q]) [2])
  /\ editorRef (Client.setAlignment AlignCenter st) = editorRef st'.
Proof.
  cbv zeta. split; [reflexivity|]. split; [reflexivity|]. split; [reflexivity|].
  split; [reflexivity|]. split; [|reflexivity].
  intros root' Hr.
  change (Some (editor [Elem "P" [] [("text-align", "center")] [BR];
                        Elem "P" [("id", "a")] [] [BR];
                        Elem "P" [("id", "b")] [] [BR]]) = Some root') in Hr.
  injection Hr as <-.
  split; [intros E1; vm_compute in E1; discriminate|].
  split; [reflexivity|]. intros E1; vm_compute in E1; discriminate.
Qed.

(** An editor that is not the active element, holds text and has no
    selection: the browser places its caret when the editor takes the
    focus (this one at the start of the first text), so [setAlignment]
    reads a selection and aligns the block around it only. *)
Example setAlignment_on_unfocused_editor_with_text :
  let st := mounted two_paragraphs false None in
  selection (focus st) = Some (caret (Point [0; 0] 0))
  /\ editorRef (Part0.setAlignment AlignCenter st)
     = Some (editor [Elem "P" [] [("text-align", "center")] [Text "ab"];
                     Elem "P" [] [] [Text "cd"]])
  /\ Client.setAlignment AlignCenter st = Part0.setAlignment AlignCenter st.
Proof. repeat split. Qed.

(** An editor without text and without a selection: [handleFocus]
    creates the caret, and the blocks are not aligned. *)
Example setAlignment_on_unfocused_blank_editor_without_selection :
  let doc := [Elem "P" [] [] [BR]] in
  let st := mounted doc false None in
  selection (focus st) = Some (caret (Point [] 0))
  /\ editorRef (Part0.setAlignment AlignRight st)
     = Some (editor (Elem "P" [] [("text-align", "right")] [BR] :: doc)).
Proof. split; reflexivity. Qed.

(** [insertImageFromUrl] calls [focus()] after the insertion: on an
    editor that is not the active element the caret ends at the start of
    the editor element, in front of the new paragraph. *)
Example insertImage_on_unfocused_empty_editor :
  let st := mounted [] false (Some (caret (Point [] 0))) in
  selection (Part0.insertImageFromUrl "http://x/i.png" st) = Some (caret (Point [] 0)).
Proof. reflexivity. Qed.


Lemma reconcile_unfocused_witness :
  let st := mounted [Text "ab"] false (Some (caret (Point [0] 1))) in
  (editorRef st = Some (editor [Text "ab"]) /\ hasFocus st = false
   /\ "xyz" <> innerHTML (editor [Text "ab"]))
  /\ editorRef (reconcile "xyz" st) = Some (set_children (parseHTML "xyz") (editor [Text "ab"]))
  /\ selection (reconcile "xyz" st) = Some (caret (Point [] 0))
  /\ hasFocus (reconcile "xyz" st) = false.
Proof.
  split; [repeat split; discriminate|].
  apply (reconcile_unfocused "xyz"
           (mounted [Text "ab"] false (Some (caret (Point [0] 1))))
           (editor [Text "ab"])); [reflexivity | reflexivity | discriminate].
Defined.

Lemma reconcile_value_too_short_witness :
  let st := mounted [Text "hello"] true (Some (caret (Point [0] 4))) in
  (editorRef st = Some (editor [Text "hello"]) /\ hasFocus st = true
   /\ saved_cursorPosition st = 4
   /\ String.length (textContents (parseHTML "xyz")) = 3)
  /\ editorRef (reconcile "xyz" st)
     = Some (set_children (parseHTML "xyz") (editor [Text "hello"]))
  /\ selection (reconcile "xyz" st) = Some (caret (Point [] 0)).
Proof.
  split; [repeat split|].
  apply (reconcile_value_too_short "xyz"
           (mounted [Text "hello"] true (Some (caret (Point [0] 4))))
           (editor [Text "hello"]) (caret (Point [0] 4)));
    try reflexivity; [discriminate | vm_compute; lia].
Defined.

Lemma reconcile_twice_witness :
  let st := mounted [Text "hello"] true (Some (caret (Point [0] 3))) in
  let value := "<p>ab</p><p>cd</p>" in
  (editorRef st = Some (editor [Text "hello"])
   /\ serializeHTML (parseHTML value) = value)
  /\ reconcile value (reconcile value st) = reconcile value st.
Proof.
  split; [repeat split|].
  apply (reconcile_twice "<p>ab</p><p>cd</p>"
           (mounted [Text "hello"] true (Some (caret (Point [0] 3))))
           (editor [Text "hello"])); reflexivity.
Defined.

Lemma handleInput_twice_witness :
  let st := mounted two_paragraphs true None in
  editorRef st = Some (editor two_paragraphs)
  /\ effects (handleInput (handleInput st))
     = [OnChange "<p>ab</p><p>cd</p>"; OnChange "<p>ab</p><p>cd</p>"].
Proof.
  split; [reflexivity|].
  exact (proj2 (handleInput_twice (mounted two_paragraphs true None)
                  (editor two_paragraphs) eq_refl)).
Defined.


Lemma insertLink_blank_url_witness :
  let st := setLinkText "docs" (setLinkUrl "  " (mounted hello_world true None)) in
  blank (linkUrl st) = true /\ insertLink st = st.
Proof.
  split; [reflexivity|].
  apply (insertLink_blank_url
           (setLinkText "docs" (setLinkUrl "  " (mounted hello_world true None)))).
  reflexivity.
Defined.

Lemma insertLink_without_selection_witness :
  let st := setLinkUrl "http://x" (mounted [Text "ab"] true None) in
  (editorRef st = Some (editor [Text "ab"]) /\ blank (linkUrl st) = false
   /\ selection st = None)
  /\ selection (insertLink st) = Some (caret (Point [] 2))
  /\ effects (insertLink st)
     = [OnChange (innerHTML (bookkeeping
                   (set_children ([Text "ab"] ++ [make_link st]) (editor [Text "ab"]))))].
Proof.
  split; [repeat split|].
  pose proof (insertLink_without_selection
                (setLinkUrl "http://x" (mounted [Text "ab"] true None))
                (editor [Text "ab"]) eq_refl eq_refl eq_refl eq_refl) as H.
  cbv zeta in H. split; [exact (proj1 (proj2 (proj2 (proj2 H))))|].
  exact (proj1 (proj2 (proj2 (proj2 (proj2 (proj2 H)))))).
Defined.

Lemma insertLink_at_caret_witness :
  let st := setLinkUrl "http://x"
              (mounted [Text "hello"] true (Some (caret (Point [0] 2)))) in
  (editorRef st = Some (editor [Text "hello"]) /\ blank (linkUrl st) = false
   /\ valid_range (editor [Text "hello"]) (caret (Point [0] 2)) = true)
  /\ exists root' par idx B,
       editorRef (insertLink st) = Some root'
       /\ selection (insertLink st) = Some (caret (Point par (S idx)))
       /\ get root' (par ++ [idx]) = Some (make_link st)
       /\ children (make_link st) = [Text (display_text st)]
       /\ textContent (editor [Text "hello"]) = String.append "he" B
       /\ textContent root' = String.append "he" (String.append (display_text st) B)
       /\ effects (insertLink st) = effects st ++ [OnChange (innerHTML root')].
Proof.
  split; [repeat split|].
  exact (insertLink_at_caret
           (setLinkUrl "http://x"
              (mounted [Text "hello"] true (Some (caret (Point [0] 2)))))
           (editor [Text "hello"]) (caret (Point [0] 2))
           eq_refl eq_refl eq_refl eq_refl eq_refl eq_refl).
Defined.


Lemma only_acceptable_files_are_uploaded_witness :
  let st := mounted hello_world true None in
  (imageFile st = None /\ uploadingImage st = false)
  /\ requests (effects (Part0.click_insert_button (handleImageFileSelect [a_file] st)))
     = requests (effects st) ++ (if acceptable a_file then [a_file] else [])
  /\ requests (effects (Client.click_insert_button (handleImageFileSelect [a_file] st)))
     = requests (effects st) ++ (if acceptable a_file then [a_file] else []).
Proof.
  split; [split; reflexivity|].
  apply (only_acceptable_files_are_uploaded [a_file] (mounted hello_world true None));
    reflexivity.
Defined.

Lemma Part0_insertImageFromUrl_without_selection_witness :
  let st := mounted [] false None in
  (editorRef st = Some (editor []) /\ blank "u.png" = false /\ selection st = None)
  /\ exists root',
       editorRef (Part0.insertImageFromUrl "u.png" st) = Some root'
       /\ children root'
          = [Elem "P" [] [("text-align", "center")] [Part0.make_img "u.png"; BR]]
       /\ textContent root' = EmptyString
       /\ selection (Part0.insertImageFromUrl "u.png" st) = Some (caret (Point [] 0))
       /\ hasFocus (Part0.insertImageFromUrl "u.png" st) = true
       /\ effects (Part0.insertImageFromUrl "u.png" st) = [OnChange (innerHTML root')].
Proof.
  split; [repeat split|].
  exact (Part0_insertImageFromUrl_without_selection "u.png" (mounted [] false None)
           (editor []) eq_refl eq_refl eq_refl eq_refl).
Defined.

Lemma upload_success_is_insertImageFromUrl_witness :
  let st := mounted hello_world true None in
  let res := FetchResolves true 200 (JsonResolves (MkBody (Some " ") None)) in
  (editorRef st = Some (editor hello_world) /\ truthy " " = true /\ blank " " = true)
  /\ effects (Part0.uploadAndInsertImage_settled res st) = effects st
  /\ effects (Client.uploadAndInsertImage_settled res st) = effects st.
Proof.
  split; [repeat split|].
  pose proof (upload_success_is_insertImageFromUrl " " None 200
                (mounted hello_world true None) (editor hello_world)
                eq_refl eq_refl) as H.
  cbv zeta in H. destruct H as [_ [_ H]]. specialize (H eq_refl).
  split; [exact (proj1 H) | exact (proj1 (proj2 (proj2 H)))].
Defined.


Lemma setAlignment_ends_with_emission_witness :
  let st := mounted two_paragraphs true None in
  let st2 := mounted [Text "ab"] true (Some (caret (Point [] 0))) in
  (editorRef st = Some (editor two_paragraphs)
   /\ editorRef st2 = Some (editor [Text "ab"]))
  /\ (exists root',
        editorRef (Part0.setAlignment AlignCenter st) = Some root'
        /\ effects (Part0.setAlignment AlignCenter st)
           = effects st ++ [OnChange (innerHTML root')])
  /\ (exists root' input log,
        editorRef (Client.setAlignment (host := wrapping_browser) AlignCenter st2)
        = Some root'
        /\ effects (Client.setAlignment (host := wrapping_browser) AlignCenter st2)
           = effects st2 ++ input ++ log
             ++ [OnChange (innerHTML (host := wrapping_browser) root')]
        /\ (input = [] \/ exists html, input = [OnChange html])
        /\ (log = [] \/ log = [ConsoleError "Error setting alignment:"]))
  /\ effects (Client.setAlignment (host := wrapping_browser) AlignCenter st2)
     = [OnChange "<b>ab</b>";
        OnChange
          (innerHTML (host := wrapping_browser)
             (editor [Elem "P" [] [("text-align", "center")] [BR];
                      Elem "B" [] [] [Text "ab"]]))].
Proof.
  split; [split; reflexivity|]. split; [|split; [|reflexivity]].
  - exact (proj1 (setAlignment_ends_with_emission AlignCenter
                    (mounted two_paragraphs true None) (editor two_paragraphs) eq_refl)).
  - exact (proj2 (setAlignment_ends_with_emission (host := wrapping_browser) AlignCenter
                    (mounted [Text "ab"] true (Some (caret (Point [] 0))))
                    (editor [Text "ab"]) eq_refl)).
Defined.

Lemma setAlignment_wraps_selected_text_witness :
  let range := MkRange (Point [0] 1) (Point [0] 4) in
  let st := mounted [Text "hello"] true (Some range) in
  (editorRef st = Some (editor [Text "hello"])
   /\ valid_range (editor [Text "hello"]) range = true
   /\ find_block (editor [Text "hello"]) (commonAncestorContainer range) = None
   /\ Range_toString range (editor [Text "hello"]) = "ell")
  /\ exists root' par idx p,
       editorRef (Part0.setAlignment AlignRight st) = Some root'
       /\ Client.setAlignment AlignRight st = Part0.setAlignment AlignRight st
       /\ get root' (par ++ [idx]) = Some p
       /\ tag_of p = Some "P"
       /\ style_of p = [("text-align", "right")]
       /\ children p = snd (fst (extractContents range (editor [Text "hello"])))
       /\ textContent p = Range_toString range (editor [Text "hello"])
       /\ selection (Part0.setAlignment AlignRight st) = Some (caret (Point par (S idx)))
       /\ textContent root' = textContent (editor [Text "hello"]).
Proof.
  split; [repeat split|].
  exact (setAlignment_wraps_selected_text AlignRight
           (mounted [Text "hello"] true (Some (MkRange (Point [0] 1) (Point [0] 4))))
           (editor [Text "hello"]) (MkRange (Point [0] 1) (Point [0] 4))
           eq_refl eq_refl eq_refl eq_refl eq_refl eq_refl eq_refl).
Defined.



Lemma paste_without_selection_witness :
  let st := mounted [Text "ab"] true None in
  let e := MkClipboard "<b>x</b>" "x" in
  (editorRef st = Some (editor [Text "ab"]) /\ selection st = None)
  /\ Part0.handlePaste e st = st
  /\ exists root',
       editorRef (Client.handlePaste e st) = Some root'
       /\ children root' = [Text "ab"; Text "x"]
       /\ textContent root' = "abx"
       /\ selection (Client.handlePaste e st) = Some (caret (Point [] 2))
       /\ effects (Client.handlePaste e st) = [OnChange (innerHTML root')].
Proof.
  split; [repeat split|].
  exact (paste_without_selection (MkClipboard "<b>x</b>" "x")
           (mounted [Text "ab"] true None) (editor [Text "ab"])
           eq_refl eq_refl eq_refl).
Defined.

Lemma Part0_markup_paste_is_not_emitted_witness :
  let st := mounted [Text "ab"] true (Some (caret (Point [] 1))) in
  let e := MkClipboard "<p>ab</p><p>cd</p>" "" in
  (editorRef st = Some (editor [Text "ab"]) /\ blank (text_html e) = false)
  /\ effects (Part0.handlePaste e st) = [Uncaught "InvalidNodeTypeError"].
Proof.
  split; [repeat split|].
  destruct (Part0_markup_paste_is_not_emitted (MkClipboard "<p>ab</p><p>cd</p>" "")
              (mounted [Text "ab"] true (Some (caret (Point [] 1))))
              (editor [Text "ab"]) (caret (Point [] 1)) eq_refl eq_refl eq_refl)
    as [root' [start [par [idx [_ [_ [H _]]]]]]].
  exact H.
Defined.

Lemma Part0_execCommand_outcomes_witness :
  let st := mounted [Text "ab"] true None in
  editorRef st = Some (editor [Text "ab"])
  /\ (effects (Part0.execCommand (host := wrapping_browser) "bold" [] st)
      = [OnChange "<b>ab</b>"; OnChange "<b>ab</b>"]
      /\ editorRef (Part0.execCommand (host := wrapping_browser) "bold" [] st)
         = Some (editor [Elem "B" [] [] [Text "ab"]]))
  /\ (effects (Part0.execCommand (host := throwing_browser) "bold" [] st)
      = [ConsoleError "Error executing command bold:"]
      /\ editorRef (Part0.execCommand (host := throwing_browser) "bold" [] st)
         = Some (editor [Text "ab"])).
Proof.
  split; [reflexivity|]. split.
  - destruct (Part0_execCommand_outcomes (host := wrapping_browser) "bold" []
                (mounted [Text "ab"] true None) (editor [Text "ab"]) eq_refl)
      as [rootF [range [HF [_ [_ H]]]]].
    change (Some (editor [Text "ab"]) = Some rootF) in HF. injection HF as <-.
    cbn [nativeExecCommand wrapping_browser wrappingCommand] in H.
    destruct H as [H1 [_ H3]]. split; [exact H3 | exact H1].
  - destruct (Part0_execCommand_outcomes (host := throwing_browser) "bold" []
                (mounted [Text "ab"] true None) (editor [Text "ab"]) eq_refl)
      as [rootF [range [HF [_ [_ H]]]]].
    cbn [nativeExecCommand throwing_browser throwingCommand] in H.
    destruct H as [H1 [_ H3]]. split; [exact H3|].
    rewrite H1, <- HF. reflexivity.
Defined.

Lemma mount_then_reconcile_witness :
  let st := mounted [] false None in
  let value := "<p>ab</p><p>cd</p>" in
  (editorRef st = Some (editor []) /\ serializeHTML (parseHTML value) = value)
  /\ reconcile value (Part0.mount value st) = Part0.mount value st
  /\ reconcile value (Client.mount value st) = Client.mount value st.
Proof.
  split; [repeat split|].
  pose proof (mount_then_reconcile "<p>ab</p><p>cd</p>" (mounted [] false None)
                (editor []) eq_refl eq_refl eq_refl) as H.
  exact (proj2 (proj2 (proj2 H))).
Defined.

Lemma emitted_value_reconciles_to_noop_witness :
  let st := mounted two_paragraphs true (Some (caret (Point [0; 0] 1))) in
  editorRef st = Some (editor two_paragraphs)
  /\ exists html,
       effects (handleInput st) = effects st ++ [OnChange html]
       /\ reconcile html (handleInput st) = handleInput st.
Proof.
  split; [reflexivity|].
  exact (emitted_value_reconciles_to_noop
           (mounted two_paragraphs true (Some (caret (Point [0; 0] 1))))
           (editor two_paragraphs) eq_refl).
Defined.


Lemma connection_error_survives_wrapping_witness :
  MongoErrors.isConnectionError
    (MongoErrors.MkErr (Some "Error") (Some "read ETIMEDOUT") None) = true
  /\ MongoErrors.isConnectionError
       (MongoErrors.MkErr (Some "Error") (Some "GET /api: read ETIMEDOUT (retry 2)")
          (Some 400)) = true.
Proof.
  split; [reflexivity|].
  exact (proj1 (connection_error_survives_wrapping (Some "Error") "read ETIMEDOUT"
                  "GET /api: " " (retry 2)" None (Some 400) eq_refl)).
Defined.

End Runs.
